(** * pi-agent: the job lifecycle engine, embedded and verified

  A shallow embedding of the print agent's modules
  ([modules/utils.js], [modules/printer.js], [modules/job-handler.js],
  [modules/socket-client.js], [modules/errors.js]) together with the
  properties of the job lifecycle that the design document states about
  them, and with further properties that the code itself shows.

  JavaScript strings are modelled as [string] (8-bit code units); the
  Node.js library functions the agent calls ([String.prototype.*],
  [path.extname], [path.dirname], [path.basename], [Map]) are modelled
  in the modules [JS], [Path], [Posix] and [JSMap] below, following the
  documented behaviour of the platform. *)

From Stdlib Require Import String Ascii ZArith Lia Bool List.
From stdpp Require Import base tactics option list gmap strings.
Import ListNotations.

Local Open Scope string_scope.
Local Open Scope Z_scope.

(* ===================================================================== *)
(** * The JavaScript string primitives used by the agent                  *)
(* ===================================================================== *)

Module JS.

(** The capitals among the 8-bit code units: ['A'..'Z'] and the Latin-1
    capitals U+00C0..U+00DE, U+00D7 (the multiplication sign) excepted. *)
Definition is_upper (c : ascii) : bool :=
  let n := nat_of_ascii c in
  ((Nat.leb 65 n && Nat.leb n 90)
   || (Nat.leb 192 n && Nat.leb n 222 && negb (Nat.eqb n 215)))%bool.

Definition lower_char (c : ascii) : ascii :=
  if is_upper c then ascii_of_nat (nat_of_ascii c + 32) else c.

(** [s.toLowerCase()]: every capital is moved to its small letter, 32
    places up; every other code unit is kept. *)
Fixpoint toLowerCase (s : string) : string :=
  match s with
  | EmptyString => EmptyString
  | String c s' => String (lower_char c) (toLowerCase s')
  end.

(** [s.startsWith(p)]. *)
Fixpoint startsWith (s p : string) {struct p} : bool :=
  match p with
  | EmptyString => true
  | String a p' =>
      match s with
      | EmptyString => false
      | String b s' => (Ascii.eqb a b && startsWith s' p')%bool
      end
  end.

(** [s.indexOf(p)]: position of the leftmost occurrence, [None] for -1. *)
Fixpoint indexOf (s p : string) : option nat :=
  if startsWith s p then Some 0%nat
  else match s with
       | EmptyString => None
       | String _ s' => option_map S (indexOf s' p)
       end.

(** [s.includes(p)]. *)
Definition includes (s p : string) : bool :=
  match indexOf s p with Some _ => true | None => false end.

(** The first [n] code units, and what follows them. *)
Fixpoint take (n : nat) (s : string) : string :=
  match n, s with
  | S n', String c s' => String c (take n' s')
  | _, _ => EmptyString
  end.

Fixpoint drop (n : nat) (s : string) : string :=
  match n, s with
  | S n', String _ s' => drop n' s'
  | _, _ => s
  end.

(** [s.slice(b, e)] for [0 <= b], [0 <= e]. *)
Definition slice (s : string) (b e : nat) : string :=
  take (e - b) (drop b s).

(** [s.replace(pat, rep)] with a string pattern and a replacement
    without [$]: only the leftmost occurrence is replaced. *)
Definition replace (s pat rep : string) : string :=
  match indexOf s pat with
  | None => s
  | Some i => take i s ++ rep ++ drop (i + String.length pat) s
  end.

(** [s.split(sep)] for a one-character separator. *)
Fixpoint split (sep : ascii) (s : string) : list string :=
  match s with
  | EmptyString => [EmptyString]
  | String c s' =>
      if Ascii.eqb c sep then EmptyString :: split sep s'
      else match split sep s' with
           | [] => [String c EmptyString]
           | w :: ws => String c w :: ws
           end
  end.

(** White space as [trim] and the regular-expression class [\s] see it
    (tab, line feed, vertical tab, form feed, carriage return, space,
    no-break space). *)
Definition is_space (c : ascii) : bool :=
  let n := nat_of_ascii c in
  ((Nat.leb 9 n && Nat.leb n 13) || Nat.eqb n 32 || Nat.eqb n 160)%bool.

Fixpoint trimStart (s : string) : string :=
  match s with
  | EmptyString => EmptyString
  | String c s' => if is_space c then trimStart s' else s
  end.

Fixpoint trimEnd (s : string) : string :=
  match s with
  | EmptyString => EmptyString
  | String c s' =>
      match trimEnd s' with
      | EmptyString => if is_space c then EmptyString else String c EmptyString
      | t => String c t
      end
  end.

(** [s.trim()]. *)
Definition trim (s : string) : string := trimEnd (trimStart s).

(** [arr.includes(x)] on an array of strings. *)
Definition arr_includes (arr : list string) (x : string) : bool :=
  existsb (String.eqb x) arr.

(** Truthiness of a string value: only the empty string is falsy. *)
Definition truthy (s : string) : bool :=
  match s with EmptyString => false | _ => true end.

(** Truthiness of a value that is [null] or a string. *)
Definition truthy_opt (o : option string) : bool :=
  match o with None => false | Some s => truthy s end.

End JS.

(* ===================================================================== *)
(** * [path.extname] (POSIX flavour)                                      *)
(* ===================================================================== *)

Module Path.

(** The scanner state of [path.posix.extname]; [-1] marks an index that
    has not been found yet, as in the library. *)
Record ExtScan := mkExtScan {
  startDot : Z;
  startPart : Z;
  end_ : Z;
  matchedSlash : bool;
  preDotState : Z
}.

Definition scan_init : ExtScan :=
  {| startDot := -1; startPart := 0; end_ := -1;
     matchedSlash := true; preDotState := 0 |}.

(** The loop body for a code unit that is not a path separator. *)
Definition scan_char (code : ascii) (i : Z) (st : ExtScan) : ExtScan :=
  let st1 :=
    if end_ st =? -1 then
      (* the first non-separator seen: the end of the extension *)
      {| startDot := startDot st; startPart := startPart st;
         end_ := i + 1; matchedSlash := false;
         preDotState := preDotState st |}
    else st in
  if Ascii.eqb code "." then
    if startDot st1 =? -1 then
      {| startDot := i; startPart := startPart st1; end_ := end_ st1;
         matchedSlash := matchedSlash st1; preDotState := preDotState st1 |}
    else if negb (preDotState st1 =? 1) then
      {| startDot := startDot st1; startPart := startPart st1;
         end_ := end_ st1; matchedSlash := matchedSlash st1;
         preDotState := 1 |}
    else st1
  else if negb (startDot st1 =? -1) then
    {| startDot := startDot st1; startPart := startPart st1;
       end_ := end_ st1; matchedSlash := matchedSlash st1;
       preDotState := -1 |}
  else st1.

(** The backwards loop [for (i = len - 1; i >= 0; --i)]; [rchars] holds
    the code units at indices [i], [i-1], ..., [0]. *)
Fixpoint extname_scan (rchars : list ascii) (i : Z) (st : ExtScan) : ExtScan :=
  match rchars with
  | [] => st
  | code :: rest =>
      if Ascii.eqb code "/" then
        if negb (matchedSlash st) then
          (* a separator that ends the last path component: break *)
          {| startDot := startDot st; startPart := i + 1; end_ := end_ st;
             matchedSlash := matchedSlash st; preDotState := preDotState st |}
        else extname_scan rest (i - 1) st
      else extname_scan rest (i - 1) (scan_char code i st)
  end.

(** [path.extname(p)]. *)
Definition extname (p : string) : string :=
  let chars := list_ascii_of_string p in
  let st := extname_scan (rev chars) (Z.of_nat (List.length chars) - 1) scan_init in
  if ((startDot st =? -1) || (end_ st =? -1) || (preDotState st =? 0)
      || ((preDotState st =? 1) && (startDot st =? end_ st - 1)
          && (startDot st =? startPart st + 1)))%bool
  then EmptyString
  else JS.slice p (Z.to_nat (startDot st)) (Z.to_nat (end_ st)).

End Path.

(** Vocabulary for file names: a character that may occur in the body of
    an extension, and the last character of a name. *)
Definition ext_body_char (c : ascii) : Prop := c <> "."%char /\ c <> "/"%char.

Definition last_char (s : string) : option ascii :=
  last (list_ascii_of_string s).

(* ===================================================================== *)
(** * [modules/utils.js]: file type detection                             *)
(* ===================================================================== *)

Inductive FileType := FT_pdf | FT_document | FT_image | FT_unknown.

Definition document_exts : list string :=
  [".doc"; ".docx"; ".rtf"; ".odt"; ".txt"; ".md"].

Definition image_exts : list string := [".png"; ".jpg"; ".jpeg"].

Definition getFileType (filename : string) : FileType :=
  let ext := JS.toLowerCase (Path.extname filename) in
  if String.eqb ext ".pdf" then FT_pdf
  else if JS.arr_includes document_exts ext then FT_document
  else if JS.arr_includes image_exts ext then FT_image
  else FT_unknown.

(* ===================================================================== *)
(** * [modules/errors.js]                                                 *)
(* ===================================================================== *)

(** The error values that flow through the agent: the custom classes of
    [errors.js] and plain [Error]s raised by the platform. *)
Inductive JsError :=
| PlainError (message : string)
| ConversionError (message : string) (fileType : string)
| PrinterError (message : string) (printerName : option string)
| JobError (message : string) (jobId : string)
| NetworkError (message : string).

Definition message (e : JsError) : string :=
  match e with
  | PlainError m | ConversionError m _ | PrinterError m _
  | JobError m _ | NetworkError m => m
  end.

(** The [code] field set by the [AgentError] constructor chain. *)
Definition code (e : JsError) : option string :=
  match e with
  | PlainError _ => None
  | ConversionError _ _ => Some "CONVERSION_ERROR"
  | PrinterError _ _ => Some "PRINTER_ERROR"
  | JobError _ _ => Some "JOB_ERROR"
  | NetworkError _ => Some "NETWORK_ERROR"
  end.

(** How a promise settles. *)
Inductive Settled (A : Type) :=
| Resolved (a : A)
| Rejected (e : JsError).
Arguments Resolved {A} a.
Arguments Rejected {A} e.

(* ===================================================================== *)
(** * The platform: file system, child processes, the PDF library         *)
(* ===================================================================== *)

(** The scratch file system, as the set of paths that exist. *)
Abbreviation FS := (gset string).

Definition existsSync (p : string) (w : FS) : bool := bool_decide (p ∈ w).
Definition unlinkSync (p : string) (w : FS) : FS := w ∖ {[ p ]}.
Definition writeFile (p : string) (w : FS) : FS := {[ p ]} ∪ w.

(** What a [child_process] callback receives. *)
Record ExecResult := mkExec {
  error : option JsError;
  stdout : string;
  stderr : string
}.

(** External collaborators.  [exec] and [execFile] run a command against
    the file system and report the callback arguments together with the
    file system the command leaves behind; [readFileSync] yields the bytes
    of a file or the error it throws; [pdf_load] stands for
    [PDFDocument.load(bytes)] followed by [getPageCount()];
    [path_join] is [path.join]. *)
Class Platform := {
  exec : string -> FS -> ExecResult * FS;
  execFile : string -> list string -> FS -> ExecResult * FS;
  readFileSync : string -> FS -> JsError + string;
  pdf_load : string -> JsError + Z;
  path_join : string -> string -> string
}.

Definition LF : ascii := ascii_of_nat 10.
Definition DQUOTE : string := String (ascii_of_nat 34) EmptyString.

(* ===================================================================== *)
(** * [modules/utils.js]: conversion and verification                     *)
(* ===================================================================== *)

Section Utils.
Context `{Platform}.

Definition magick_args (inputPath outputPath : string) : list string :=
  [inputPath; "-resize"; "1240x1754>"; "-gravity"; "center";
   "-background"; "white"; "-extent"; "1240x1754";
   "-units"; "PixelsPerInch"; "-density"; "150"; outputPath].

(** The second tier: ImageMagick v6, [convert]. *)
Definition tryMagickV6 (args : list string) (outputPath : string) (w : FS)
  : Settled string * FS :=
  let '(rw, w1) := exec "which convert" w in
  match error rw with
  | Some _ =>
      (Rejected (ConversionError
         "ImageMagick not found. Install with: sudo apt install imagemagick"
         "image"), w1)
  | None =>
      let '(r, w2) := execFile "convert" args w1 in
      match error r with
      | Some e =>
          (Rejected (ConversionError
             ("Image conversion failed: " ++ message e) "image"), w2)
      | None =>
          if negb (existsSync outputPath w2) then
            (Rejected (ConversionError
               "PDF output not created by ImageMagick" "image"), w2)
          else (Resolved outputPath, w2)
      end
  end.

(** The first tier: ImageMagick v7, [magick]. *)
Definition tryMagickV7 (args : list string) (outputPath : string) (w : FS)
  : Settled string * FS :=
  let '(rw, w1) := exec "which magick" w in
  match error rw with
  | Some _ => tryMagickV6 args outputPath w1
  | None =>
      let '(r, w2) := execFile "magick" args w1 in
      match error r with
      | Some _ => tryMagickV6 args outputPath w2
      | None =>
          if negb (existsSync outputPath w2) then
            tryMagickV6 args outputPath w2
          else (Resolved outputPath, w2)
      end
  end.

Definition convertImageToPDF (inputPath : string) (w : FS)
  : Settled string * FS :=
  if negb (existsSync inputPath w) then
    (Rejected (ConversionError "Input image does not exist" "image"), w)
  else
    let ext := JS.toLowerCase (Path.extname inputPath) in
    if negb (JS.arr_includes [".png"; ".jpg"; ".jpeg"] ext) then
      (Rejected (ConversionError
         ("Unsupported image format: " ++ ext) "image"), w)
    else
      let outputPath := JS.replace inputPath ext ".pdf" in
      tryMagickV7 (magick_args inputPath outputPath) outputPath w.



End Utils.

(* ===================================================================== *)
(** * [modules/printer.js]                                                *)
(* ===================================================================== *)

(** The regular expression [/printer\s+(\S+)/] anchored at the start of
    [s]: the captured group, if the expression matches there. *)
Fixpoint non_space_run (s : string) : string :=
  match s with
  | EmptyString => EmptyString
  | String c s' => if JS.is_space c then EmptyString
                   else String c (non_space_run s')
  end.

Definition match_printer_here (s : string) : option string :=
  if JS.startsWith s "printer" then
    match JS.drop 7 s with
    | String c rest =>
        if JS.is_space c then
          match non_space_run (JS.trimStart rest) with
          | EmptyString => None
          | name => Some name
          end
        else None
    | EmptyString => None
    end
  else None.

(** [line.match(/printer\s+(\S+)/)]: the group of the leftmost match. *)
Fixpoint match_printer (line : string) : option string :=
  match match_printer_here line with
  | Some name => Some name
  | None =>
      match line with
      | EmptyString => None
      | String _ line' => match_printer line'
      end
  end.

(** The body of [lines.forEach(...)] in [detectPrinter]; the accumulator
    is [(defaultPrinter, availablePrinters)]. *)
Definition scan_line (acc : option string * list string) (line : string)
  : option string * list string :=
  let '(defaultPrinter, availablePrinters) := acc in
  if JS.startsWith line "system default destination:" then
    (Some (JS.trim (nth 1 (JS.split ":" line) EmptyString)),
     availablePrinters)
  else if JS.startsWith line "printer " then
    match match_printer line with
    | Some name => (defaultPrinter, (availablePrinters ++ [name])%list)
    | None => acc
    end
  else acc.

Inductive HealthStatus := healthy | error_ | unknown.

Record PrinterHealth := mkHealth {
  status : HealthStatus;
  detail : option string
}.

Record PrintResult := mkPrintResult {
  success : bool;
  pr_pages : option Z
}.

Section Printer.
Context `{Platform}.

Definition detectPrinter (printerName : string) (w : FS) : Settled string :=
  if negb (String.eqb printerName "auto") then Resolved printerName
  else
    let '(r, _) := exec "lpstat -p -d" w in
    match error r with
    | Some _ => Rejected (PrinterError "No printers available" None)
    | None =>
        let lines := JS.split LF (stdout r) in
        let '(defaultPrinter, availablePrinters) :=
          fold_left scan_line lines (None, []) in
        if JS.truthy_opt defaultPrinter then
          match defaultPrinter with
          | Some d => Resolved d
          | None => Rejected (PrinterError "No printers found" None)
          end
        else
          match availablePrinters with
          | firstPrinter :: _ => Resolved firstPrinter
          | [] => Rejected (PrinterError "No printers found" None)
          end
    end.

(** The ordered rules applied to the lower-cased status text. *)
Definition classify_status (output : string) : PrinterHealth :=
  if (JS.includes output "out of paper" || JS.includes output "media empty"
      || JS.includes output "no media")%bool then
    mkHealth error_ (Some "media-empty")
  else if (JS.includes output "out of ink" || JS.includes output "toner empty"
           || JS.includes output "ink empty")%bool then
    mkHealth error_ (Some "toner-empty")
  else if (JS.includes output "cover open"
           || JS.includes output "door open")%bool then
    mkHealth error_ (Some "cover-open")
  else if (JS.includes output "stopped"
           && negb (JS.includes output "idle"))%bool then
    mkHealth error_ (Some "stopped")
  else if (JS.includes output "not connected"
           || JS.includes output "offline")%bool then
    mkHealth error_ (Some "offline")
  else if (JS.includes output "idle"
           || JS.includes output "processing")%bool then
    mkHealth healthy None
  else mkHealth unknown (Some "ipp_unsupported").

Definition checkPrinterStatus (printerName : option string) (w : FS)
  : Settled PrinterHealth :=
  match printerName with
  | None | Some EmptyString =>
      Resolved (mkHealth unknown (Some "no_printer_configured"))
  | Some name =>
      let '(r, _) := exec ("lpstat -p " ++ name ++ " 2>&1") w in
      if (bool_decide (is_Some (error r)) && negb (JS.truthy (stdout r)))%bool
      then Resolved (mkHealth unknown (Some "cups_unavailable"))
      else Resolved (classify_status (JS.toLowerCase (stdout r)))
  end.

(** [stderr || error.message]. *)
Definition stderr_or_message (r : ExecResult) (e : JsError) : string :=
  if JS.truthy (stderr r) then stderr r else message e.

(** [printerName] is interpolated into the command line; [null] prints as
    the text [null]. *)
Definition printDocument (printerName : option string) (filePath : string)
  (pages : option Z) (w : FS) : Settled PrintResult * FS :=
  let cmd := "lp -d " ++ default "null" printerName
             ++ " " ++ DQUOTE ++ filePath ++ DQUOTE in
  let '(r, w') := exec cmd w in
  match error r with
  | Some e =>
      (Rejected (PrinterError
         ("Print command failed: " ++ stderr_or_message r e) printerName), w')
  | None => (Resolved (mkPrintResult true pages), w')
  end.

End Printer.

(* ===================================================================== *)
(** * [Map]: insertion-ordered, keyed by strings                          *)
(* ===================================================================== *)

Module JSMap.
Section WithValue.
Context {V : Type}.

Fixpoint get (k : string) (m : list (string * V)) : option V :=
  match m with
  | [] => None
  | (k', v) :: m' => if String.eqb k k' then Some v else get k m'
  end.

(** [m.set(k, v)]: an existing key keeps its position, a new key goes to
    the end. *)
Fixpoint set (k : string) (v : V) (m : list (string * V))
  : list (string * V) :=
  match m with
  | [] => [(k, v)]
  | (k', v') :: m' =>
      if String.eqb k k' then (k', v) :: m' else (k', v') :: set k v m'
  end.

Fixpoint delete (k : string) (m : list (string * V)) : list (string * V) :=
  match m with
  | [] => []
  | (k', v') :: m' =>
      if String.eqb k k' then m' else (k', v') :: delete k m'
  end.

Definition keys (m : list (string * V)) : list string := map fst m.

Definition size (m : list (string * V)) : nat := List.length m.

(** [m.keys().next().value]. *)
Definition first_key (m : list (string * V)) : option string :=
  head (keys m).

Definition has (k : string) (m : list (string * V)) : bool :=
  match get k m with Some _ => true | None => false end.

End WithValue.
End JSMap.

(* ===================================================================== *)
(** * [modules/job-handler.js]                                            *)
(* ===================================================================== *)

Record Job := mkJob {
  job_id : string;
  filename : string;
  pages : option Z;
  file_data : string
}.

(** What [socket.emit] sends upstream. *)
Inductive Event :=
| job_received (id : string)
| print_started (id : string)
| print_complete_ok (id : string) (pages_printed : option Z)
| print_complete_failed (id : string) (error_message : string).

(** A pending [setTimeout] of the completion cleanup. *)
Record Timer := mkTimer {
  due : Z;
  cleanup_final : string;
  cleanup_original : string
}.

(** The promise a suspended [processJob] is awaiting. *)
Inductive Awaited :=
| AwConvertDocument | AwConvertImage | AwVerifyPDF | AwPrintDocument.

Record JobTask := mkJobTask {
  jt_id : string;
  jt_job : Job;
  jt_original : string;
  jt_final : string;
  jt_await : Awaited
}.

(** Suspended asynchronous activations: a [pollForJobs] awaiting its HTTP
    response, or a [processJob] awaiting a pipeline stage. *)
Inductive Task :=
| T_poll
| T_job (t : JobTask).

(** The agent: the shared [state] object, the socket, the scratch
    directory, the timers and the suspended activations.  The two
    [hist_] fields are ghost history (never read by the code): the order
    in which keys entered the pending map, and the order in which jobs
    became the current job. *)
Record Sys := mkSys {
  currentJob : option string;
  printerName : option string;
  pendingJobs : list (string * Job);
  pollCount : Z;
  jobsFetchedToday : Z;
  conversionsToday : Z;
  lastPollTime : option Z;
  connected : bool;
  emitted : list Event;
  fs : FS;
  timers : list Timer;
  now : Z;
  tasks : list Task;
  hist_enqueued : list string;
  hist_started : list string
}.

Definition init_sys : Sys :=
  {| currentJob := None; printerName := None; pendingJobs := [];
     pollCount := 0; jobsFetchedToday := 0; conversionsToday := 0;
     lastPollTime := None; connected := false; emitted := []; fs := ∅;
     timers := []; now := 0; tasks := [];
     hist_enqueued := []; hist_started := [] |}.

Definition with_currentJob (v : option string) (s : Sys) : Sys :=
  mkSys v (printerName s) (pendingJobs s) (pollCount s) (jobsFetchedToday s)
    (conversionsToday s) (lastPollTime s) (connected s) (emitted s) (fs s)
    (timers s) (now s) (tasks s) (hist_enqueued s) (hist_started s).

Definition with_printerName (v : option string) (s : Sys) : Sys :=
  mkSys (currentJob s) v (pendingJobs s) (pollCount s) (jobsFetchedToday s)
    (conversionsToday s) (lastPollTime s) (connected s) (emitted s) (fs s)
    (timers s) (now s) (tasks s) (hist_enqueued s) (hist_started s).

Definition with_pendingJobs (v : list (string * Job)) (s : Sys) : Sys :=
  mkSys (currentJob s) (printerName s) v (pollCount s) (jobsFetchedToday s)
    (conversionsToday s) (lastPollTime s) (connected s) (emitted s) (fs s)
    (timers s) (now s) (tasks s) (hist_enqueued s) (hist_started s).

Definition with_poll (count : Z) (time : option Z) (s : Sys) : Sys :=
  mkSys (currentJob s) (printerName s) (pendingJobs s) count
    (jobsFetchedToday s) (conversionsToday s) time (connected s) (emitted s)
    (fs s) (timers s) (now s) (tasks s) (hist_enqueued s) (hist_started s).

Definition with_jobsFetchedToday (v : Z) (s : Sys) : Sys :=
  mkSys (currentJob s) (printerName s) (pendingJobs s) (pollCount s) v
    (conversionsToday s) (lastPollTime s) (connected s) (emitted s) (fs s)
    (timers s) (now s) (tasks s) (hist_enqueued s) (hist_started s).

Definition with_conversionsToday (v : Z) (s : Sys) : Sys :=
  mkSys (currentJob s) (printerName s) (pendingJobs s) (pollCount s)
    (jobsFetchedToday s) v (lastPollTime s) (connected s) (emitted s) (fs s)
    (timers s) (now s) (tasks s) (hist_enqueued s) (hist_started s).

Definition with_connected (v : bool) (s : Sys) : Sys :=
  mkSys (currentJob s) (printerName s) (pendingJobs s) (pollCount s)
    (jobsFetchedToday s) (conversionsToday s) (lastPollTime s) v (emitted s)
    (fs s) (timers s) (now s) (tasks s) (hist_enqueued s) (hist_started s).

Definition with_emitted (v : list Event) (s : Sys) : Sys :=
  mkSys (currentJob s) (printerName s) (pendingJobs s) (pollCount s)
    (jobsFetchedToday s) (conversionsToday s) (lastPollTime s) (connected s)
    v (fs s) (timers s) (now s) (tasks s) (hist_enqueued s) (hist_started s).

Definition with_fs (v : FS) (s : Sys) : Sys :=
  mkSys (currentJob s) (printerName s) (pendingJobs s) (pollCount s)
    (jobsFetchedToday s) (conversionsToday s) (lastPollTime s) (connected s)
    (emitted s) v (timers s) (now s) (tasks s) (hist_enqueued s)
    (hist_started s).

Definition with_timers (v : list Timer) (s : Sys) : Sys :=
  mkSys (currentJob s) (printerName s) (pendingJobs s) (pollCount s)
    (jobsFetchedToday s) (conversionsToday s) (lastPollTime s) (connected s)
    (emitted s) (fs s) v (now s) (tasks s) (hist_enqueued s) (hist_started s).

Definition with_now (v : Z) (s : Sys) : Sys :=
  mkSys (currentJob s) (printerName s) (pendingJobs s) (pollCount s)
    (jobsFetchedToday s) (conversionsToday s) (lastPollTime s) (connected s)
    (emitted s) (fs s) (timers s) v (tasks s) (hist_enqueued s)
    (hist_started s).

Definition with_tasks (v : list Task) (s : Sys) : Sys :=
  mkSys (currentJob s) (printerName s) (pendingJobs s) (pollCount s)
    (jobsFetchedToday s) (conversionsToday s) (lastPollTime s) (connected s)
    (emitted s) (fs s) (timers s) (now s) v (hist_enqueued s) (hist_started s).

Definition with_hist_enqueued (v : list string) (s : Sys) : Sys :=
  mkSys (currentJob s) (printerName s) (pendingJobs s) (pollCount s)
    (jobsFetchedToday s) (conversionsToday s) (lastPollTime s) (connected s)
    (emitted s) (fs s) (timers s) (now s) (tasks s) v (hist_started s).

Definition with_hist_started (v : list string) (s : Sys) : Sys :=
  mkSys (currentJob s) (printerName s) (pendingJobs s) (pollCount s)
    (jobsFetchedToday s) (conversionsToday s) (lastPollTime s) (connected s)
    (emitted s) (fs s) (timers s) (now s) (tasks s) (hist_enqueued s) v.

(** [if (socket.connected) socket.emit(...)]. *)
Definition emit_if_connected (ev : Event) (s : Sys) : Sys :=
  if connected s then with_emitted (emitted s ++ [ev])%list s else s.

(** How a stretch of the [try] block ends: at the next [await], by
    falling off its end, or by throwing. *)
Inductive Flow :=
| Suspend (t : JobTask)
| Return
| Throw (e : JsError).

(** Whether [fs.writeFileSync] throws for a given path (missing scratch
    directory, a name that is a directory, a full disk, ...). *)
Definition IO := string -> option JsError.

(** What an awaited pipeline promise resolves to. *)
Inductive Value :=
| VPath (p : string)
| VPages (n : Z)
| VPrint (r : PrintResult).

Inductive PollResult :=
| PollRejected (e : JsError)
| PollJobs (jobs : list Job).

Definition tempDir : string := "./print-queue".
Definition cleanup_delay : Z := 5000.

Section JobHandler.
Context `{Platform}.

(** [processJob], from the top of the [try] block to its first [await]
    (lines "Decode base64 file data" to the conversion / verification
    call). *)
Definition try_begin (io : IO) (jobId : string) (job : Job) (s : Sys)
  : Sys * Flow :=
  let originalPath := path_join tempDir (jobId ++ "_" ++ filename job) in
  match io originalPath with
  | Some e => (s, Throw e)
  | None =>
      let s1 := with_fs (writeFile originalPath (fs s)) s in
      let s2 := emit_if_connected (job_received jobId) s1 in
      match getFileType (filename job) with
      | FT_document =>
          (with_conversionsToday (conversionsToday s2 + 1) s2,
           Suspend (mkJobTask jobId job originalPath originalPath
                      AwConvertDocument))
      | FT_image =>
          (with_conversionsToday (conversionsToday s2 + 1) s2,
           Suspend (mkJobTask jobId job originalPath originalPath
                      AwConvertImage))
      | FT_pdf =>
          (s2, Suspend (mkJobTask jobId job originalPath originalPath
                          AwVerifyPDF))
      | FT_unknown =>
          (s2, Throw (JobError "Unsupported file type: unknown" jobId))
      end
  end.

(** After the conversion or the verification: announce the print and
    call [printDocument]. *)
Definition try_print (t : JobTask) (finalPdfPath : string) (s : Sys)
  : Sys * Flow :=
  (emit_if_connected (print_started (jt_id t)) s,
   Suspend (mkJobTask (jt_id t) (jt_job t) (jt_original t) finalPdfPath
              AwPrintDocument)).

(** After [printDocument]: report success and schedule the cleanup. *)
Definition try_complete (t : JobTask) (printResult : PrintResult) (s : Sys)
  : Sys * Flow :=
  let s1 := emit_if_connected
              (print_complete_ok (jt_id t) (pr_pages printResult)) s in
  (with_timers
     (timers s1 ++ [mkTimer (now s1 + cleanup_delay) (jt_final t)
                      (jt_original t)])%list s1,
   Return).

(** The [try] block resumed at an [await] that has settled.  [None] when
    the value is not one the awaited function produces. *)
Definition try_resume (t : JobTask) (r : Settled Value) (s : Sys)
  : option (Sys * Flow) :=
  match r with
  | Rejected e => Some (s, Throw e)
  | Resolved v =>
      match jt_await t, v with
      | AwConvertDocument, VPath p => Some (try_print t p s)
      | AwConvertImage, VPath p => Some (try_print t p s)
      | AwVerifyPDF, VPages _ => Some (try_print t (jt_final t) s)
      | AwPrintDocument, VPrint pr => Some (try_complete t pr s)
      | _, _ => None
      end
  end.

(** The [catch] block. *)
Definition catch_block (jobId : string) (e : JsError) (s : Sys) : Sys :=
  emit_if_connected (print_complete_failed jobId (message e)) s.

(** The [finally] block; [next_call] is the recursive [processJob]. *)
Definition finally_block (next_call : string -> Sys -> option Sys)
  (jobId : string) (s : Sys) : option Sys :=
  let s1 := with_currentJob None s in
  let s2 := with_pendingJobs (JSMap.delete jobId (pendingJobs s1)) s1 in
  if (0 <? JSMap.size (pendingJobs s2))%nat then
    match JSMap.first_key (pendingJobs s2) with
    | Some nextJobId => next_call nextJobId s2
    | None => Some s2
    end
  else Some s2.

(** The end of an activation whose [try] block has finished. *)
Definition settle (next_call : string -> Sys -> option Sys)
  (jobId : string) (fl : Flow) (s : Sys) : option Sys :=
  match fl with
  | Suspend t => Some (with_tasks (tasks s ++ [T_job t])%list s)
  | Return => finally_block next_call jobId s
  | Throw e => finally_block next_call jobId (catch_block jobId e s)
  end.

(** [processJob(jobId, ...)] run until it suspends; the chain of
    recursive calls made from [finally] is bounded by [fuel]. *)
Fixpoint processJob_fuel (fuel : nat) (io : IO) (jobId : string) (s : Sys)
  : option Sys :=
  match fuel with
  | O => None
  | S fuel' =>
      match JSMap.get jobId (pendingJobs s) with
      | None => Some s
      | Some job =>
          let s1 := with_hist_started (hist_started s ++ [jobId])%list
                      (with_currentJob (Some jobId) s) in
          let '(s2, fl) := try_begin io jobId job s1 in
          settle (processJob_fuel fuel' io) jobId fl s2
      end
  end.

Definition processJob (io : IO) (jobId : string) (s : Sys) : option Sys :=
  processJob_fuel (S (JSMap.size (pendingJobs s))) io jobId s.

(** [state.pendingJobs.set(job.job_id, job)]. *)
Definition enqueue (s : Sys) (job : Job) : Sys :=
  let fresh := negb (JSMap.has (job_id job) (pendingJobs s)) in
  let s1 := with_pendingJobs (JSMap.set (job_id job) job (pendingJobs s)) s in
  if fresh then with_hist_enqueued (hist_enqueued s1 ++ [job_id job])%list s1
  else s1.

(** [pollForJobs] up to [await axios.get(...)]. *)
Definition poll_begin (s : Sys) : Sys :=
  if negb (connected s) then s
  else if JS.truthy_opt (currentJob s) then s
  else
    let s1 := with_poll (pollCount s + 1) (Some (now s)) s in
    with_tasks (tasks s1 ++ [T_poll])%list s1.

(** [pollForJobs] after the response. *)
Definition poll_resume (io : IO) (r : PollResult) (s : Sys) : option Sys :=
  match r with
  | PollRejected _ => Some s
  | PollJobs [] => Some s
  | PollJobs jobs =>
      let s1 := with_jobsFetchedToday
                  (jobsFetchedToday s + Z.of_nat (List.length jobs)) s in
      let s2 := fold_left enqueue jobs s1 in
      if (negb (JS.truthy_opt (currentJob s2))
          && (0 <? JSMap.size (pendingJobs s2))%nat)%bool then
        match JSMap.first_key (pendingJobs s2) with
        | Some firstJobId => processJob io firstJobId s2
        | None => Some s2
        end
      else Some s2
  end.

(** The cleanup callback handed to [setTimeout]. *)
Definition run_cleanup (t : Timer) (w : FS) : FS :=
  let w1 := if existsSync (cleanup_final t) w
            then unlinkSync (cleanup_final t) w else w in
  if (negb (String.eqb (cleanup_original t) (cleanup_final t))
      && existsSync (cleanup_original t) w1)%bool
  then unlinkSync (cleanup_original t) w1 else w1.

(** What can happen next. *)
Inductive Label :=
| L_tick
| L_poll_response (n : nat) (r : PollResult) (io : IO)
| L_settle (n : nat) (r : Settled Value) (io : IO)
| L_socket (b : bool)
| L_printer (name : option string)
| L_advance (dt : Z)
| L_timer (n : nat)
| L_env (w : FS).

(** One turn of the event loop; [None] when the event cannot occur in
    this state. *)
Definition step (s : Sys) (l : Label) : option Sys :=
  match l with
  | L_tick => Some (poll_begin s)
  | L_poll_response n r io =>
      match tasks s !! n with
      | Some T_poll => poll_resume io r (with_tasks (delete n (tasks s)) s)
      | _ => None
      end
  | L_settle n r io =>
      match tasks s !! n with
      | Some (T_job t) =>
          let s0 := with_tasks (delete n (tasks s)) s in
          match try_resume t r s0 with
          | Some (s1, fl) => settle (processJob io) (jt_id t) fl s1
          | None => None
          end
      | _ => None
      end
  | L_socket b => Some (with_connected b s)
  | L_printer name => Some (with_printerName name s)
  | L_advance dt => if 0 <=? dt then Some (with_now (now s + dt) s) else None
  | L_timer n =>
      match timers s !! n with
      | Some t =>
          if due t <=? now s then
            Some (with_fs (run_cleanup t (fs s))
                    (with_timers (delete n (timers s)) s))
          else None
      | None => None
      end
  | L_env w => Some (with_fs w s)
  end.

Fixpoint run (s : Sys) (ls : list Label) : option Sys :=
  match ls with
  | [] => Some s
  | l :: ls' =>
      match step s l with
      | Some s' => run s' ls'
      | None => None
      end
  end.

(** The jobs that are mid-pipeline. *)
Fixpoint job_tasks (ts : list Task) : list JobTask :=
  match ts with
  | [] => []
  | T_poll :: ts' => job_tasks ts'
  | T_job t :: ts' => t :: job_tasks ts'
  end.

End JobHandler.

(* ===================================================================== *)
(** * Vocabulary of the design document                                   *)
(* ===================================================================== *)

(** The health classification as the design document words it: an
    ordered list of (pattern, classification) rules, evaluated top to
    bottom, fault rules before healthy rules. *)
Definition any_of (phrases : list string) (output : string) : bool :=
  existsb (JS.includes output) phrases.

Definition fault_rules : list ((string -> bool) * PrinterHealth) :=
  [ (any_of ["out of paper"; "media empty"; "no media"],
     mkHealth error_ (Some "media-empty"));
    (any_of ["out of ink"; "toner empty"; "ink empty"],
     mkHealth error_ (Some "toner-empty"));
    (any_of ["cover open"; "door open"],
     mkHealth error_ (Some "cover-open"));
    (fun output => (JS.includes output "stopped"
                    && negb (JS.includes output "idle"))%bool,
     mkHealth error_ (Some "stopped"));
    (any_of ["not connected"; "offline"],
     mkHealth error_ (Some "offline")) ].

Definition healthy_rules : list ((string -> bool) * PrinterHealth) :=
  [ (any_of ["idle"; "processing"], mkHealth healthy None) ].

Definition ipp_unsupported : PrinterHealth :=
  mkHealth unknown (Some "ipp_unsupported").

Fixpoint first_rule (rules : list ((string -> bool) * PrinterHealth))
  (output : string) (otherwise : PrinterHealth) : PrinterHealth :=
  match rules with
  | [] => otherwise
  | (pattern, h) :: rules' =>
      if pattern output then h else first_rule rules' output otherwise
  end.

Definition matches_any (rules : list ((string -> bool) * PrinterHealth))
  (output : string) : bool :=
  existsb (fun rule => fst rule output) rules.

(* ===================================================================== *)
(** * A scriptable platform, for running the model on concrete inputs     *)
(* ===================================================================== *)

Definition enoent (p : string) : JsError :=
  PlainError ("ENOENT: no such file or directory, open '" ++ p ++ "'").

(** A platform given by the behaviour of the shell, of the programs run
    with [execFile] and of the PDF parser; a file's bytes are identified
    with its path and [path.join] is taken on already normal segments. *)
Definition scripted (sh : string -> FS -> ExecResult * FS)
  (run : string -> list string -> FS -> ExecResult * FS)
  (pdf : string -> JsError + Z) : Platform :=
  {| exec := sh;
     execFile := run;
     readFileSync := fun p w => if existsSync p w then inr p else inl (enoent p);
     pdf_load := pdf;
     path_join := fun a b => JS.drop 2 a ++ "/" ++ b |}.

Definition exec_ok (out : string) (w : FS) : ExecResult * FS :=
  (mkExec None out EmptyString, w).

Definition exec_fail (msg out : string) (w : FS) : ExecResult * FS :=
  (mkExec (Some (PlainError msg)) out EmptyString, w).

Definition lines (ls : list string) : string :=
  String.concat (String LF EmptyString) ls.

(** A machine whose every shell command prints [out], and one whose every
    shell command fails without output. *)
Definition spooler_says (out : string) : Platform :=
  scripted (fun _ => exec_ok out) (fun _ _ => exec_ok EmptyString)
    (fun _ => inr 1).

Definition spooler_down : Platform :=
  scripted (fun cmd => exec_fail ("Command failed: " ++ cmd) EmptyString)
    (fun _ _ => exec_ok EmptyString) (fun _ => inr 1).

(** One candidate backend of the image conversion, as the design
    document words it: look the tool up, run it, trust only the output
    file. *)
Inductive TierResult :=
| TierOk
| TierMissing
| TierFailed (e : JsError)
| TierNoOutput.

Definition attempt `{Platform} (tool : string) (args : list string)
  (outputPath : string) (w : FS) : TierResult * FS :=
  let '(rw, w1) := exec ("which " ++ tool) w in
  match error rw with
  | Some _ => (TierMissing, w1)
  | None =>
      let '(r, w2) := execFile tool args w1 in
      match error r with
      | Some e => (TierFailed e, w2)
      | None =>
          if existsSync outputPath w2 then (TierOk, w2)
          else (TierNoOutput, w2)
      end
  end.

(** The error the last tier leaves behind. *)
Definition last_tier_error (t : TierResult) : JsError :=
  match t with
  | TierMissing =>
      ConversionError
        "ImageMagick not found. Install with: sudo apt install imagemagick"
        "image"
  | TierFailed e =>
      ConversionError ("Image conversion failed: " ++ message e) "image"
  | _ => ConversionError "PDF output not created by ImageMagick" "image"
  end.

(** A tool that writes the file named by its last argument. *)
Definition writes_output (args : list string) (w : FS) : ExecResult * FS :=
  (mkExec None EmptyString EmptyString,
   writeFile (List.last args EmptyString) w).

(** A machine with ImageMagick 7 only ([magick]), one with ImageMagick 6
    only ([convert]), and one with neither. *)
Definition which_only (tool : string) (cmd : string) (w : FS)
  : ExecResult * FS :=
  if String.eqb cmd ("which " ++ tool) then exec_ok ("/usr/bin/" ++ tool) w
  else exec_fail ("Command failed: " ++ cmd) EmptyString w.

Definition machine_with (tool : string) : Platform :=
  scripted (which_only tool) (fun _ => writes_output) (fun _ => inr 1).

Definition machine_without_tools : Platform :=
  scripted (fun cmd => exec_fail ("Command failed: " ++ cmd) EmptyString)
    (fun _ => writes_output) (fun _ => inr 1).

(** The lines of [lpstat -p -d]: a destination name is a non-empty word
    without white space or colon. *)
Definition name_char (c : ascii) : Prop :=
  JS.is_space c = false /\ c <> ":"%char.

Definition dest_name (s : string) : Prop :=
  s <> EmptyString /\ Forall name_char (list_ascii_of_string s).

Definition default_line (d : string) : string :=
  "system default destination: " ++ d.

Definition printer_line (name rest : string) : string :=
  "printer " ++ name ++ " " ++ rest.

Definition is_default_line (l : string) : bool :=
  JS.startsWith l "system default destination:".

Definition is_printer_line (l : string) : bool :=
  JS.startsWith l "printer ".

Definition one_line (l : string) : Prop :=
  Forall (fun c => c <> LF) (list_ascii_of_string l).

(* ===================================================================== *)
(** * Serialization of the pipeline, stated                               *)
(* ===================================================================== *)

(** Job ids that pass the truthiness tests of the code. *)
Definition truthy_ids (jobs : list Job) : Prop :=
  Forall (fun j => JS.truthy (job_id j) = true) jobs.

Definition label_ok (l : Label) : Prop :=
  match l with
  | L_poll_response _ (PollJobs jobs) _ => truthy_ids jobs
  | _ => True
  end.

(** At most one job is mid-pipeline; it is the current job and the
    oldest pending one; with no job mid-pipeline nothing is pending.  The
    history relates the two orders: [finished] are the jobs that have left
    the pipeline. *)
Definition serialized (s : Sys) : Prop :=
  exists finished : list string,
    hist_enqueued s = (finished ++ JSMap.keys (pendingJobs s))%list /\
    Forall (fun k => JS.truthy k = true) (JSMap.keys (pendingJobs s)) /\
    match job_tasks (tasks s) with
    | [] =>
        currentJob s = None /\ pendingJobs s = [] /\
        hist_started s = finished
    | [t] =>
        currentJob s = Some (jt_id t) /\
        JSMap.first_key (pendingJobs s) = Some (jt_id t) /\
        hist_started s = (finished ++ [jt_id t])%list
    | _ => False
    end.

(** What a stretch of the [try] block leaves alone. *)
Definition same_control (s s' : Sys) : Prop :=
  currentJob s' = currentJob s /\ pendingJobs s' = pendingJobs s /\
  tasks s' = tasks s /\ hist_enqueued s' = hist_enqueued s /\
  hist_started s' = hist_started s /\ connected s' = connected s /\
  now s' = now s /\ printerName s' = printerName s.

(** What running the job processor can do to the rest of the agent: it
    only adds files, events and history, and never touches the clock, the
    socket or the timers. *)
Definition extends (s s' : Sys) : Prop :=
  now s' = now s /\ connected s' = connected s /\ fs s ⊆ fs s' /\
  (exists evs, emitted s' = (emitted s ++ evs)%list) /\
  (exists hs, hist_started s' = (hist_started s ++ hs)%list).

(** Sample jobs and a scratch directory that accepts every write. *)
Definition io_ok : IO := fun _ => None.

Definition sample_job (id name : string) : Job :=
  mkJob id name (Some 1) "JVBERi0xLjQK".

Definition laptop : Platform :=
  scripted (fun _ => exec_ok EmptyString) (fun _ => writes_output)
    (fun _ => inr 1).


(** The failure event of a job, when the socket is connected. *)
Definition failure_event (connected_now : bool) (jobId : string)
  (e : JsError) : list Event :=
  if connected_now then [print_complete_failed jobId (message e)] else [].

(** The agent of the scenarios: connected, with three jobs delivered by
    one poll; the first one, a document, is being converted. *)
Definition three_jobs : list Job :=
  [sample_job "j2" "notes.docx"; sample_job "j3" "photo.gif";
   sample_job "j1" "report.pdf"].

Definition busy_agent : Sys :=
  default init_sys
    (@run laptop init_sys
       [L_socket true; L_tick; L_poll_response 0 (PollJobs three_jobs) io_ok]).

Definition converting_j2 : JobTask :=
  mkJobTask "j2" (sample_job "j2" "notes.docx") "print-queue/j2_notes.docx"
    "print-queue/j2_notes.docx" AwConvertDocument.

Definition libreoffice_failed : JsError :=
  ConversionError "LibreOffice conversion failed: soffice: not found"
    "document".

(** What an observer of the agent sees. *)
Definition observe (s : Sys)
  : option string * list string * list string * list Event * list Timer :=
  (currentJob s, JSMap.keys (pendingJobs s),
   map jt_id (job_tasks (tasks s)), emitted s, timers s).

(** A PDF job on its way through the pipeline, and the job of an
    unsupported type. *)
Definition gif_job : Job := sample_job "j3" "photo.gif".

Definition pdf_job : Job := sample_job "j1" "report.pdf".

Definition printed (pages_printed : option Z) : Settled Value :=
  Resolved (VPrint (mkPrintResult true pages_printed)).





(** Two polls; the first delivers a job whose id is the empty string. *)
Definition unnamed_job : Job := sample_job EmptyString "a.pdf".

Definition second_job : Job := sample_job "j2" "b.pdf".

Definition overlapping_polls : list Label :=
  [L_socket true;
   L_tick; L_poll_response 0 (PollJobs [unnamed_job]) io_ok;
   L_tick; L_poll_response 1 (PollJobs [second_job]) io_ok].
(* ===================================================================== *)
(** * [path.dirname] and [path.basename] (POSIX flavour)                  *)
(* ===================================================================== *)

Module Posix.

(** The backwards loop of [dirname], [for (i = len - 1; i >= 1; --i)]:
    the value of [end] when the loop is left, [-1] when no separator that
    closes a directory part was met.  [rchars] holds the code units at
    the indices [i], [i-1], ..., [1]. *)
Fixpoint dirname_scan (rchars : list ascii) (i : Z) (matchedSlash : bool)
  : Z :=
  match rchars with
  | [] => -1
  | code :: rest =>
      if Ascii.eqb code "/" then
        if negb matchedSlash then i
        else dirname_scan rest (i - 1) matchedSlash
      else dirname_scan rest (i - 1) false
  end.

(** [path.dirname(p)]. *)
Definition dirname (p : string) : string :=
  match p with
  | EmptyString => "."
  | String c0 rest =>
      let hasRoot := Ascii.eqb c0 "/" in
      let end_ := dirname_scan (rev (list_ascii_of_string rest))
                    (Z.of_nat (String.length p) - 1) true in
      if end_ =? -1 then (if hasRoot then "/" else ".")
      else if (hasRoot && (end_ =? 1))%bool then "//"
      else JS.slice p 0 (Z.to_nat end_)
  end.

(** The scanner state of [basename] with a suffix. *)
Record BaseScan := mkBaseScan {
  b_start : Z;
  b_end : Z;
  b_matchedSlash : bool;
  extIdx : Z;
  firstNonSlashEnd : Z
}.

Definition base_init (suffix : string) : BaseScan :=
  {| b_start := 0; b_end := -1; b_matchedSlash := true;
     extIdx := Z.of_nat (String.length suffix) - 1;
     firstNonSlashEnd := -1 |}.

(** [code === suffix.charCodeAt(idx)]. *)
Definition code_at (suffix : string) (idx : Z) (code : ascii) : bool :=
  match String.get (Z.to_nat idx) suffix with
  | Some c => Ascii.eqb code c
  | None => false
  end.

(** The loop body for a code unit that is not a path separator. *)
Definition base_char (suffix : string) (code : ascii) (i : Z)
  (st : BaseScan) : BaseScan :=
  let st1 :=
    if firstNonSlashEnd st =? -1 then
      (* the first non-separator seen: remembered in case the suffix
         does not match *)
      {| b_start := b_start st; b_end := b_end st; b_matchedSlash := false;
         extIdx := extIdx st; firstNonSlashEnd := i + 1 |}
    else st in
  if 0 <=? extIdx st1 then
    if code_at suffix (extIdx st1) code then
      if extIdx st1 - 1 =? -1 then
        (* the suffix is matched: the component ends here *)
        {| b_start := b_start st1; b_end := i;
           b_matchedSlash := b_matchedSlash st1;
           extIdx := extIdx st1 - 1;
           firstNonSlashEnd := firstNonSlashEnd st1 |}
      else
        {| b_start := b_start st1; b_end := b_end st1;
           b_matchedSlash := b_matchedSlash st1;
           extIdx := extIdx st1 - 1;
           firstNonSlashEnd := firstNonSlashEnd st1 |}
    else
      (* no match: the result is the whole component *)
      {| b_start := b_start st1; b_end := firstNonSlashEnd st1;
         b_matchedSlash := b_matchedSlash st1;
         extIdx := -1;
         firstNonSlashEnd := firstNonSlashEnd st1 |}
  else st1.

(** The backwards loop [for (i = len - 1; i >= 0; --i)] of [basename]
    with a suffix. *)
Fixpoint basename_scan (suffix : string) (rchars : list ascii) (i : Z)
  (st : BaseScan) : BaseScan :=
  match rchars with
  | [] => st
  | code :: rest =>
      if Ascii.eqb code "/" then
        if negb (b_matchedSlash st) then
          (* a separator that ends the last component: break *)
          {| b_start := i + 1; b_end := b_end st;
             b_matchedSlash := b_matchedSlash st; extIdx := extIdx st;
             firstNonSlashEnd := firstNonSlashEnd st |}
        else basename_scan suffix rest (i - 1) st
      else basename_scan suffix rest (i - 1) (base_char suffix code i st)
  end.

(** The loop of [basename] without a usable suffix; it yields
    [(start, end)]. *)
Fixpoint basename_plain_scan (rchars : list ascii) (i : Z) (end_ : Z)
  (matchedSlash : bool) : Z * Z :=
  match rchars with
  | [] => (0, end_)
  | code :: rest =>
      if Ascii.eqb code "/" then
        if negb matchedSlash then (i + 1, end_)
        else basename_plain_scan rest (i - 1) end_ matchedSlash
      else if end_ =? -1 then basename_plain_scan rest (i - 1) (i + 1) false
      else basename_plain_scan rest (i - 1) end_ matchedSlash
  end.

(** [path.basename(path, suffix)]. *)
Definition basename (path suffix : string) : string :=
  let chars := list_ascii_of_string path in
  let len := Z.of_nat (List.length chars) in
  if ((0 <? String.length suffix)%nat
      && (String.length suffix <=? String.length path)%nat)%bool then
    if String.eqb suffix path then EmptyString
    else
      let st := basename_scan suffix (rev chars) (len - 1)
                  (base_init suffix) in
      let end_ :=
        if b_start st =? b_end st then firstNonSlashEnd st
        else if b_end st =? -1 then len
        else b_end st in
      JS.slice path (Z.to_nat (b_start st)) (Z.to_nat end_)
  else
    let '(start, end_) := basename_plain_scan (rev chars) (len - 1) (-1) true in
    if end_ =? -1 then EmptyString
    else JS.slice path (Z.to_nat start) (Z.to_nat end_).

End Posix.

(* ===================================================================== *)
(** * [modules/utils.js]: document conversion                             *)
(* ===================================================================== *)

Section Documents.
Context `{Platform}.

(** The command line handed to the shell. *)
Definition libreoffice_cmd (outputDir inputPath : string) : string :=
  "libreoffice --headless --convert-to pdf --outdir " ++ DQUOTE ++ outputDir
  ++ DQUOTE ++ " " ++ DQUOTE ++ inputPath ++ DQUOTE.

Definition convertDocumentToPDF (inputPath : string) (w : FS)
  : Settled string * FS :=
  let outputDir := Posix.dirname inputPath in
  let baseName := Posix.basename inputPath (Path.extname inputPath) in
  let outputPath := path_join outputDir (baseName ++ ".pdf") in
  let cmd := libreoffice_cmd outputDir inputPath in
  let '(r, w') := exec cmd w in
  match error r with
  | Some e =>
      (Rejected (ConversionError
         ("LibreOffice conversion failed: "
          ++ (if JS.truthy (stderr r) then stderr r else message e))
         "document"), w')
  | None =>
      if existsSync outputPath w' then (Resolved outputPath, w')
      else (Rejected (ConversionError "PDF output file not created"
                        "document"), w')
  end.

End Documents.

(** An office machine: LibreOffice writes [out]; segments are joined
    with one separator. *)
Definition office_machine (out : string) : Platform :=
  {| exec := fun _ w => (mkExec None EmptyString EmptyString, writeFile out w);
     execFile := fun _ _ w => (mkExec None EmptyString EmptyString, w);
     readFileSync := fun p w => if existsSync p w then inr p else inl (enoent p);
     pdf_load := fun _ => inr 1;
     path_join := fun a b => a ++ "/" ++ b |}.

(** A file name without separator. *)
Definition no_slash (s : string) : Prop :=
  Forall (fun c => c <> "/"%char) (list_ascii_of_string s).

(* ===================================================================== *)
(** * [modules/socket-client.js]                                          *)
(* ===================================================================== *)

(** What the socket client sends upstream. *)
Inductive Upstream :=
| register (kiosk_id hostname printer_name : string)
| pong (uptime : Z) (current_job : option string) (pending_count : nat)
    (poll_count jobs_fetched_today conversions_today : Z)
| heartbeat (kiosk_id : string) (uptime : Z) (printer_status : string)
    (printer_ipp_status : HealthStatus) (printer_ipp_detail : option string)
    (current_job : option string) (pending_jobs : nat) (memory : Z)
    (poll_count jobs_fetched_today conversions_today : Z)
    (last_poll : option Z).

(** The client: the shared [state] object and socket, what has been sent,
    the [lastPrinterStatus] variable of the heartbeat closure, the status
    lines it has logged and the warnings of the connect handler. *)
Record Client := mkClient {
  state : Sys;
  sent : list Upstream;
  lastPrinterStatus : HealthStatus;
  status_log : list PrinterHealth;
  warned : list string
}.

Definition init_client : Client :=
  {| state := init_sys; sent := []; lastPrinterStatus := unknown;
     status_log := []; warned := [] |}.

Definition status_eqb (a b : HealthStatus) : bool :=
  match a, b with
  | healthy, healthy | error_, error_ | unknown, unknown => true
  | _, _ => false
  end.

(** [process.env.PRINTER_NAME || 'auto']. *)
Definition configured_printer (env : option string) : string :=
  match env with
  | Some name => if JS.truthy name then name else "auto"
  | None => "auto"
  end.

(** [state.printerName || 'unknown']. *)
Definition or_unknown (printerName : option string) : string :=
  match printerName with
  | Some name => if JS.truthy name then name else "unknown"
  | None => "unknown"
  end.

Section SocketClient.
Context `{Platform}.

(** The connect handler after [await printer.detectPrinter(...)]. *)
Definition connect_resume (kioskId hostname : string)
  (detected : Settled string) (c : Client) : Client :=
  let c1 :=
    match detected with
    | Resolved d =>
        mkClient (with_printerName (Some d) (state c)) (sent c)
          (lastPrinterStatus c) (status_log c) (warned c)
    | Rejected e =>
        (* catch *)
        mkClient (state c) (sent c) (lastPrinterStatus c) (status_log c)
          (warned c ++ [("Could not detect printer: " ++ message e)%string])%list
    end in
  mkClient (state c1)
    (sent c1 ++ [register kioskId hostname
                   (or_unknown (printerName (state c1)))])%list
    (lastPrinterStatus c1) (status_log c1) (warned c1).

(** The connect handler: the detection is started on the file system
    [w]; [c] is the client at the time the detection settles. *)
Definition on_connect (kioskId hostname : string) (env : option string)
  (w : FS) (c : Client) : Client :=
  connect_resume kioskId hostname (detectPrinter (configured_printer env) w) c.

(** The ping handler. *)
Definition on_ping (uptime : Z) (c : Client) : Client :=
  mkClient (state c)
    (sent c ++ [pong uptime (currentJob (state c))
                  (JSMap.size (pendingJobs (state c)))
                  (pollCount (state c)) (jobsFetchedToday (state c))
                  (conversionsToday (state c))])%list
    (lastPrinterStatus c) (status_log c) (warned c).

(** The heartbeat callback after [await printer.checkPrinterStatus(...)],
    on the client [c] as it is when the check settles; [None] when the
    awaited promise rejects: nothing in the callback catches it. *)
Definition heartbeat_resume (kioskId : string) (uptime memory : Z)
  (r : Settled PrinterHealth) (c : Client) : option Client :=
  match r with
  | Rejected _ => None
  | Resolved printerStatusResult =>
      let changed :=
        negb (status_eqb (status printerStatusResult) (lastPrinterStatus c)) in
      Some (mkClient (state c)
              (sent c ++ [heartbeat kioskId uptime
                            (if JS.truthy_opt (printerName (state c))
                             then "ready" else "no_printer")
                            (status printerStatusResult)
                            (detail printerStatusResult)
                            (currentJob (state c))
                            (JSMap.size (pendingJobs (state c)))
                            memory
                            (pollCount (state c))
                            (jobsFetchedToday (state c))
                            (conversionsToday (state c))
                            (lastPollTime (state c))])%list
              (if changed then status printerStatusResult
               else lastPrinterStatus c)
              (if changed then (status_log c ++ [printerStatusResult])%list
               else status_log c)
              (warned c))
  end.

(** One firing of the heartbeat interval, up to
    [await printer.checkPrinterStatus(...)]: [None] when the socket is
    down and the callback returns at once; otherwise the status check
    that is awaited, started for the printer known at that moment on the
    file system [w].  What follows the [await] is [heartbeat_resume], run
    on the client as it is when the check settles. *)
Definition heartbeat_tick (w : FS) (c : Client)
  : option (Settled PrinterHealth) :=
  if negb (connected (state c)) then None
  else Some (checkPrinterStatus (printerName (state c)) w).

(** One firing of the daily-reset interval at local time
    [hours]:[minutes]. *)
Definition daily_reset (hours minutes : Z) (c : Client) : Client :=
  if ((hours =? 0) && (minutes =? 0))%bool then
    mkClient
      (with_poll 0 (lastPollTime (state c))
         (with_conversionsToday 0 (with_jobsFetchedToday 0 (state c))))
      (sent c) (lastPrinterStatus c) (status_log c) (warned c)
  else c.

End SocketClient.

(* ===================================================================== *)
(** * Vocabulary for the job handler                                      *)
(* ===================================================================== *)

(** The settlement of [printDocument] as the awaiting [processJob] sees
    it. *)
Definition print_settled (r : Settled PrintResult) : Settled Value :=
  match r with
  | Resolved pr => Resolved (VPrint pr)
  | Rejected e => Rejected e
  end.

(** The jobs whose terminal event, [print_complete], has been sent. *)
Definition completion_id (ev : Event) : option string :=
  match ev with
  | print_complete_ok id _ | print_complete_failed id _ => Some id
  | _ => None
  end.

Definition completions (evs : list Event) : list string :=
  omap completion_id evs.

(** A turn of the event loop that does not take the socket down. *)
Definition stays_online (l : Label) : Prop :=
  match l with
  | L_socket b => b = true
  | _ => True
  end.

(** Every finished activation of the job processor has reported, and the
    ones in flight have not. *)
Definition reported (s : Sys) : Prop :=
  (completions (emitted s) ++ map jt_id (job_tasks (tasks s)))%list
  = hist_started s.

(** The ids a poll response adds to a queue that holds [seen], in the
    order of their first occurrence; and the last job of the response
    that carries a given id. *)
Fixpoint new_ids (seen : list string) (jobs : list Job) : list string :=
  match jobs with
  | [] => []
  | job :: jobs' =>
      if bool_decide (job_id job ∈ seen) then new_ids seen jobs'
      else job_id job :: new_ids (seen ++ [job_id job])%list jobs'
  end.

Fixpoint last_with_id (k : string) (jobs : list Job) : option Job :=
  match jobs with
  | [] => None
  | job :: jobs' =>
      match last_with_id k jobs' with
      | Some job' => Some job'
      | None => if String.eqb k (job_id job) then Some job else None
      end
  end.

(** An agent with nothing in progress and nothing queued. *)
Definition idle (s : Sys) : Prop :=
  JS.truthy_opt (currentJob s) = false /\ pendingJobs s = [].

(** The agent while [j1] is at the printer. *)
Definition printing_j1 : Sys :=
  default init_sys
    (@run laptop init_sys
       [L_socket true; L_tick; L_poll_response 0 (PollJobs [pdf_job]) io_ok;
        L_settle 0 (Resolved (VPages 1)) io_ok]).

Definition print_task : JobTask :=
  mkJobTask "j1" pdf_job "print-queue/j1_report.pdf"
    "print-queue/j1_report.pdf" AwPrintDocument.

(** A printer that is out of reach: [lp] fails and says why. *)
Definition lp_fails : Platform :=
  scripted (fun _ w => (mkExec (Some (PlainError "Command failed: lp"))
                          EmptyString "lp: The printer or class does not exist."
                        , w))
    (fun _ => writes_output) (fun _ => inr 1).

(** Two polls are in flight; the first response has brought [j4], which
    is being verified. *)
Definition second_poll_in_flight : Sys :=
  default init_sys
    (@run laptop init_sys
       [L_socket true; L_tick; L_tick;
        L_poll_response 0 (PollJobs [sample_job "j4" "a.pdf"]) io_ok]).

Definition late_response : list Job :=
  [sample_job "j5" "b.pdf"; sample_job "j4" "a2.pdf"; sample_job "j5" "c.pdf"].

(** Two polls were in flight; [j1], brought by the first response, has
    been printed, and the second response is still to come. *)
Definition finished_j1 : Sys :=
  default init_sys
    (@run laptop init_sys
       [L_socket true; L_tick; L_tick;
        L_poll_response 0 (PollJobs [pdf_job]) io_ok;
        L_settle 1 (Resolved (VPages 1)) io_ok;
        L_settle 1 (printed (Some 1)) io_ok]).

(** The jobs whose success has been reported, and the number of cleanup
    timers that fire in a run. *)
Definition success_id (ev : Event) : option string :=
  match ev with
  | print_complete_ok id _ => Some id
  | _ => None
  end.

Definition successes (evs : list Event) : list string :=
  omap success_id evs.

Fixpoint fired (ls : list Label) : nat :=
  match ls with
  | [] => 0
  | L_timer _ :: ls' => S (fired ls')
  | _ :: ls' => fired ls'
  end.

(** The answers the health check can give. *)
Definition health_answers : list PrinterHealth :=
  [ mkHealth unknown (Some "no_printer_configured");
    mkHealth unknown (Some "cups_unavailable");
    mkHealth error_ (Some "media-empty");
    mkHealth error_ (Some "toner-empty");
    mkHealth error_ (Some "cover-open");
    mkHealth error_ (Some "stopped");
    mkHealth error_ (Some "offline");
    mkHealth healthy None;
    mkHealth unknown (Some "ipp_unsupported") ].

(** A connected client that knows its printer. *)
Definition online_client : Client :=
  {| state := with_printerName (Some "HP_LaserJet")
                (with_connected true init_sys);
     sent := []; lastPrinterStatus := unknown; status_log := [];
     warned := [] |}.

(** The jobs that the poll responses of a run have carried, the number
    of polls that have been answered, and the polls still in flight. *)
Fixpoint fetched (ls : list Label) : Z :=
  match ls with
  | [] => 0
  | L_poll_response _ (PollJobs jobs) _ :: ls' =>
      Z.of_nat (List.length jobs) + fetched ls'
  | _ :: ls' => fetched ls'
  end.

Fixpoint answered (ls : list Label) : Z :=
  match ls with
  | [] => 0
  | L_poll_response _ _ _ :: ls' => 1 + answered ls'
  | _ :: ls' => answered ls'
  end.

Fixpoint polls_in_flight (ts : list Task) : Z :=
  match ts with
  | [] => 0
  | T_poll :: ts' => 1 + polls_in_flight ts'
  | T_job _ :: ts' => polls_in_flight ts'
  end.

(** The pipeline stage that a job of a given kind awaits first. *)
Definition stage_of (ft : FileType) : option Awaited :=
  match ft with
  | FT_document => Some AwConvertDocument
  | FT_image => Some AwConvertImage
  | FT_pdf => Some AwVerifyPDF
  | FT_unknown => None
  end.

(** A connected agent whose queue holds the one job [gif_job]. *)
Definition gif_queued : Sys :=
  with_pendingJobs [("j3", gif_job)] (with_connected true init_sys).


(* ===================================================================== *)
(** * [startPolling] and the connect handler of [index.js]                *)
(* ===================================================================== *)

(** The timers of the polling loops: the due times of the initial polls
    ([setTimeout(..., 2000)]) and the next due time of each polling
    interval ([setInterval(..., pollInterval)]). *)
Record Pollers := mkPollers {
  first_polls : list Z;
  intervals : list Z
}.

Record Agent := mkAgent {
  sys : Sys;
  pollers : Pollers
}.

Definition init_agent : Agent :=
  {| sys := init_sys; pollers := {| first_polls := []; intervals := [] |} |}.

(** [startPolling]; the interval id it returns is dropped by its caller. *)
Definition startPolling (pollInterval : Z) (a : Agent) : Agent :=
  {| sys := sys a;
     pollers :=
       {| first_polls :=
            (first_polls (pollers a) ++ [now (sys a) + 2000])%list;
          intervals :=
            (intervals (pollers a) ++ [now (sys a) + pollInterval])%list |} |}.

Inductive AgentEvent :=
| A_connect
| A_first_poll (k : nat)
| A_interval (k : nat)
| A_sys (l : Label).

Section Agent.
Context `{Platform}.

(** One turn of the event loop of the agent: the socket connects and the
    handler of [index.js] starts the polling; an initial poll or a polling
    interval that is due calls [pollForJobs]; or the job handler takes a
    turn. *)
Definition agent_step (pollInterval : Z) (a : Agent) (ev : AgentEvent)
  : option Agent :=
  match ev with
  | A_connect =>
      Some (startPolling pollInterval
              {| sys := with_connected true (sys a); pollers := pollers a |})
  | A_first_poll k =>
      match first_polls (pollers a) !! k with
      | Some d =>
          if d <=? now (sys a) then
            Some {| sys := poll_begin (sys a);
                    pollers :=
                      {| first_polls := delete k (first_polls (pollers a));
                         intervals := intervals (pollers a) |} |}
          else None
      | None => None
      end
  | A_interval k =>
      match intervals (pollers a) !! k with
      | Some d =>
          if d <=? now (sys a) then
            Some {| sys := poll_begin (sys a);
                    pollers :=
                      {| first_polls := first_polls (pollers a);
                         intervals :=
                           <[ k := now (sys a) + pollInterval ]>
                             (intervals (pollers a)) |} |}
          else None
      | None => None
      end
  | A_sys l =>
      match step (sys a) l with
      | Some s' => Some {| sys := s'; pollers := pollers a |}
      | None => None
      end
  end.

Fixpoint agent_run (pollInterval : Z) (a : Agent) (evs : list AgentEvent)
  : option Agent :=
  match evs with
  | [] => Some a
  | ev :: evs' =>
      match agent_step pollInterval a ev with
      | Some a' => agent_run pollInterval a' evs'
      | None => None
      end
  end.

End Agent.

Fixpoint connects (evs : list AgentEvent) : nat :=
  match evs with
  | [] => 0
  | A_connect :: evs' => S (connects evs')
  | _ :: evs' => connects evs'
  end.

(** The polling intervals [0], ..., [k-1] fire one after the other. *)
Definition all_fire (k : nat) : list AgentEvent := map A_interval (seq 0 k).

(* ===================================================================== *)
(** * Vocabulary for the failure of a pipeline stage                      *)
(* ===================================================================== *)




(* ===================================================================== *)
(** * The listing of [lpstat -p -d], read line by line                    *)
(* ===================================================================== *)

(** The text of [s] before its first colon. *)
Fixpoint before_colon (s : string) : string :=
  match s with
  | EmptyString => EmptyString
  | String c s' =>
      if Ascii.eqb c ":" then EmptyString else String c (before_colon s')
  end.

(** The destination that a default line names: the text between its
    first and its second colon, trimmed (the first colon is the one that
    ends [system default destination:], 27 code units long). *)
Definition default_name (l : string) : string :=
  JS.trim (before_colon (JS.drop 27 l)).

(** The default destination that the listing announces: that of its last
    default line. *)
Definition announced_default (ls : list string) : option string :=
  option_map default_name (last (List.filter is_default_line ls)).

(** The word that follows [printer] and white space on a printer line,
    and the printers that the listing enumerates. *)
Definition printer_word (l : string) : string :=
  non_space_run (JS.trimStart (JS.drop 8 l)).

Definition listed_printers (ls : list string) : list string :=
  List.filter JS.truthy (map printer_word (List.filter is_printer_line ls)).

(* ===================================================================== *)
(** * Facts about strings and paths                                       *)
(* ===================================================================== *)

#[local] Arguments String.append !s1 s2 : simpl nomatch.

(** ** Basic facts about strings *)

Lemma app_empty_r (s : string) : s ++ EmptyString = s.
Proof. induction s; simpl; congruence. Qed.

Lemma app_assoc_s (a b c : string) : (a ++ b) ++ c = a ++ b ++ c.
Proof. induction a; simpl; congruence. Qed.

Lemma length_app_s (a b : string) :
  String.length (a ++ b) = (String.length a + String.length b)%nat.
Proof. induction a; simpl; congruence. Qed.

Lemma chars_app (a b : string) :
  list_ascii_of_string (a ++ b) =
  (list_ascii_of_string a ++ list_ascii_of_string b)%list.
Proof. induction a; simpl; congruence. Qed.

Lemma chars_length (a : string) :
  List.length (list_ascii_of_string a) = String.length a.
Proof. induction a; simpl; congruence. Qed.

Lemma take_app_s (a b : string) : JS.take (String.length a) (a ++ b) = a.
Proof. induction a; simpl; [by destruct b|congruence]. Qed.

Lemma drop_app_s (a b : string) : JS.drop (String.length a) (a ++ b) = b.
Proof. induction a; simpl; [by destruct b|congruence]. Qed.

Lemma take_all_s (a : string) : JS.take (String.length a) a = a.
Proof. induction a; simpl; congruence. Qed.

Lemma app_inv_head_s (a b c : string) : a ++ b = a ++ c -> b = c.
Proof. induction a; simpl; [done|]. intros [= ?]. auto. Qed.

Lemma app_inv_tail_s (a b c : string) : a ++ c = b ++ c -> a = b.
Proof.
  intros E.
  assert (L : String.length a = String.length b).
  { apply (f_equal String.length) in E. rewrite !length_app_s in E. lia. }
  revert b E L. induction a as [|x a IH]; intros [|y b] E L; simpl in *; try done.
  injection E as -> E. f_equal. apply IH; [done|lia].
Qed.

(** ** The [extname] scanner *)

Lemma scan_char_no_dot c i st :
  c <> "."%char -> Path.startDot st = -1 ->
  Path.startDot (Path.scan_char c i st) = -1.
Proof.
  intros Hc Hsd. unfold Path.scan_char.
  destruct (Ascii.eqb_spec c "."); [done|].
  destruct (Path.end_ st =? -1); simpl; rewrite Hsd; done.
Qed.

Lemma scan_no_dot rchars : forall i st,
  Forall (fun c => c <> "."%char) rchars ->
  Path.startDot st = -1 ->
  Path.startDot (Path.extname_scan rchars i st) = -1.
Proof.
  induction rchars as [|c rest IH]; intros i st Hall Hsd; simpl; [done|].
  inversion Hall as [|? ? Hc Hrest]; subst.
  destruct (Ascii.eqb c "/").
  - destruct (negb (Path.matchedSlash st)); simpl; auto.
  - apply IH; [done|]. by apply scan_char_no_dot.
Qed.

Lemma extname_no_dot (p : string) :
  Forall (fun c => c <> "."%char) (list_ascii_of_string p) ->
  Path.extname p = EmptyString.
Proof.
  intros Hall. unfold Path.extname.
  rewrite scan_no_dot; [done| |done].
  by apply List.Forall_rev.
Qed.

(** Once the dot and the end are known, a further character keeps them
    and leaves [preDotState] non-zero. *)
Lemma scan_char_settled c i st :
  Path.startDot st <> -1 -> Path.end_ st <> -1 ->
  Path.startDot (Path.scan_char c i st) = Path.startDot st /\
  Path.end_ (Path.scan_char c i st) = Path.end_ st /\
  Path.preDotState (Path.scan_char c i st) <> 0.
Proof.
  intros Hsd He. unfold Path.scan_char.
  assert (E1: (Path.end_ st =? -1) = false) by lia. rewrite E1.
  assert (E2: (Path.startDot st =? -1) = false) by lia. rewrite E2. simpl.
  destruct (Ascii.eqb c "."); [|simpl; lia].
  destruct (Path.preDotState st =? 1) eqn:E; simpl; lia.
Qed.

Lemma scan_settled rchars : forall i st,
  Path.startDot st <> -1 -> Path.end_ st <> -1 -> Path.preDotState st <> 0 ->
  Path.startDot (Path.extname_scan rchars i st) = Path.startDot st /\
  Path.end_ (Path.extname_scan rchars i st) = Path.end_ st /\
  Path.preDotState (Path.extname_scan rchars i st) <> 0.
Proof.
  induction rchars as [|c rest IH]; intros i st Hsd He Hp; simpl; [done|].
  destruct (Ascii.eqb c "/").
  - destruct (negb (Path.matchedSlash st)); simpl; auto.
  - destruct (scan_char_settled c i st Hsd He) as (A & B & C).
    destruct (IH (i - 1) (Path.scan_char c i st)) as (A' & B' & C');
      [congruence..|].
    rewrite A', B', A, B. done.
Qed.

(** Characters of the extension body leave the state alone once the end
    has been marked. *)
Lemma scan_char_body c i st :
  ext_body_char c -> Path.startDot st = -1 -> Path.end_ st <> -1 ->
  Path.scan_char c i st = st.
Proof.
  intros [Hc _] Hsd He. unfold Path.scan_char.
  destruct (Ascii.eqb_spec c "."); [done|].
  assert (E1: (Path.end_ st =? -1) = false) by lia. rewrite E1, Hsd. done.
Qed.

Lemma scan_ext_body rx : forall i st rest,
  Forall ext_body_char rx ->
  Path.startDot st = -1 -> Path.end_ st <> -1 ->
  Path.extname_scan (rx ++ rest) i st =
  Path.extname_scan rest (i - Z.of_nat (List.length rx)) st.
Proof.
  induction rx as [|c rx IH]; intros i st rest Hall Hsd He.
  { simpl. f_equal. lia. }
  inversion Hall as [|? ? Hc Hrest]; subst.
  cbn [app Path.extname_scan].
  destruct (Ascii.eqb_spec c "/"); [by destruct Hc|].
  rewrite scan_char_body by done. rewrite IH by done. f_equal.
  cbn [List.length]. lia.
Qed.

Lemma rev_cons_of_last {A} (l : list A) (c : A) :
  last l = Some c -> exists r, rev l = c :: r.
Proof.
  intros Hl. destruct (rev l) as [|c1 r] eqn:E.
  - apply (f_equal (@rev _)) in E. rewrite rev_involutive in E. by subst.
  - exists r. apply (f_equal (@rev _)) in E. rewrite rev_involutive in E.
    subst l. cbn [rev] in Hl. rewrite last_snoc in Hl. congruence.
Qed.

(** [extname] of a name that ends in a dot-extension: the stem is not
    empty and does not end in a separator, the extension body is not
    empty and has neither dot nor separator. *)
Lemma extname_stem_ext (stem x : string) (c : ascii) :
  last_char stem = Some c -> c <> "/"%char ->
  x <> EmptyString ->
  Forall ext_body_char (list_ascii_of_string x) ->
  Path.extname (stem ++ "." ++ x) = "." ++ x.
Proof.
  intros Hlast Hc Hx Hbody. unfold Path.extname.
  rewrite chars_app. cbn [append list_ascii_of_string].
  set (ls := list_ascii_of_string stem) in *.
  set (lx := list_ascii_of_string x) in *.
  rewrite rev_app_distr. cbn [rev]. rewrite <- app_assoc. cbn [app].
  rewrite length_app. cbn [List.length].
  destruct (rev_cons_of_last ls c Hlast) as (rs & Ers). rewrite Ers.
  assert (Hnil : lx <> []) by (subst lx; destruct x; simpl; done).
  destruct (rev lx) as [|c0 rx] eqn:Erx.
  { apply (f_equal (@rev _)) in Erx. rewrite rev_involutive in Erx. done. }
  assert (Hr : Forall ext_body_char (c0 :: rx)).
  { rewrite <- Erx. by apply List.Forall_rev. }
  inversion Hr as [|? ? Hc0 Hrx]; subst.
  assert (Llx : List.length lx = S (List.length rx)).
  { rewrite <- (length_rev lx), Erx. done. }
  set (len := Z.of_nat (List.length ls + S (List.length lx))).
  cbn [app Path.extname_scan].
  destruct (Ascii.eqb_spec c0 "/"); [by destruct Hc0|].
  set (st0 := Path.scan_char c0 (len - 1) Path.scan_init).
  assert (Est0 : st0 = Path.mkExtScan (-1) 0 len false 0).
  { unfold st0, Path.scan_char. destruct (Ascii.eqb_spec c0 ".");
      [by destruct Hc0|]. simpl. f_equal. lia. }
  rewrite scan_ext_body; [|done|by rewrite Est0|rewrite Est0; simpl; lia].
  cbn [Path.extname_scan].
  change (Ascii.eqb "." "/") with false. cbv iota.
  destruct (Ascii.eqb_spec c "/"); [done|].
  set (sd := len - 1 - 1 - Z.of_nat (List.length rx)).
  assert (Esd : sd = Z.of_nat (List.length ls)) by lia.
  set (st1 := Path.scan_char "." sd st0).
  assert (Est1 : st1 = Path.mkExtScan sd 0 len false 0).
  { unfold st1, Path.scan_char. rewrite Est0. simpl.
    assert (E : (len =? -1) = false) by lia. rewrite E. done. }
  set (st2 := Path.scan_char c (sd - 1) st1).
  destruct (scan_char_settled c (sd - 1) st1) as (A & B & C);
    [rewrite Est1; simpl; lia..|].
  fold st2 in A, B, C.
  destruct (scan_settled rs (sd - 1 - 1) st2) as (A' & B' & C').
  { rewrite A, Est1. simpl. lia. }
  { rewrite B, Est1. simpl. lia. }
  { exact C. }
  rewrite A', B', A, B, Est1. cbn [Path.startDot Path.end_].
  assert (E1 : (sd =? -1) = false) by lia.
  assert (E2 : (len =? -1) = false) by lia.
  assert (E3 : (sd =? len - 1) = false) by lia.
  apply Z.eqb_neq in C'. rewrite E1, E2, C', E3, andb_false_r. cbn [orb andb].
  unfold JS.slice. rewrite Esd, Nat2Z.id.
  unfold ls. rewrite chars_length, drop_app_s.
  replace (Z.to_nat len - String.length stem)%nat
    with (String.length ("." ++ x)).
  - apply take_all_s.
  - unfold len, ls, lx. rewrite !chars_length. cbn [append String.length]. lia.
Qed.

(** ** Searching in strings *)

Lemma length_toLowerCase (s : string) :
  String.length (JS.toLowerCase s) = String.length s.
Proof. induction s; simpl; congruence. Qed.

Lemma take_drop_s (n : nat) (s : string) : JS.take n s ++ JS.drop n s = s.
Proof.
  revert s. induction n as [|n IH]; intros [|c s]; simpl; try done.
  by rewrite IH.
Qed.

Lemma take_app_le (n : nat) (a b : string) :
  (n <= String.length a)%nat -> JS.take n (a ++ b) = JS.take n a.
Proof.
  revert a. induction n as [|n IH]; intros [|c a] Hn; simpl in *;
    try lia; try done.
  rewrite IH; [done|lia].
Qed.

Lemma drop_app_le (n : nat) (a b : string) :
  (n <= String.length a)%nat -> JS.drop n (a ++ b) = JS.drop n a ++ b.
Proof.
  revert a. induction n as [|n IH]; intros [|c a] Hn; simpl in *;
    try lia; try done.
  rewrite IH; [done|lia].
Qed.

Lemma length_take_le (n : nat) (s : string) :
  (n <= String.length s)%nat -> String.length (JS.take n s) = n.
Proof.
  revert s. induction n as [|n IH]; intros [|c s] Hn; simpl in *;
    try lia; try done.
  rewrite IH; [done|lia].
Qed.

Lemma length_drop (n : nat) (s : string) :
  String.length (JS.drop n s) = (String.length s - n)%nat.
Proof.
  revert s. induction n as [|n IH]; intros [|c s]; simpl in *; try done.
Qed.

Lemma drop_all_s (n : nat) (s : string) :
  (String.length s <= n)%nat -> JS.drop n s = EmptyString.
Proof.
  revert s. induction n as [|n IH]; intros [|c s] Hn; simpl in *;
    try lia; try done.
  apply IH. lia.
Qed.

Lemma length_zero_s (s : string) : String.length s = 0%nat -> s = EmptyString.
Proof. by destruct s. Qed.

(** [startsWith]: the pattern is a prefix. *)
Lemma startsWith_spec (s p : string) :
  JS.startsWith s p = true <-> exists b, s = p ++ b.
Proof.
  revert s. induction p as [|a p IH]; intros s.
  - split; [intros _; by exists s|by destruct s].
  - destruct s as [|b s]; simpl.
    + split; [done|]. intros (t & Ht). done.
    + rewrite andb_true_iff, IH. split.
      * intros (E & t & ->). apply Ascii.eqb_eq in E. subst. by exists t.
      * intros (t & Ht). injection Ht as -> ->. split; [apply Ascii.eqb_refl|].
        by exists t.
Qed.

Lemma startsWith_app (p b : string) : JS.startsWith (p ++ b) p = true.
Proof. apply startsWith_spec. by exists b. Qed.

(** [indexOf] finds an occurrence... *)
Lemma indexOf_Some (s p : string) (i : nat) :
  JS.indexOf s p = Some i ->
  exists d, JS.drop i s = p ++ d /\ (i <= String.length s)%nat.
Proof.
  revert i. induction s as [|c s IH]; intros i; cbn [JS.indexOf].
  - destruct (JS.startsWith EmptyString p) eqn:E; [|done].
    intros [= <-]. apply startsWith_spec in E as (d & Hd).
    exists d. split; [done|simpl; lia].
  - destruct (JS.startsWith (String c s) p) eqn:E.
    + intros [= <-]. apply startsWith_spec in E as (d & Hd).
      exists d. split; [done|simpl; lia].
    + destruct (JS.indexOf s p) as [j|] eqn:Ej; [|done].
      cbn [option_map]. intros [= <-].
      destruct (IH j eq_refl) as (d & Hd & Hl).
      exists d. split; [done|simpl; lia].
Qed.

(** ... and it is the leftmost one. *)
Lemma indexOf_first (s p : string) (i j : nat) :
  JS.indexOf s p = Some i -> (j < i)%nat ->
  JS.startsWith (JS.drop j s) p = false.
Proof.
  revert i j. induction s as [|c s IH]; intros i j; cbn [JS.indexOf].
  - destruct (JS.startsWith EmptyString p); [|done]. intros [= <-]. lia.
  - destruct (JS.startsWith (String c s) p) eqn:E.
    + intros [= <-]. lia.
    + destruct (JS.indexOf s p) as [k|] eqn:Ek; [|done].
      cbn [option_map]. intros [= <-] Hj. destruct j as [|j]; [done|].
      cbn [JS.drop]. apply (IH k); [done|lia].
Qed.

Lemma indexOf_None (s p : string) (j : nat) :
  JS.indexOf s p = None -> JS.startsWith (JS.drop j s) p = false.
Proof.
  revert j. induction s as [|c s IH]; intros j; cbn [JS.indexOf].
  - destruct (JS.startsWith EmptyString p) eqn:E; [done|].
    intros _. by destruct j.
  - destruct (JS.startsWith (String c s) p) eqn:E; [done|].
    destruct (JS.indexOf s p) eqn:Ek; [done|]. intros _.
    destruct j as [|j]; [done|]. cbn [JS.drop]. by apply IH.
Qed.

(** [includes]: the pattern occurs somewhere. *)
Lemma includes_spec (s p : string) :
  JS.includes s p = true <-> exists a b, s = a ++ p ++ b.
Proof.
  unfold JS.includes. split.
  - destruct (JS.indexOf s p) as [i|] eqn:E; [|done]. intros _.
    apply indexOf_Some in E as (d & Hd & _).
    exists (JS.take i s), d. rewrite <- Hd. by rewrite take_drop_s.
  - intros (a & b & ->).
    destruct (JS.indexOf (a ++ p ++ b) p) eqn:E; [done|].
    apply (indexOf_None _ _ (String.length a)) in E.
    rewrite drop_app_s, startsWith_app in E. done.
Qed.

(** [replace] when the leftmost occurrence is known. *)
Lemma replace_at (s pat rep : string) (i : nat) :
  JS.indexOf s pat = Some i ->
  exists d, JS.drop i s = pat ++ d /\
            JS.replace s pat rep = JS.take i s ++ rep ++ d.
Proof.
  intros E. unfold JS.replace. rewrite E.
  apply indexOf_Some in E as (d & Hd & Hl). exists d. split; [done|].
  f_equal. f_equal.
  assert (Hdd : JS.drop (String.length pat) (JS.drop i s) = d)
    by (by rewrite Hd, drop_app_s).
  rewrite <- Hdd. clear. revert s.
  induction i as [|i IH]; intros s; simpl; [done|].
  destruct s as [|c s]; simpl; [|apply IH].
  by destruct (String.length pat).
Qed.

Lemma replace_absent (s pat rep : string) :
  JS.indexOf s pat = None -> JS.replace s pat rep = s.
Proof. intros E. unfold JS.replace. by rewrite E. Qed.

(* ===================================================================== *)
(** * The classifier                                                      *)
(* ===================================================================== *)

Lemma arr_includes_In (arr : list string) (x : string) :
  JS.arr_includes arr x = true <-> In x arr.
Proof.
  unfold JS.arr_includes. rewrite existsb_exists. split.
  - intros (y & Hy & E). apply String.eqb_eq in E. by subst.
  - intros Hx. exists x. split; [done|]. apply String.eqb_refl.
Qed.

Lemma arr_includes_not_In (arr : list string) (x : string) :
  JS.arr_includes arr x = false <-> ~ In x arr.
Proof.
  rewrite <- arr_includes_In. destruct (JS.arr_includes arr x); split; done.
Qed.

Lemma lower_char_body (c : ascii) :
  ext_body_char (JS.lower_char c) -> ext_body_char c.
Proof.
  intros [H1 H2]. split; intros ->; [apply H1|apply H2]; reflexivity.
Qed.

Lemma toLowerCase_app (a b : string) :
  JS.toLowerCase (a ++ b) = JS.toLowerCase a ++ JS.toLowerCase b.
Proof. induction a; simpl; congruence. Qed.

Lemma toLowerCase_body (x : string) :
  Forall ext_body_char (list_ascii_of_string (JS.toLowerCase x)) ->
  Forall ext_body_char (list_ascii_of_string x).
Proof.
  induction x as [|c x IH]; simpl; [done|].
  intros Hall. inversion Hall; subst.
  constructor; [by apply lower_char_body|by apply IH].
Qed.

Lemma toLowerCase_nonempty (x : string) :
  JS.toLowerCase x <> EmptyString -> x <> EmptyString.
Proof. by destruct x. Qed.

(** The kind is a function of the lower-cased extension alone. *)
Lemma getFileType_lower_ext (f g : string) :
  JS.toLowerCase (Path.extname f) = JS.toLowerCase (Path.extname g) ->
  getFileType f = getFileType g.
Proof. unfold getFileType. by intros ->. Qed.

(** A name [stem.x] whose extension body [x] lower-cases to a body without
    dot or separator has the extension [.x]. *)
Lemma lower_extname_stem_ext (stem x : string) (c : ascii) :
  last_char stem = Some c -> c <> "/"%char ->
  JS.toLowerCase x <> EmptyString ->
  Forall ext_body_char (list_ascii_of_string (JS.toLowerCase x)) ->
  JS.toLowerCase (Path.extname (stem ++ "." ++ x)) = "." ++ JS.toLowerCase x.
Proof.
  intros Hl Hc Hx Hb.
  rewrite (extname_stem_ext stem x c);
    [done|done|done|by apply toLowerCase_nonempty|by apply toLowerCase_body].
Qed.

(** C4.  [getFileType] is a total function of the lower-cased extension
    of the file name: [.pdf] gives [pdf]; [.doc], [.docx], [.rtf], [.odt],
    [.txt], [.md] give [document]; [.png], [.jpg], [.jpeg] give [image];
    everything else, a name without extension included, gives [unknown].
    The match ignores case: a name [stem.X] whose [X] lower-cases to a
    listed extension has the listed kind. *)
Theorem getFileType_by_extension :
  (forall filename : string,
     let ext := JS.toLowerCase (Path.extname filename) in
     (getFileType filename = FT_pdf <-> ext = ".pdf") /\
     (getFileType filename = FT_document <-> In ext document_exts) /\
     (getFileType filename = FT_image <-> In ext image_exts) /\
     (getFileType filename = FT_unknown <->
        ext <> ".pdf" /\ ~ In ext document_exts /\ ~ In ext image_exts)) /\
  (forall filename : string,
     Forall (fun c => c <> "."%char) (list_ascii_of_string filename) ->
     getFileType filename = FT_unknown) /\
  (forall (stem x : string) (c : ascii),
     last_char stem = Some c -> c <> "/"%char ->
     (JS.toLowerCase x = "pdf" ->
        getFileType (stem ++ "." ++ x) = FT_pdf) /\
     (In ("." ++ JS.toLowerCase x) document_exts ->
        getFileType (stem ++ "." ++ x) = FT_document) /\
     (In ("." ++ JS.toLowerCase x) image_exts ->
        getFileType (stem ++ "." ++ x) = FT_image)).
Proof.
  assert (Hmain : forall filename : string,
     let ext := JS.toLowerCase (Path.extname filename) in
     (getFileType filename = FT_pdf <-> ext = ".pdf") /\
     (getFileType filename = FT_document <-> In ext document_exts) /\
     (getFileType filename = FT_image <-> In ext image_exts) /\
     (getFileType filename = FT_unknown <->
        ext <> ".pdf" /\ ~ In ext document_exts /\ ~ In ext image_exts)).
  { intros filename ext. unfold getFileType. fold ext.
    destruct (String.eqb_spec ext ".pdf") as [E|E].
    { rewrite E. unfold document_exts, image_exts. simpl.
      intuition (discriminate || congruence). }
    destruct (JS.arr_includes document_exts ext) eqn:Ed.
    { apply arr_includes_In in Ed. split_and!; split; try done.
      - intros Hi. exfalso. unfold document_exts, image_exts in *.
        simpl in *. intuition congruence.
      - intros (_ & Hd & _). done. }
    apply arr_includes_not_In in Ed.
    destruct (JS.arr_includes image_exts ext) eqn:Ei.
    { apply arr_includes_In in Ei. split_and!; split; try done.
      intros (_ & _ & Hi). done. }
    apply arr_includes_not_In in Ei.
    split_and!; split; done. }
  split; [exact Hmain|]. split.
  - intros filename Hnd. apply Hmain.
    rewrite (extname_no_dot filename Hnd). unfold document_exts, image_exts.
    simpl. intuition discriminate.
  - intros stem x c Hl Hc.
    assert (Hext : forall e : string,
              In e (".pdf" :: document_exts ++ image_exts)%list ->
              "." ++ JS.toLowerCase x = e ->
              JS.toLowerCase (Path.extname (stem ++ "." ++ x)) = e).
    { intros e He Ee. rewrite <- Ee.
      assert (Hx : JS.toLowerCase x <> EmptyString /\
                   Forall ext_body_char
                     (list_ascii_of_string (JS.toLowerCase x))).
      { simpl in He. destruct He as [<-|He];
          [|repeat (destruct He as [<-|He]); try done];
          injection Ee as ->; (split; [done|]);
          repeat constructor; done. }
      destruct Hx. by apply (lower_extname_stem_ext stem x c). }
    split_and!.
    + intros E. apply Hmain. apply Hext; [simpl; auto|]. by rewrite E.
    + intros Hin. apply Hmain. rewrite (Hext ("." ++ JS.toLowerCase x));
        [done| |done]. right. apply in_or_app. by left.
    + intros Hin. apply Hmain. rewrite (Hext ("." ++ JS.toLowerCase x));
        [done| |done]. right. apply in_or_app. by right.
Qed.

(** The classifier at work on a mixed-case name, a name without
    extension and the listed extensions. *)
Lemma getFileType_by_extension_witness :
  getFileType "README" = FT_unknown /\
  getFileType "print-queue/j1_Report.PdF" = FT_pdf /\
  getFileType "notes.DOCX" = FT_document /\
  getFileType "photo.Jpeg" = FT_image.
Proof.
  destruct getFileType_by_extension as (_ & Hnodot & Hcase).
  split.
  { apply Hnodot. repeat constructor; done. }
  split.
  { apply (Hcase "print-queue/j1_Report" "PdF" "t"%char); done. }
  split.
  { apply (Hcase "notes" "DOCX" "s"%char); [done|done|]. simpl. auto. }
  apply (Hcase "photo" "Jpeg" "o"%char); [done|done|]. simpl. auto.
Defined.

Example getFileType_examples :
  getFileType "photo.gif" = FT_unknown /\
  getFileType ".png" = FT_unknown /\
  getFileType "archive.tar.md" = FT_document /\
  getFileType "dir.png/file" = FT_unknown /\
  getFileType "scan.jpg/" = FT_image.
Proof. repeat split; reflexivity. Qed.

(* ===================================================================== *)
(** * Printer health                                                      *)
(* ===================================================================== *)

(** The ordered rule list computes what the conditionals compute. *)
Lemma classify_status_rules (output : string) :
  classify_status output =
  first_rule (fault_rules ++ healthy_rules) output ipp_unsupported.
Proof.
  unfold classify_status, fault_rules, healthy_rules, any_of.
  cbn [app first_rule existsb].
  repeat (match goal with
          | |- context [JS.includes output ?p] =>
              destruct (JS.includes output p)
          end; cbn [orb andb negb]; try reflexivity).
Qed.

Lemma first_rule_app_l rules1 rules2 output otherwise :
  matches_any rules1 output = true ->
  first_rule (rules1 ++ rules2) output otherwise =
  first_rule rules1 output otherwise.
Proof.
  induction rules1 as [|[p h] rules1 IH]; cbn; [done|].
  destruct (p output); [done|]. exact IH.
Qed.

Lemma first_rule_app_r rules1 rules2 output otherwise :
  matches_any rules1 output = false ->
  first_rule (rules1 ++ rules2) output otherwise =
  first_rule rules2 output otherwise.
Proof.
  induction rules1 as [|[p h] rules1 IH]; cbn; [done|].
  destruct (p output); [done|]. exact IH.
Qed.

Lemma first_rule_in rules output otherwise :
  matches_any rules output = true ->
  exists p, In p rules /\ first_rule rules output otherwise = snd p.
Proof.
  induction rules as [|[p h] rules IH]; cbn; [done|].
  destruct (p output) eqn:E.
  - intros _. exists (p, h). auto.
  - intros Hm. destruct (IH Hm) as (q & Hq & Eq). exists q. auto.
Qed.

Lemma fault_rules_error p : In p fault_rules -> status (snd p) = error_.
Proof. unfold fault_rules. simpl. intuition (subst; reflexivity). Qed.

Section PrinterFacts.
Context `{Platform}.

Lemma checkPrinterStatus_queried (name : string) (w : FS) :
  name <> EmptyString ->
  ~ (is_Some (error (exec ("lpstat -p " ++ name ++ " 2>&1") w).1) /\
     stdout (exec ("lpstat -p " ++ name ++ " 2>&1") w).1 = EmptyString) ->
  checkPrinterStatus (Some name) w =
  Resolved (classify_status
     (JS.toLowerCase (stdout (exec ("lpstat -p " ++ name ++ " 2>&1") w).1))).
Proof.
  intros Hname Hq. unfold checkPrinterStatus.
  destruct name as [|c name]; [done|].
  destruct (exec _ w) as [r w'] eqn:E. cbn [fst] in *.
  destruct (bool_decide (is_Some (error r))) eqn:Eerr; cbn [andb]; [|done].
  destruct (stdout r) eqn:Eout; cbn [JS.truthy negb]; [|done].
  exfalso. apply Hq. split; [|done]. by apply bool_decide_eq_true in Eerr.
Qed.

(** C6.  For a configured printer whose status query yields text, the
    health check lower-cases the text and classifies it by the ordered
    rules: the five fault rules (out of paper / media empty, out of ink /
    toner empty, cover open, stopped without idle, offline / not
    connected) come before the healthy rule (idle, processing).  A text
    matching a fault rule is an error whatever else it contains; a text
    matching no fault rule but a healthy phrase is healthy; a text
    matching no rule is unknown / ipp_unsupported. *)
Theorem checkPrinterStatus_ordered_rules (name : string) (w : FS) :
  name <> EmptyString ->
  ~ (is_Some (error (exec ("lpstat -p " ++ name ++ " 2>&1") w).1) /\
     stdout (exec ("lpstat -p " ++ name ++ " 2>&1") w).1 = EmptyString) ->
  exists h output,
    output = JS.toLowerCase
               (stdout (exec ("lpstat -p " ++ name ++ " 2>&1") w).1) /\
    checkPrinterStatus (Some name) w = Resolved h /\
    h = first_rule (fault_rules ++ healthy_rules) output ipp_unsupported /\
    (matches_any fault_rules output = true ->
       status h = error_ /\ h = first_rule fault_rules output ipp_unsupported) /\
    (matches_any fault_rules output = false ->
     matches_any healthy_rules output = true -> h = mkHealth healthy None) /\
    (matches_any fault_rules output = false ->
     matches_any healthy_rules output = false -> h = ipp_unsupported).
Proof.
  intros Hname Hq. eexists _, _. split; [reflexivity|].
  split; [by apply checkPrinterStatus_queried|].
  rewrite classify_status_rules. split; [done|].
  split_and!.
  - intros Hf. rewrite first_rule_app_l by done. split; [|done].
    destruct (first_rule_in _ _ ipp_unsupported Hf) as (p & Hp & ->).
    by apply fault_rules_error.
  - intros Hf Hh. rewrite first_rule_app_r by done.
    unfold healthy_rules, matches_any in *. cbn in *.
    rewrite orb_false_r in Hh. by rewrite Hh.
  - intros Hf Hh. rewrite first_rule_app_r by done.
    unfold healthy_rules, matches_any in *. cbn in *.
    rewrite orb_false_r in Hh. by rewrite Hh.
Qed.

(** C9.  The health check always resolves.  Without a configured printer
    it resolves unknown / no_printer_configured; when the status query
    fails without output it resolves unknown / cups_unavailable. *)
Theorem checkPrinterStatus_always_resolves (printerName : option string)
  (w : FS) :
  exists h,
    checkPrinterStatus printerName w = Resolved h /\
    (JS.truthy_opt printerName = false ->
       h = mkHealth unknown (Some "no_printer_configured")) /\
    (forall name, printerName = Some name -> name <> EmptyString ->
       is_Some (error (exec ("lpstat -p " ++ name ++ " 2>&1") w).1) ->
       stdout (exec ("lpstat -p " ++ name ++ " 2>&1") w).1 = EmptyString ->
       h = mkHealth unknown (Some "cups_unavailable")).
Proof.
  unfold checkPrinterStatus.
  destruct printerName as [[|c name]|].
  - eexists. split; [reflexivity|]. split; [done|]. by intros ? [= <-].
  - destruct (exec _ w) as [r w'] eqn:E.
    destruct (bool_decide (is_Some (error r)) && negb (JS.truthy (stdout r)))
      eqn:Eb.
    + eexists. split; [reflexivity|]. split; [done|]. done.
    + eexists. split; [reflexivity|]. split; [done|].
      intros name' [= <-] _ Herr Hout. rewrite E in Herr, Hout. cbn in *.
      rewrite Hout in Eb. rewrite bool_decide_eq_true_2 in Eb by done. done.
  - eexists. split; [reflexivity|]. split; [done|]. done.
Qed.

End PrinterFacts.

(** A status text with a fault phrase and a healthy phrase at once; a
    stale "stopped" next to "idle" is no fault. *)
Lemma checkPrinterStatus_ordered_rules_witness :
  exists h output,
    output = "printer hp_laserjet is idle.  media tray: out of paper" /\
    @checkPrinterStatus
      (spooler_says "printer HP_LaserJet is idle.  Media tray: Out of paper")
      (Some "HP_LaserJet") ∅ = Resolved h /\
    h = mkHealth error_ (Some "media-empty").
Proof.
  destruct (@checkPrinterStatus_ordered_rules
      (spooler_says "printer HP_LaserJet is idle.  Media tray: Out of paper")
      "HP_LaserJet" ∅) as (h & output & Eo & Er & Eh & Hf & _).
  - done.
  - intros [_ Hout]. vm_compute in Hout. done.
  - exists h, output. split; [exact Eo|]. split; [exact Er|].
    destruct Hf as [_ ->]; [rewrite Eo; reflexivity|].
    rewrite Eo. reflexivity.
Defined.

Lemma checkPrinterStatus_always_resolves_witness :
  (exists h,
     @checkPrinterStatus
       spooler_down
       (Some "HP") ∅ = Resolved h /\
     h = mkHealth unknown (Some "cups_unavailable")) /\
  (exists h,
     @checkPrinterStatus
       spooler_down
       None ∅ = Resolved h /\
     h = mkHealth unknown (Some "no_printer_configured")).
Proof.
  split.
  - destruct (@checkPrinterStatus_always_resolves
      spooler_down
      (Some "HP") ∅) as (h & Er & _ & Hc).
    exists h. split; [exact Er|]. apply (Hc "HP"); [done|done| |done].
    vm_compute. eauto.
  - destruct (@checkPrinterStatus_always_resolves
      spooler_down
      None ∅) as (h & Er & Hn & _).
    exists h. split; [exact Er|]. by apply Hn.
Defined.

Example classify_status_examples :
  classify_status "printer hp is idle.  enabled since mon" = mkHealth healthy None /\
  classify_status "printer hp disabled since mon - stopped; was idle"
    = mkHealth healthy None /\
  classify_status "printer hp now printing hp-12. processing; stopped"
    = mkHealth error_ (Some "stopped") /\
  classify_status "printer hp is idle. the printer is offline."
    = mkHealth error_ (Some "offline") /\
  classify_status "lpstat: invalid destination name" = ipp_unsupported.
Proof. repeat split; reflexivity. Qed.

(* ===================================================================== *)
(** * Image conversion                                                    *)
(* ===================================================================== *)

Section ConvertFacts.
Context `{Platform}.

Lemma tryMagickV6_attempt (args : list string) (out : string) (w : FS) :
  tryMagickV6 args out w =
  match attempt "convert" args out w with
  | (TierOk, w') => (Resolved out, w')
  | (t, w') => (Rejected (last_tier_error t), w')
  end.
Proof.
  unfold tryMagickV6, attempt. cbn [append].
  destruct (exec "which convert" w) as [rw w1].
  destruct (error rw); [done|].
  destruct (execFile "convert" args w1) as [r w2].
  destruct (error r); [done|].
  by destruct (existsSync out w2).
Qed.

Lemma tryMagickV7_attempt (args : list string) (out : string) (w : FS) :
  tryMagickV7 args out w =
  match attempt "magick" args out w with
  | (TierOk, w') => (Resolved out, w')
  | (_, w') => tryMagickV6 args out w'
  end.
Proof.
  unfold tryMagickV7, attempt. cbn [append].
  destruct (exec "which magick" w) as [rw w1].
  destruct (error rw); [done|].
  destruct (execFile "magick" args w1) as [r w2].
  destruct (error r); [done|].
  by destruct (existsSync out w2).
Qed.

Lemma convertImageToPDF_checked (inputPath : string) (w : FS) :
  existsSync inputPath w = true ->
  In (JS.toLowerCase (Path.extname inputPath)) image_exts ->
  convertImageToPDF inputPath w =
  tryMagickV7
    (magick_args inputPath
       (JS.replace inputPath (JS.toLowerCase (Path.extname inputPath)) ".pdf"))
    (JS.replace inputPath (JS.toLowerCase (Path.extname inputPath)) ".pdf") w.
Proof.
  intros He Hi. unfold convertImageToPDF. rewrite He. cbn [negb].
  apply arr_includes_In in Hi. unfold image_exts in Hi. by rewrite Hi.
Qed.

(** C7.  The image conversion tries [magick] first; only when [magick] is
    missing, fails or leaves no output file does it try [convert], on the
    file system the first attempt left; when [convert] is missing too the
    conversion fails with "ImageMagick not found"; and it succeeds only if
    one of the two attempts produced the output file. *)
Theorem convertImageToPDF_two_tiers (inputPath : string) (w : FS) :
  existsSync inputPath w = true ->
  In (JS.toLowerCase (Path.extname inputPath)) image_exts ->
  let out := JS.replace inputPath
               (JS.toLowerCase (Path.extname inputPath)) ".pdf" in
  let args := magick_args inputPath out in
  let first := attempt "magick" args out w in
  let second := attempt "convert" args out first.2 in
  (first.1 = TierOk ->
     convertImageToPDF inputPath w = (Resolved out, first.2)) /\
  (first.1 <> TierOk -> second.1 = TierOk ->
     convertImageToPDF inputPath w = (Resolved out, second.2)) /\
  (first.1 <> TierOk -> second.1 = TierMissing ->
     convertImageToPDF inputPath w =
     (Rejected (ConversionError
        "ImageMagick not found. Install with: sudo apt install imagemagick"
        "image"), second.2)) /\
  (first.1 <> TierOk -> second.1 <> TierOk ->
     convertImageToPDF inputPath w =
     (Rejected (last_tier_error second.1), second.2)) /\
  (forall res w', convertImageToPDF inputPath w = (Resolved res, w') ->
     res = out /\ (first.1 = TierOk \/ second.1 = TierOk)).
Proof.
  intros He Hi out args first second.
  rewrite (convertImageToPDF_checked inputPath w He Hi).
  fold out. fold args. rewrite tryMagickV7_attempt. fold first.
  destruct first as [t1 w1] eqn:E1. cbn [fst snd] in *.
  assert (Hsecond : t1 <> TierOk ->
            (match t1 with
             | TierOk => (Resolved out, w1)
             | _ => tryMagickV6 args out w1
             end) =
            match second with
            | (TierOk, w') => (Resolved out, w')
            | (t, w') => (Rejected (last_tier_error t), w')
            end).
  { intros Hn. subst second. rewrite <- tryMagickV6_attempt.
    by destruct t1. }
  split_and!.
  - by intros ->.
  - intros Hn Hs. rewrite Hsecond by done.
    destruct second as [t2 w2]. cbn in *. by subst.
  - intros Hn Hs. rewrite Hsecond by done.
    destruct second as [t2 w2]. cbn in *. by subst.
  - intros Hn Hs. rewrite Hsecond by done.
    destruct second as [t2 w2]. cbn in *. by destruct t2.
  - intros res w' Hr.
    assert (Ht : t1 = TierOk \/ t1 <> TierOk)
      by (destruct t1; auto; right; done).
    destruct Ht as [->|Hn].
    + injection Hr as <- <-. auto.
    + rewrite Hsecond in Hr by done.
      destruct second as [t2 w2]. cbn in *.
      destruct t2; try done. injection Hr as <- <-. auto.
Qed.

(** Whatever succeeds resolves to the path computed before the tiers
    are tried. *)
Lemma convertImageToPDF_resolved (inputPath : string) (w w' : FS)
  (out : string) :
  convertImageToPDF inputPath w = (Resolved out, w') ->
  existsSync inputPath w = true /\
  In (JS.toLowerCase (Path.extname inputPath)) image_exts /\
  out = JS.replace inputPath (JS.toLowerCase (Path.extname inputPath)) ".pdf".
Proof.
  unfold convertImageToPDF.
  destruct (existsSync inputPath w) eqn:He; cbn [negb]; [|done].
  destruct (JS.arr_includes _ _) eqn:Hi; cbn [negb]; [|done].
  apply arr_includes_In in Hi. intros Hr. split; [done|]. split; [done|].
  rewrite tryMagickV7_attempt in Hr.
  destruct (attempt "magick" _ _ w) as [[] w1]; try by injection Hr.
  all: rewrite tryMagickV6_attempt in Hr;
    destruct (attempt "convert" _ _ w1) as [[] w2]; by injection Hr.
Qed.

End ConvertFacts.

(** On a machine with [convert] only the second tier succeeds; on a
    machine without ImageMagick the conversion reports that it is missing. *)
Lemma convertImageToPDF_two_tiers_witness :
  (exists w',
     @convertImageToPDF (machine_with "convert") "print-queue/j1_photo.png"
       {[ "print-queue/j1_photo.png" ]}
     = (Resolved "print-queue/j1_photo.pdf", w')) /\
  (exists w',
     @convertImageToPDF machine_without_tools "print-queue/j1_photo.png"
       {[ "print-queue/j1_photo.png" ]}
     = (Rejected (ConversionError
          "ImageMagick not found. Install with: sudo apt install imagemagick"
          "image"), w')).
Proof.
  split.
  - destruct (@convertImageToPDF_two_tiers (machine_with "convert")
                "print-queue/j1_photo.png" {[ "print-queue/j1_photo.png" ]})
      as (_ & Hsecond & _).
    + by vm_compute.
    + vm_compute. auto.
    + eexists. apply Hsecond; by vm_compute.
  - destruct (@convertImageToPDF_two_tiers machine_without_tools
                "print-queue/j1_photo.png" {[ "print-queue/j1_photo.png" ]})
      as (_ & _ & Hmissing & _).
    + by vm_compute.
    + vm_compute. auto.
    + eexists. apply Hmissing; by vm_compute.
Defined.

(** ** The output path of the image conversion *)

Lemma image_ext_length (e' : string) :
  In e' image_exts -> (4 <= String.length e')%nat.
Proof. unfold image_exts. simpl. intuition (subst; simpl; lia). Qed.

(** Replacing an occurrence that starts inside the stem never yields the
    sibling [stem.pdf]. *)
Lemma replace_inside_stem (stem e e' : string) (i : nat) :
  In e' image_exts ->
  JS.indexOf (stem ++ e) e' = Some i -> (i < String.length stem)%nat ->
  JS.replace (stem ++ e) e' ".pdf" <> stem ++ ".pdf".
Proof.
  intros He' Hi Hlt.
  destruct (replace_at _ _ ".pdf" _ Hi) as (d & Hd & ->).
  rewrite take_app_le by lia. rewrite drop_app_le in Hd by lia.
  rewrite <- (take_drop_s i stem) at 2.
  assert (Hrest : (1 <= String.length (JS.drop i stem))%nat)
    by (rewrite length_drop; lia).
  set (rest := JS.drop i stem) in *. clearbody rest.
  rewrite app_assoc_s. intros Heq. apply app_inv_head_s in Heq.
  unfold image_exts in He'. simpl in He'.
  destruct rest as [|c1 [|c2 [|c3 [|c4 rest]]]]; simpl in *;
    try lia; try discriminate.
  injection Heq as <- <- <- <- Heq.
  destruct He' as [<-|[<-|[<-|[]]]]; simpl in Hd; discriminate.
Qed.

(** C10.  A successful image conversion resolves to the input path with
    the leftmost occurrence of its lower-cased extension replaced by
    [.pdf].  When that leftmost occurrence is the extension at the end of
    the path, the result is the path with its extension replaced by
    [.pdf]; when it lies earlier in the path, or when the extension on
    disk is not lower-case, the result is a different path. *)
Theorem convertImageToPDF_output_path `{Platform} (inputPath : string)
  (w w' : FS) (out : string) :
  convertImageToPDF inputPath w = (Resolved out, w') ->
  out = JS.replace inputPath (JS.toLowerCase (Path.extname inputPath)) ".pdf"
  /\ (forall stem,
        inputPath = stem ++ JS.toLowerCase (Path.extname inputPath) ->
        JS.indexOf inputPath (JS.toLowerCase (Path.extname inputPath))
          = Some (String.length stem) ->
        out = stem ++ ".pdf")
  /\ (forall stem,
        inputPath = stem ++ Path.extname inputPath ->
        (exists i,
           JS.indexOf inputPath (JS.toLowerCase (Path.extname inputPath))
             = Some i /\ (i < String.length stem)%nat)
        \/ Path.extname inputPath <> JS.toLowerCase (Path.extname inputPath) ->
        out <> stem ++ ".pdf").
Proof.
  intros Hr. apply convertImageToPDF_resolved in Hr as (_ & He' & ->).
  set (e := Path.extname inputPath) in *.
  set (e' := JS.toLowerCase e) in *.
  split; [done|]. split.
  - intros stem Hp Hi.
    destruct (replace_at _ _ ".pdf" _ Hi) as (d & Hd & ->).
    rewrite Hp in Hd. rewrite drop_app_s in Hd.
    assert (d = EmptyString) as ->.
    { apply (f_equal String.length) in Hd. rewrite length_app_s in Hd.
      apply length_zero_s. lia. }
    rewrite Hp at 1. by rewrite take_app_s.
  - intros stem Hp Hcase.
    assert (Hlen : String.length e' = String.length e)
      by apply length_toLowerCase.
    assert (Hinside : forall i, JS.indexOf inputPath e' = Some i ->
              (i < String.length stem)%nat ->
              JS.replace inputPath e' ".pdf" <> stem ++ ".pdf").
    { intros i Hi Hlt. rewrite Hp in Hi |- *.
      by apply (replace_inside_stem stem e e' i). }
    destruct Hcase as [(i & Hi & Hlt)|Hne]; [by apply (Hinside i)|].
    destruct (JS.indexOf inputPath e') as [i|] eqn:Hi.
    + destruct (Nat.lt_ge_cases i (String.length stem)) as [Hlt|Hge];
        [by apply (Hinside i)|].
      exfalso. apply Hne.
      apply indexOf_Some in Hi as (d & Hd & Hle).
      assert (Hl := f_equal String.length Hd).
      rewrite length_drop, length_app_s in Hl.
      rewrite Hp, length_app_s in Hl, Hle.
      assert (i = String.length stem) as -> by lia.
      rewrite Hp, drop_app_s in Hd.
      assert (d = EmptyString) as -> by (apply length_zero_s; lia).
      by rewrite app_empty_r in Hd.
    + rewrite replace_absent by done. rewrite Hp at 1.
      intros Heq. apply app_inv_head_s in Heq.
      unfold e' in He'. rewrite Heq in He'. unfold image_exts in He'.
      simpl in He'. intuition discriminate.
Qed.

(** The three cases on a machine with ImageMagick 7. *)
Lemma convertImageToPDF_output_path_witness :
  (exists out,
     (@convertImageToPDF (machine_with "magick") "print-queue/j1_photo.png"
        {[ "print-queue/j1_photo.png" ]}).1 = Resolved out /\
     out = "print-queue/j1_photo" ++ ".pdf") /\
  (exists out,
     (@convertImageToPDF (machine_with "magick") "print-queue/j.png_x.png"
        {[ "print-queue/j.png_x.png" ]}).1 = Resolved out /\
     out <> "print-queue/j.png_x" ++ ".pdf") /\
  (exists out,
     (@convertImageToPDF (machine_with "magick") "print-queue/j1_photo.PNG"
        {[ "print-queue/j1_photo.PNG" ]}).1 = Resolved out /\
     out <> "print-queue/j1_photo" ++ ".pdf").
Proof.
  assert (Hrun : forall p out,
            (@convertImageToPDF (machine_with "magick") p {[ p ]}).1
              = Resolved out ->
            @convertImageToPDF (machine_with "magick") p {[ p ]}
              = (Resolved out,
                 (@convertImageToPDF (machine_with "magick") p {[ p ]}).2)).
  { intros p out E. rewrite <- E. apply surjective_pairing. }
  split; [|split].
  - exists "print-queue/j1_photo.pdf". split; [by vm_compute|].
    destruct (@convertImageToPDF_output_path (machine_with "magick")
                _ _ _ _ (Hrun "print-queue/j1_photo.png" "print-queue/j1_photo.pdf"
                   ltac:(by vm_compute)))
      as (_ & Hend & _).
    apply Hend; by vm_compute.
  - exists "print-queue/j.pdf_x.png". split; [by vm_compute|].
    destruct (@convertImageToPDF_output_path (machine_with "magick")
                _ _ _ _ (Hrun "print-queue/j.png_x.png" "print-queue/j.pdf_x.png"
                   ltac:(by vm_compute)))
      as (_ & _ & Hother).
    apply Hother; [by vm_compute|]. left. exists 13%nat.
    split; [by vm_compute|]. vm_compute. lia.
  - exists "print-queue/j1_photo.PNG". split; [by vm_compute|].
    destruct (@convertImageToPDF_output_path (machine_with "magick")
                _ _ _ _ (Hrun "print-queue/j1_photo.PNG" "print-queue/j1_photo.PNG"
                   ltac:(by vm_compute)))
      as (_ & _ & Hother).
    apply Hother; [by vm_compute|]. right. by vm_compute.
Defined.

Example convertImageToPDF_examples :
  (@convertImageToPDF (machine_with "magick") "print-queue/j1_photo.png"
     {[ "print-queue/j1_photo.png" ]}).1
    = Resolved "print-queue/j1_photo.pdf" /\
  (@convertImageToPDF (machine_with "magick") "print-queue/j.png_x.png"
     {[ "print-queue/j.png_x.png" ]}).1
    = Resolved "print-queue/j.pdf_x.png" /\
  (@convertImageToPDF (machine_with "magick") "print-queue/j1_photo.PNG"
     {[ "print-queue/j1_photo.PNG" ]}).1
    = Resolved "print-queue/j1_photo.PNG" /\
  (@convertImageToPDF (machine_with "magick") "print-queue/j1_photo.gif"
     {[ "print-queue/j1_photo.gif" ]}).1
    = Rejected (ConversionError "Unsupported image format: .gif" "image").
Proof. repeat split; by vm_compute. Qed.

(* ===================================================================== *)
(** * Printer resolution                                                  *)
(* ===================================================================== *)

Lemma split_one_line (l : string) :
  one_line l -> JS.split LF l = [l].
Proof.
  induction l as [|c l IH]; intros Hl; [done|].
  inversion Hl as [|? ? Hc Hrest]; subst. cbn [JS.split].
  destruct (Ascii.eqb_spec c LF); [done|]. by rewrite IH.
Qed.

Lemma split_line_more (l rest : string) :
  one_line l -> JS.split LF (l ++ String LF rest) = l :: JS.split LF rest.
Proof.
  induction l as [|c l IH]; intros Hl.
  - cbn. change (Ascii.eqb LF LF) with true. done.
  - inversion Hl as [|? ? Hc Hrest]; subst. cbn [append JS.split].
    destruct (Ascii.eqb_spec c LF); [done|]. by rewrite IH.
Qed.

Lemma split_lines (ls : list string) :
  Forall one_line ls -> ls <> [] -> JS.split LF (lines ls) = ls.
Proof.
  induction ls as [|l ls IH]; intros Hall Hne; [done|].
  inversion Hall; subst. unfold lines. cbn [String.concat].
  destruct ls as [|l' ls].
  - by apply split_one_line.
  - cbn [append]. rewrite split_line_more by done. f_equal. by apply IH.
Qed.

(** What the [forEach] accumulates. *)
Lemma scan_lines_no_default (ls : list string) : forall d av,
  Forall (fun l => is_default_line l = false) ls ->
  (fold_left scan_line ls (d, av)).1 = d.
Proof.
  induction ls as [|l ls IH]; intros d av Hall; [done|].
  inversion Hall as [|? ? Hl Hrest]; subst. cbn [fold_left].
  unfold scan_line at 2. unfold is_default_line in Hl. rewrite Hl.
  destruct (JS.startsWith l "printer "); [|by apply IH].
  destruct (match_printer l); by apply IH.
Qed.

Lemma scan_lines_no_printer (ls : list string) : forall d av,
  Forall (fun l => is_default_line l = false) ls ->
  Forall (fun l => is_printer_line l = false) ls ->
  fold_left scan_line ls (d, av) = (d, av).
Proof.
  induction ls as [|l ls IH]; intros d av Hd Hp; [done|].
  inversion Hd as [|? ? Hl Hrest]; subst.
  inversion Hp as [|? ? Hl' Hrest']; subst. cbn [fold_left].
  unfold scan_line at 2. unfold is_default_line in Hl. rewrite Hl.
  unfold is_printer_line in Hl'. rewrite Hl'. by apply IH.
Qed.

Lemma scan_lines_available_head (ls : list string) : forall d a av,
  exists av', (fold_left scan_line ls (d, a :: av)).2 = a :: av'.
Proof.
  induction ls as [|l ls IH]; intros d a av; [by exists av|].
  cbn [fold_left]. unfold scan_line at 2.
  destruct (JS.startsWith l "system default destination:"); [apply IH|].
  destruct (JS.startsWith l "printer "); [|apply IH].
  destruct (match_printer l); apply IH.
Qed.

Lemma scan_lines_same_default (ls : list string) (x : string) :
  forall d av,
  Forall (fun l => is_default_line l = true ->
            JS.trim (nth 1 (JS.split ":" l) EmptyString) = x) ls ->
  (fold_left scan_line ls (d, av)).1 = d \/
  (fold_left scan_line ls (d, av)).1 = Some x.
Proof.
  induction ls as [|l ls IH]; intros d av Hall; [by left|].
  inversion Hall as [|? ? Hl Hrest]; subst. cbn [fold_left].
  unfold scan_line at 2 4. unfold is_default_line in Hl.
  destruct (JS.startsWith l "system default destination:").
  - rewrite Hl by done. right.
    destruct (IH (Some x) av Hrest) as [E|E]; exact E.
  - destruct (JS.startsWith l "printer "); [|by apply IH].
    destruct (match_printer l); by apply IH.
Qed.

Lemma scan_lines_default_seen (ls : list string) (x : string) :
  forall d av,
  Forall (fun l => is_default_line l = true ->
            JS.trim (nth 1 (JS.split ":" l) EmptyString) = x) ls ->
  Exists (fun l => is_default_line l = true) ls ->
  (fold_left scan_line ls (d, av)).1 = Some x.
Proof.
  induction ls as [|l ls IH]; intros d av Hall Hex;
    [by apply Exists_nil in Hex|].
  inversion Hall as [|? ? Hl Hrest]; subst. cbn [fold_left].
  unfold scan_line at 2. unfold is_default_line in Hl.
  destruct (JS.startsWith l "system default destination:") eqn:E.
  - rewrite Hl by done.
    destruct (scan_lines_same_default ls x (Some x) av Hrest) as [E'|E'];
      exact E'.
  - apply Exists_cons in Hex as [Hex|Hex];
      [unfold is_default_line in Hex; congruence|].
    destruct (JS.startsWith l "printer "); [|by apply IH].
    destruct (match_printer l); by apply IH.
Qed.

(** Parsing a well-formed default line and a well-formed printer line. *)
Lemma split_colon_free (s : string) :
  Forall (fun c => c <> ":"%char) (list_ascii_of_string s) ->
  JS.split ":" s = [s].
Proof.
  induction s as [|c s IH]; intros Hs; [done|].
  inversion Hs; subst. cbn [JS.split].
  destruct (Ascii.eqb_spec c ":"); [done|]. by rewrite IH.
Qed.

Lemma trimStart_name (s : string) : dest_name s -> JS.trimStart s = s.
Proof.
  intros [Hne Hall]. destruct s as [|c s]; [done|].
  inversion Hall as [|? ? [Hc _] _]; subst. cbn. by rewrite Hc.
Qed.

Lemma trimEnd_name (s : string) :
  Forall name_char (list_ascii_of_string s) -> JS.trimEnd s = s.
Proof.
  induction s as [|c s IH]; intros Hall; [done|].
  inversion Hall as [|? ? [Hc _] Hrest]; subst. cbn [JS.trimEnd].
  rewrite IH by done. destruct s; [by rewrite Hc|done].
Qed.

Lemma default_line_parsed (d : string) :
  dest_name d ->
  JS.trim (nth 1 (JS.split ":" (default_line d)) EmptyString) = d.
Proof.
  intros Hd. unfold default_line.
  change (JS.split ":" ("system default destination: " ++ d))
    with ("system default destination" :: JS.split ":" (" " ++ d)).
  rewrite split_colon_free.
  - cbn [nth]. unfold JS.trim. cbn [append JS.trimStart].
    change (JS.is_space " ") with true. cbv iota.
    rewrite trimStart_name by done. apply trimEnd_name, Hd.
  - cbn. constructor; [done|]. destruct Hd as [_ Hall].
    eapply Forall_impl; [exact Hall|]. by intros c [_ Hc].
Qed.

Lemma non_space_run_name (name rest : string) :
  Forall name_char (list_ascii_of_string name) ->
  non_space_run (name ++ " " ++ rest) = name.
Proof.
  induction name as [|c name IH]; intros Hall; [done|].
  inversion Hall as [|? ? [Hc _] Hrest]; subst. cbn. rewrite Hc.
  f_equal. by apply IH.
Qed.

Lemma printer_line_parsed (name rest : string) :
  dest_name name -> match_printer (printer_line name rest) = Some name.
Proof.
  intros Hn. unfold printer_line.
  assert (Hhere : match_printer_here ("printer " ++ name ++ " " ++ rest)
                  = Some name).
  { unfold match_printer_here. cbn [append JS.startsWith Ascii.eqb Bool.eqb
      andb JS.drop].
    change (JS.is_space " ") with true. cbv iota.
    assert (Ht : JS.trimStart (name ++ " " ++ rest) = name ++ " " ++ rest).
    { destruct Hn as [Hne Hall]. destruct name as [|c name]; [done|].
      inversion Hall as [|? ? [Hc _] _]; subst. cbn. by rewrite Hc. }
    change (name ++ String " " rest) with (name ++ " " ++ rest).
    rewrite Ht, non_space_run_name by apply Hn.
    destruct Hn as [Hne _]. by destruct name. }
  destruct ("printer " ++ name ++ " " ++ rest) eqn:E;
    cbn [match_printer]; by rewrite Hhere.
Qed.

Lemma scan_lines_first_printer (pre post : list string) (name rest : string) :
  Forall (fun l => is_default_line l = false)
    (pre ++ printer_line name rest :: post) ->
  Forall (fun l => is_printer_line l = false) pre ->
  dest_name name ->
  exists av,
    fold_left scan_line (pre ++ printer_line name rest :: post) (None, [])
    = (None, name :: av).
Proof.
  intros Hd Hp Hn. rewrite fold_left_app.
  apply Forall_app in Hd as [Hd1 Hd2].
  rewrite scan_lines_no_printer by done.
  inversion Hd2 as [|? ? Hl Hrest]; subst. cbn [fold_left].
  unfold scan_line at 2. unfold is_default_line in Hl. rewrite Hl.
  change (JS.startsWith (printer_line name rest) "printer ") with true.
  cbv iota. rewrite printer_line_parsed by done. cbn [app].
  destruct (scan_lines_available_head post None name []) as (av & Eav).
  exists av. rewrite (surjective_pairing (fold_left _ _ _)). f_equal; [|done].
  by apply scan_lines_no_default.
Qed.

Lemma split_at_separator (sep : ascii) (a b : string) :
  Forall (fun c => c <> sep) (list_ascii_of_string a) ->
  JS.split sep (a ++ String sep b) = a :: JS.split sep b.
Proof.
  induction a as [|c a IH]; intros Ha.
  - cbn. by rewrite Ascii.eqb_refl.
  - inversion Ha as [|? ? Hc Hrest]; subst. cbn [append JS.split].
    destruct (Ascii.eqb_spec c sep); [done|]. by rewrite IH.
Qed.

(** The field that [line.split(':')[1]] takes from a default line whose
    text after the first colon holds a second colon. *)
Lemma default_field_cut (field tail : string) :
  Forall (fun c => c <> ":"%char) (list_ascii_of_string field) ->
  nth 1 (JS.split ":"
           ("system default destination:" ++ field ++ ":" ++ tail))
    EmptyString = field.
Proof.
  intros Hf.
  change ("system default destination:" ++ field ++ ":" ++ tail)
    with ("system default destination"
          ++ String ":" (field ++ String ":" tail)).
  rewrite split_at_separator by (repeat constructor; done).
  by rewrite split_at_separator.
Qed.

(** The field that [line.split(':')[1]] takes from a default line. *)
Lemma before_colon_head (r : string) :
  nth 0 (JS.split ":" r) EmptyString = before_colon r.
Proof.
  induction r as [|c r IH]; [done|]. cbn [JS.split before_colon].
  destruct (Ascii.eqb c ":"); [done|].
  destruct (JS.split ":" r) as [|x xs]; cbn [nth] in *; by rewrite <- IH.
Qed.

Lemma default_field (l : string) :
  is_default_line l = true ->
  JS.trim (nth 1 (JS.split ":" l) EmptyString) = default_name l.
Proof.
  intros Hl. apply startsWith_spec in Hl as (r & ->). unfold default_name.
  change (JS.split ":" ("system default destination:" ++ r))
    with ("system default destination" :: JS.split ":" r).
  change (JS.drop 27 ("system default destination:" ++ r)) with r.
  cbn [nth]. by rewrite before_colon_head.
Qed.

Lemma default_line_not_printer (l : string) :
  is_default_line l = true -> is_printer_line l = false.
Proof. intros Hl. by apply startsWith_spec in Hl as (r & ->). Qed.

(** The word that the regular expression captures on a printer line. *)
Lemma non_space_run_trimStart (r : string) :
  non_space_run (JS.trimStart r) = EmptyString -> JS.trimStart r = EmptyString.
Proof.
  induction r as [|c r IH]; [done|]. cbn [JS.trimStart].
  destruct (JS.is_space c) eqn:E; [exact IH|].
  cbn [non_space_run]. by rewrite E.
Qed.

Lemma match_printer_skip (c : ascii) (s : string) :
  Ascii.eqb c "p" = false ->
  match_printer (String c s) = match_printer s.
Proof.
  intros Hc. cbn [match_printer]. unfold match_printer_here at 1.
  cbn [JS.startsWith]. rewrite Ascii.eqb_sym, Hc. done.
Qed.

Lemma match_printer_blank (s : string) :
  JS.trimStart s = EmptyString -> match_printer s = None.
Proof.
  induction s as [|c s IH]; [done|]. cbn [JS.trimStart].
  destruct (JS.is_space c) eqn:E; [|done]. intros Hs.
  rewrite match_printer_skip; [by apply IH|].
  destruct (Ascii.eqb_spec c "p") as [->|]; [by vm_compute in E|done].
Qed.

Lemma match_printer_word (l : string) :
  is_printer_line l = true ->
  match_printer l
  = if JS.truthy (printer_word l) then Some (printer_word l) else None.
Proof.
  intros Hl. apply startsWith_spec in Hl as (r & ->). unfold printer_word.
  change (JS.drop 8 ("printer " ++ r)) with r.
  assert (Hhere : match_printer_here ("printer " ++ r)
                  = match non_space_run (JS.trimStart r) with
                    | EmptyString => None
                    | name => Some name
                    end) by done.
  change ("printer " ++ r) with (String "p" ("rinter " ++ r)) in *.
  cbn [match_printer]. rewrite Hhere.
  destruct (non_space_run (JS.trimStart r)) as [|c name] eqn:E; [|done].
  cbn [JS.truthy].
  change ("rinter " ++ r) with (String "r" (String "i" (String "n"
    (String "t" (String "e" (String "r" (String " " r))))))).
  rewrite !match_printer_skip by done.
  by apply match_printer_blank, non_space_run_trimStart.
Qed.

(** What the [forEach] accumulates, for every listing. *)
Lemma announced_default_cons (l : string) (ls : list string) :
  announced_default (l :: ls)
  = match announced_default ls with
    | Some d => Some d
    | None => if is_default_line l then Some (default_name l) else None
    end.
Proof.
  unfold announced_default. cbn [List.filter].
  destruct (is_default_line l); [|by destruct (last _)].
  rewrite last_cons. by destruct (last _).
Qed.

Lemma listed_printers_cons (l : string) (ls : list string) :
  listed_printers (l :: ls)
  = ((if (is_printer_line l && JS.truthy (printer_word l))%bool
      then [printer_word l] else []) ++ listed_printers ls)%list.
Proof.
  unfold listed_printers. cbn [List.filter].
  destruct (is_printer_line l); [|done]. cbn [map List.filter andb].
  by destruct (JS.truthy (printer_word l)).
Qed.

Lemma scan_lines_read (ls : list string) : forall d av,
  fold_left scan_line ls (d, av)
  = (match announced_default ls with Some x => Some x | None => d end,
     (av ++ listed_printers ls)%list).
Proof.
  induction ls as [|l ls IH]; intros d av; [by rewrite app_nil_r|].
  cbn [fold_left]. rewrite announced_default_cons, listed_printers_cons.
  unfold scan_line at 2.
  destruct (is_default_line l) eqn:Ed; unfold is_default_line in Ed;
    rewrite Ed.
  - rewrite (default_line_not_printer l Ed). cbn [andb app].
    rewrite IH, default_field by done. by destruct (announced_default ls).
  - destruct (is_printer_line l) eqn:Ep; unfold is_printer_line in Ep;
      rewrite Ep; cbn [andb];
      [|rewrite IH; by destruct (announced_default ls)].
    rewrite match_printer_word by done.
    destruct (JS.truthy (printer_word l)); rewrite IH;
      destruct (announced_default ls); by rewrite <- ?app_assoc.
Qed.

Lemma app_colon_neq (d tail : string) : d <> d ++ ":" ++ tail.
Proof. induction d as [|c d IH]; [done|]. cbn. by intros [= E]. Qed.

Section DetectFacts.
Context `{Platform}.

Lemma detectPrinter_parsed (w : FS) :
  error (exec "lpstat -p -d" w).1 = None ->
  detectPrinter "auto" w =
  let acc := fold_left scan_line
               (JS.split LF (stdout (exec "lpstat -p -d" w).1)) (None, []) in
  if JS.truthy_opt acc.1 then
    match acc.1 with
    | Some d => Resolved d
    | None => Rejected (PrinterError "No printers found" None)
    end
  else match acc.2 with
       | firstPrinter :: _ => Resolved firstPrinter
       | [] => Rejected (PrinterError "No printers found" None)
       end.
Proof.
  intros He. unfold detectPrinter. cbn [String.eqb Ascii.eqb Bool.eqb negb].
  destruct (exec "lpstat -p -d" w) as [r w']. cbn [fst] in *. rewrite He.
  by destruct (fold_left _ _ _).
Qed.

(** C5 (the code departs from the claim).  Printer resolution: a
    configured name other than "auto" is returned as it is, without
    asking the spooler; when the spooler cannot be queried, the error
    "No printers available".  For "auto" the listing is read line by
    line: the default is the text between the first and the second colon
    of the last line [system default destination: ...], trimmed; if
    there is such a line and that text is not blank, it is the answer,
    otherwise the first word that follows [printer] on a printer line
    is, and the different error "No printers found" when there is none.
    So a default destination whose name holds no colon is resolved as
    the claim says, and one whose name holds a colon is not: the part of
    the name before the colon is resolved in its place.  Without a
    default line the first printer of the listing is resolved, and "No
    printers found" when the listing names none. *)
Theorem detectPrinter_resolution :
  (forall (printerName : string) (w : FS),
     printerName <> "auto" -> detectPrinter printerName w = Resolved printerName)
  /\ (forall w : FS,
        error (exec "lpstat -p -d" w).1 <> None ->
        detectPrinter "auto" w
        = Rejected (PrinterError "No printers available" None))
  /\ (forall (w : FS) (ls : list string),
        error (exec "lpstat -p -d" w).1 = None ->
        stdout (exec "lpstat -p -d" w).1 = lines ls ->
        Forall one_line ls ->
        detectPrinter "auto" w
        = match announced_default ls with
          | Some (String c d) => Resolved (String c d)
          | _ =>
              match listed_printers ls with
              | firstPrinter :: _ => Resolved firstPrinter
              | [] => Rejected (PrinterError "No printers found" None)
              end
          end)
  /\ (forall (w : FS) (ls : list string) (d : string),
        error (exec "lpstat -p -d" w).1 = None ->
        stdout (exec "lpstat -p -d" w).1 = lines ls ->
        Forall one_line ls ->
        dest_name d ->
        In (default_line d) ls ->
        (forall l, In l ls -> is_default_line l = true -> l = default_line d) ->
        detectPrinter "auto" w = Resolved d)
  /\ (forall (w : FS) (ls : list string) (d tail : string),
        error (exec "lpstat -p -d" w).1 = None ->
        stdout (exec "lpstat -p -d" w).1 = lines ls ->
        Forall one_line ls ->
        dest_name d ->
        In (default_line (d ++ ":" ++ tail)) ls ->
        (forall l, In l ls -> is_default_line l = true ->
           l = default_line (d ++ ":" ++ tail)) ->
        detectPrinter "auto" w = Resolved d /\ d <> d ++ ":" ++ tail)
  /\ (forall (w : FS) (pre post : list string) (name rest : string),
        error (exec "lpstat -p -d" w).1 = None ->
        stdout (exec "lpstat -p -d" w).1
          = lines (pre ++ printer_line name rest :: post) ->
        Forall one_line (pre ++ printer_line name rest :: post) ->
        Forall (fun l => is_default_line l = false)
          (pre ++ printer_line name rest :: post) ->
        Forall (fun l => is_printer_line l = false) pre ->
        dest_name name ->
        detectPrinter "auto" w = Resolved name)
  /\ (forall (w : FS) (ls : list string),
        error (exec "lpstat -p -d" w).1 = None ->
        stdout (exec "lpstat -p -d" w).1 = lines ls ->
        Forall one_line ls ->
        Forall (fun l => is_default_line l = false) ls ->
        Forall (fun l => is_printer_line l = false) ls ->
        detectPrinter "auto" w
        = Rejected (PrinterError "No printers found" None))
  /\ PrinterError "No printers available" None
     <> PrinterError "No printers found" None.
Proof.
  split_and!.
  - intros printerName w Hn. unfold detectPrinter.
    destruct (String.eqb_spec printerName "auto"); done.
  - intros w He. unfold detectPrinter.
    cbn [String.eqb Ascii.eqb Bool.eqb negb].
    destruct (exec "lpstat -p -d" w) as [r w']. cbn [fst] in *.
    by destruct (error r).
  - intros w ls He Hout Hls.
    rewrite detectPrinter_parsed by done. rewrite Hout. cbv zeta.
    destruct ls as [|l ls]; [done|].
    rewrite split_lines by done. rewrite scan_lines_read.
    cbn [fst snd app].
    by destruct (announced_default (l :: ls)) as [[|c d]|].
  - intros w ls d He Hout Hls Hd Hin Huniq.
    rewrite detectPrinter_parsed by done. rewrite Hout.
    rewrite split_lines; [|done|by destruct ls].
    cbv zeta.
    rewrite (scan_lines_default_seen ls d).
    + destruct Hd as [Hne _]. destruct d; done.
    + apply Forall_forall. intros l Hl Hdl.
      rewrite (Huniq l) by (by apply list_elem_of_In || done).
      by apply default_line_parsed.
    + apply Exists_exists. exists (default_line d).
      split; [by apply list_elem_of_In|done].
  - intros w ls d tail He Hout Hls Hd Hin Huniq.
    split; [|apply app_colon_neq].
    rewrite detectPrinter_parsed by done. rewrite Hout.
    rewrite split_lines; [|done|by destruct ls].
    cbv zeta.
    rewrite (scan_lines_default_seen ls d).
    + destruct Hd as [Hne _]. destruct d; done.
    + apply Forall_forall. intros l Hl Hdl.
      rewrite (Huniq l) by (by apply list_elem_of_In || done).
      unfold default_line.
      change ("system default destination: " ++ d ++ ":" ++ tail)
        with ("system default destination:" ++ (" " ++ d) ++ ":" ++ tail).
      rewrite default_field_cut.
      * unfold JS.trim. cbn [append JS.trimStart].
        change (JS.is_space " ") with true. cbv iota.
        rewrite trimStart_name by done. apply trimEnd_name, Hd.
      * cbn. constructor; [done|]. destruct Hd as [_ Hall].
        eapply Forall_impl; [exact Hall|]. by intros c [_ Hc].
    + apply Exists_exists. exists (default_line (d ++ ":" ++ tail)).
      split; [by apply list_elem_of_In|done].
  - intros w pre post name rest He Hout Hls Hnd Hnp Hn.
    rewrite detectPrinter_parsed by done. rewrite Hout.
    rewrite split_lines; [|done|by destruct pre].
    destruct (scan_lines_first_printer pre post name rest Hnd Hnp Hn)
      as (av & ->).
    done.
  - intros w ls He Hout Hls Hnd Hnp.
    rewrite detectPrinter_parsed by done. rewrite Hout.
    destruct ls as [|l ls]; [done|].
    rewrite split_lines by done.
    by rewrite scan_lines_no_printer.
  - done.
Qed.

End DetectFacts.

(** An unreachable spooler; the listing of a spooler with two printers
    and a default, of one whose default destination is named with a
    colon, of one without default, and of one without printers. *)
Lemma detectPrinter_resolution_witness :
  @detectPrinter spooler_down "Office_HP" ∅ = Resolved "Office_HP" /\
  @detectPrinter spooler_down "auto" ∅
    = Rejected (PrinterError "No printers available" None) /\
  @detectPrinter
     (spooler_says (lines ["printer Canon_TS is idle.  enabled since Mon";
                           "printer HP_LaserJet is idle.  enabled since Tue";
                           "system default destination: HP_LaserJet"]))
     "auto" ∅ = Resolved "HP_LaserJet" /\
  (@detectPrinter
     (spooler_says (lines ["printer Office:2 is idle.  enabled since Mon";
                           "system default destination: Office:2"]))
     "auto" ∅ = Resolved "Office" /\ "Office" <> "Office:2") /\
  @detectPrinter
     (spooler_says (lines ["printer Canon_TS is idle.  enabled since Mon";
                           "system default destination:  ";
                           "printer HP_LaserJet is idle.  enabled since Tue"]))
     "auto" ∅ = Resolved "Canon_TS" /\
  @detectPrinter
     (spooler_says (lines ["printer Canon_TS is idle.  enabled since Mon";
                           "printer HP_LaserJet is idle.  enabled since Tue";
                           "no system default destination"]))
     "auto" ∅ = Resolved "Canon_TS" /\
  @detectPrinter (spooler_says (lines ["no system default destination"]))
     "auto" ∅ = Rejected (PrinterError "No printers found" None).
Proof.
  split_and!.
  - destruct (@detectPrinter_resolution spooler_down) as (Hname & _).
    by apply Hname.
  - destruct (@detectPrinter_resolution spooler_down) as (_ & Hdown & _).
    by apply Hdown.
  - destruct (@detectPrinter_resolution (spooler_says
       (lines ["printer Canon_TS is idle.  enabled since Mon";
               "printer HP_LaserJet is idle.  enabled since Tue";
               "system default destination: HP_LaserJet"])))
      as (_ & _ & _ & Hdefault & _).
    apply (Hdefault ∅
             ["printer Canon_TS is idle.  enabled since Mon";
              "printer HP_LaserJet is idle.  enabled since Tue";
              "system default destination: HP_LaserJet"]).
    + reflexivity.
    + reflexivity.
    + repeat constructor; by vm_compute.
    + split; [done|]. repeat constructor; by vm_compute.
    + right. right. left. reflexivity.
    + intros l Hl Hd. cbn in Hl.
      destruct Hl as [<-|[<-|[<-|[]]]]; by vm_compute in Hd.
  - destruct (@detectPrinter_resolution (spooler_says
       (lines ["printer Office:2 is idle.  enabled since Mon";
               "system default destination: Office:2"])))
      as (_ & _ & _ & _ & Hcut & _).
    apply (Hcut ∅
             ["printer Office:2 is idle.  enabled since Mon";
              "system default destination: Office:2"] "Office" "2").
    + reflexivity.
    + reflexivity.
    + repeat constructor; by vm_compute.
    + split; [done|]. repeat constructor; by vm_compute.
    + right. left. reflexivity.
    + intros l Hl Hd. cbn in Hl.
      destruct Hl as [<-|[<-|[]]]; by vm_compute in Hd.
  - done.
  - destruct (@detectPrinter_resolution (spooler_says
       (lines ["printer Canon_TS is idle.  enabled since Mon";
               "system default destination:  ";
               "printer HP_LaserJet is idle.  enabled since Tue"])))
      as (_ & _ & Hread & _).
    etrans;
      [apply (Hread ∅
                ["printer Canon_TS is idle.  enabled since Mon";
                 "system default destination:  ";
                 "printer HP_LaserJet is idle.  enabled since Tue"])
      |by vm_compute].
    + reflexivity.
    + reflexivity.
    + repeat constructor; by vm_compute.
  - destruct (@detectPrinter_resolution (spooler_says
       (lines ["printer Canon_TS is idle.  enabled since Mon";
               "printer HP_LaserJet is idle.  enabled since Tue";
               "no system default destination"])))
      as (_ & _ & _ & _ & _ & Hfirst & _).
    apply (Hfirst ∅ []
             ["printer HP_LaserJet is idle.  enabled since Tue";
              "no system default destination"]
             "Canon_TS" "is idle.  enabled since Mon").
    + reflexivity.
    + reflexivity.
    + repeat constructor; by vm_compute.
    + repeat constructor.
    + constructor.
    + split; [done|]. repeat constructor; by vm_compute.
  - destruct (@detectPrinter_resolution (spooler_says
       (lines ["no system default destination"])))
      as (_ & _ & _ & _ & _ & _ & Hnone & _).
    apply (Hnone ∅ ["no system default destination"]).
    + reflexivity.
    + reflexivity.
    + repeat constructor; by vm_compute.
    + repeat constructor.
    + repeat constructor.
Defined.

(* ===================================================================== *)
(** * The pending map                                                     *)
(* ===================================================================== *)

Section MapFacts.
Context {V : Type}.
Implicit Types (m : list (string * V)) (k : string) (v : V).

Lemma get_head k v m : JSMap.get k ((k, v) :: m) = Some v.
Proof. cbn. by rewrite String.eqb_refl. Qed.

Lemma first_key_get m k :
  JSMap.first_key m = Some k -> exists v, JSMap.get k m = Some v.
Proof.
  destruct m as [|[k' v] m]; [done|]. intros [= ->]. exists v.
  apply get_head.
Qed.

Lemma delete_head k v m : JSMap.delete k ((k, v) :: m) = m.
Proof. cbn. by rewrite String.eqb_refl. Qed.

Lemma size_delete k m v :
  JSMap.get k m = Some v -> S (JSMap.size (JSMap.delete k m)) = JSMap.size m.
Proof.
  induction m as [|[k' v'] m IH]; cbn; [done|].
  destruct (String.eqb k k'); [done|]. intros Hg. cbn.
  f_equal. by apply IH.
Qed.

Lemma has_In k m : JSMap.has k m = true <-> In k (JSMap.keys m).
Proof.
  unfold JSMap.has. induction m as [|[k' v'] m IH]; cbn; [done|].
  destruct (String.eqb_spec k k') as [->|Hne].
  - split; auto.
  - rewrite IH. split; [auto|]. intros [E|Hin]; [congruence|done].
Qed.

(** [set] keeps the order of the keys: an existing key stays where it
    is, a new key goes last. *)
Lemma keys_set k v m :
  JSMap.keys (JSMap.set k v m) =
  if JSMap.has k m then JSMap.keys m else (JSMap.keys m ++ [k])%list.
Proof.
  unfold JSMap.has, JSMap.keys. induction m as [|[k' v'] m IH]; cbn; [done|].
  destruct (String.eqb k k'); [done|]. cbn. rewrite IH.
  by destruct (JSMap.get k m).
Qed.

Lemma set_nonempty k v m : JSMap.set k v m <> [].
Proof.
  destruct m as [|[k' v'] m]; cbn; [done|]. by destruct (String.eqb k k').
Qed.

Lemma first_key_set k v m k0 :
  JSMap.first_key m = Some k0 -> JSMap.first_key (JSMap.set k v m) = Some k0.
Proof.
  destruct m as [|[k' v'] m]; [done|]. cbn. intros [= ->].
  by destruct (String.eqb k k0).
Qed.

End MapFacts.

(* ===================================================================== *)
(** * The job processor                                                   *)
(* ===================================================================== *)

(** Reading a field of an updated state. *)
Ltac sys_simpl :=
  cbn [currentJob printerName pendingJobs pollCount jobsFetchedToday
       conversionsToday lastPollTime connected emitted fs timers now tasks
       hist_enqueued hist_started
       with_currentJob with_printerName with_pendingJobs with_poll
       with_jobsFetchedToday with_conversionsToday with_connected
       with_emitted with_fs with_timers with_now with_tasks
       with_hist_enqueued with_hist_started] in *.

Section JobFacts.
Context `{Platform}.

Lemma emit_pending ev s : pendingJobs (emit_if_connected ev s) = pendingJobs s.
Proof. unfold emit_if_connected. by destruct (connected s). Qed.

Lemma try_begin_pending io jobId job s s' fl :
  try_begin io jobId job s = (s', fl) -> pendingJobs s' = pendingJobs s.
Proof.
  unfold try_begin. destruct (io _); [by intros [= <- <-]|].
  destruct (getFileType _); intros [= <- <-]; cbn;
    by rewrite emit_pending.
Qed.

(** The first stretch of the [try] block never falls off its end. *)
Lemma try_begin_flow io jobId job s s' fl :
  try_begin io jobId job s = (s', fl) -> fl <> Return.
Proof.
  unfold try_begin. destruct (io _); [by intros [= <- <-]|].
  destruct (getFileType _); by intros [= <- <-].
Qed.

(** Enough fuel: every recursive call from [finally] finds a shorter
    pending map. *)
Lemma processJob_fuel_enough fuel : forall io jobId s,
  (JSMap.size (pendingJobs s) < fuel)%nat ->
  exists s', processJob_fuel fuel io jobId s = Some s'.
Proof.
  induction fuel as [|fuel IH]; intros io jobId s Hsz; [lia|].
  cbn [processJob_fuel].
  destruct (JSMap.get jobId (pendingJobs s)) as [job|] eqn:Hget; [|eauto].
  destruct (try_begin _ _ _ _) as [s2 fl] eqn:Hb.
  apply try_begin_pending in Hb as Hp. cbn in Hp.
  assert (Hfin : forall s3, pendingJobs s3 = pendingJobs s ->
            exists s', finally_block (processJob_fuel fuel io) jobId s3
                       = Some s').
  { intros s3 Hp3. unfold finally_block. cbn [pendingJobs with_pendingJobs
      with_currentJob]. rewrite Hp3.
    pose proof (size_delete _ _ _ Hget) as Hsd.
    destruct (0 <? JSMap.size (JSMap.delete jobId (pendingJobs s)))%nat;
      [|eauto].
    destruct (JSMap.first_key _); [|eauto].
    apply IH. unfold JSMap.size in *. cbn. lia. }
  destruct fl as [t| |e]; cbn [settle].
  - eauto.
  - by apply Hfin.
  - apply Hfin. unfold catch_block. by rewrite emit_pending.
Qed.

(** C8, first half: the job processor always returns. *)
Lemma processJob_returns io jobId s :
  exists s', processJob io jobId s = Some s'.
Proof. apply processJob_fuel_enough. lia. Qed.

(** More fuel than needed changes nothing. *)
Lemma processJob_fuel_irrelevant fuel1 : forall fuel2 io jobId s,
  (JSMap.size (pendingJobs s) < fuel1)%nat ->
  (JSMap.size (pendingJobs s) < fuel2)%nat ->
  processJob_fuel fuel1 io jobId s = processJob_fuel fuel2 io jobId s.
Proof.
  induction fuel1 as [|fuel1 IH]; intros fuel2 io jobId s H1 H2; [lia|].
  destruct fuel2 as [|fuel2]; [lia|].
  cbn [processJob_fuel].
  destruct (JSMap.get jobId (pendingJobs s)) as [job|] eqn:Hget; [|done].
  destruct (try_begin _ _ _ _) as [s2 fl] eqn:Hb.
  apply try_begin_pending in Hb as Hp. cbn in Hp.
  assert (Hfin : forall s3, pendingJobs s3 = pendingJobs s ->
            finally_block (processJob_fuel fuel1 io) jobId s3
            = finally_block (processJob_fuel fuel2 io) jobId s3).
  { intros s3 Hp3. unfold finally_block. cbn [pendingJobs with_pendingJobs
      with_currentJob]. rewrite Hp3.
    pose proof (size_delete _ _ _ Hget) as Hsd.
    destruct (0 <? JSMap.size (JSMap.delete jobId (pendingJobs s)))%nat;
      [|done].
    destruct (JSMap.first_key _); [|done].
    apply IH; unfold JSMap.size in *; cbn; lia. }
  destruct fl as [t| |e]; cbn [settle].
  - done.
  - by apply Hfin.
  - apply Hfin. unfold catch_block. by rewrite emit_pending.
Qed.

(** [processJob] unfolds as the source reads: look the job up, make it
    current, run the [try] block to its first [await], and settle. *)
Lemma processJob_unfold io jobId s :
  processJob io jobId s =
  match JSMap.get jobId (pendingJobs s) with
  | None => Some s
  | Some job =>
      let s1 := with_hist_started (hist_started s ++ [jobId])%list
                  (with_currentJob (Some jobId) s) in
      let '(s2, fl) := try_begin io jobId job s1 in
      settle (processJob io) jobId fl s2
  end.
Proof.
  unfold processJob at 1. cbn [processJob_fuel].
  destruct (JSMap.get jobId (pendingJobs s)) as [job|] eqn:Hget; [|done].
  cbv zeta.
  destruct (try_begin _ _ _ _) as [s2 fl] eqn:Hb.
  apply try_begin_pending in Hb as Hp. cbn in Hp.
  assert (Hfin : forall s3, pendingJobs s3 = pendingJobs s ->
            finally_block (processJob_fuel (JSMap.size (pendingJobs s)) io)
              jobId s3
            = finally_block (processJob io) jobId s3).
  { intros s3 Hp3. unfold finally_block. cbn [pendingJobs with_pendingJobs
      with_currentJob]. rewrite Hp3.
    pose proof (size_delete _ _ _ Hget) as Hsd.
    destruct (0 <? JSMap.size (JSMap.delete jobId (pendingJobs s)))%nat;
      [|done].
    destruct (JSMap.first_key _); [|done].
    unfold processJob. apply processJob_fuel_irrelevant;
      unfold JSMap.size in *; cbn; lia. }
  destruct fl as [t| |e]; cbn [settle].
  - done.
  - by apply Hfin.
  - apply Hfin. unfold catch_block. by rewrite emit_pending.
Qed.

End JobFacts.

Section JobFrame.
Context `{Platform}.

Lemma same_control_refl s : same_control s s.
Proof. by repeat split. Qed.

Lemma same_control_emit ev s : same_control s (emit_if_connected ev s).
Proof. unfold emit_if_connected. destruct (connected s); by repeat split. Qed.

Lemma same_control_trans s1 s2 s3 :
  same_control s1 s2 -> same_control s2 s3 -> same_control s1 s3.
Proof. unfold same_control. intuition congruence. Qed.

Lemma try_begin_control io jobId job s s' fl :
  try_begin io jobId job s = (s', fl) -> same_control s s'.
Proof.
  unfold try_begin. destruct (io _); [intros [= <- <-]; apply same_control_refl|].
  pose proof (same_control_emit (job_received jobId)
                (with_fs (writeFile (path_join tempDir
                   (jobId ++ "_" ++ filename job)) (fs s)) s)) as He.
  destruct (getFileType _); intros [= <- <-];
    unfold same_control in *; cbn in *; intuition congruence.
Qed.

Lemma try_begin_suspend io jobId job s s' t :
  try_begin io jobId job s = (s', Suspend t) -> jt_id t = jobId.
Proof.
  unfold try_begin. destruct (io _); [done|].
  destruct (getFileType _); intros [= <- <-]; done.
Qed.

Lemma try_resume_control t r s s' fl :
  try_resume t r s = Some (s', fl) -> same_control s s'.
Proof.
  unfold try_resume, try_print, try_complete.
  destruct r as [v|e]; [|intros [= <- <-]; apply same_control_refl].
  destruct (jt_await t), v; intros [= <- <-]; apply same_control_emit.
Qed.

Lemma try_resume_suspend t r s s' t' :
  try_resume t r s = Some (s', Suspend t') -> jt_id t' = jt_id t.
Proof.
  unfold try_resume, try_print, try_complete.
  destruct r as [v|e]; [|done].
  destruct (jt_await t), v; intros [= <- <-]; done.
Qed.

Lemma job_tasks_app ts1 ts2 :
  job_tasks (ts1 ++ ts2) = (job_tasks ts1 ++ job_tasks ts2)%list.
Proof.
  induction ts1 as [|[|t] ts1 IH]; cbn; [done|done|]. by rewrite IH.
Qed.

Lemma job_tasks_delete_poll ts n :
  ts !! n = Some T_poll -> job_tasks (delete n ts) = job_tasks ts.
Proof.
  revert n. induction ts as [|[|t] ts IH]; intros [|n]; cbn; try done.
  - apply IH.
  - intros Hn. f_equal. by apply IH.
Qed.

Lemma job_tasks_delete_job ts n t :
  ts !! n = Some (T_job t) ->
  exists l1 l2, job_tasks ts = (l1 ++ t :: l2)%list /\
                job_tasks (delete n ts) = (l1 ++ l2)%list.
Proof.
  revert n. induction ts as [|[|t0] ts IH]; intros [|n]; cbn; try done.
  - apply IH.
  - intros [= ->]. by exists [], (job_tasks ts).
  - intros Hn. destruct (IH n Hn) as (l1 & l2 & E1 & E2).
    exists (t0 :: l1), l2. split; [by rewrite E1|].
    cbn [app]. f_equal. exact E2.
Qed.

End JobFrame.

(* ===================================================================== *)
(** * One job at a time, in arrival order                                 *)
(* ===================================================================== *)

Section Serialization.
Context `{Platform}.

Lemma keys_cons_inv {V} (m : list (string * V)) k rest :
  JSMap.keys m = k :: rest ->
  exists v m', m = (k, v) :: m' /\ JSMap.keys m' = rest.
Proof.
  destruct m as [|[k' v] m']; [done|]. cbn. intros [= -> <-]. eauto.
Qed.

(** Starting the oldest pending job while nothing is mid-pipeline ends
    in a serialized state, however many jobs fail on the way. *)
Lemma processJob_serialized (n : nat) : forall io jobId s s' finished rest,
  JSMap.size (pendingJobs s) = n ->
  processJob io jobId s = Some s' ->
  job_tasks (tasks s) = [] ->
  JSMap.keys (pendingJobs s) = jobId :: rest ->
  Forall (fun k => JS.truthy k = true) (JSMap.keys (pendingJobs s)) ->
  hist_enqueued s = (finished ++ jobId :: rest)%list ->
  hist_started s = finished ->
  serialized s'.
Proof.
  induction n as [n IH] using lt_wf_ind.
  intros io jobId s s' finished rest Hn Hrun Htasks Hkeys Htruthy Henq Hst.
  rewrite processJob_unfold in Hrun.
  destruct (keys_cons_inv _ _ _ Hkeys) as (job & m' & Hm & Hm').
  rewrite Hm, get_head in Hrun. cbv zeta in Hrun.
  destruct (try_begin _ _ _ _) as [s2 fl] eqn:Hb.
  pose proof (try_begin_control _ _ _ _ _ _ Hb) as
    (C1 & C2 & C3 & C4 & C5 & C6 & C7 & C8). cbn in C1, C2, C3, C4, C5.
  assert (Hfinal : forall s3, same_control s2 s3 ->
            finally_block (processJob io) jobId s3 = Some s' ->
            serialized s').
  { intros s3 (D1 & D2 & D3 & D4 & D5 & _) Hf. unfold finally_block in Hf.
    cbn [pendingJobs with_pendingJobs with_currentJob] in Hf.
    rewrite D2, C2, Hm, delete_head in Hf.
    destruct m' as [|[next job'] m''].
    - cbn in Hf. injection Hf as <-. exists (finished ++ [jobId])%list.
      cbn. rewrite D3, C3, Htasks, D4, C4, Henq, D5, C5, Hst.
      cbn in Hm'. subst rest. by rewrite app_nil_r.
    - cbn [JSMap.size List.length Nat.ltb Nat.leb JSMap.first_key
           JSMap.keys map fst head] in Hf.
      assert (Hlt : (JSMap.size ((next, job') :: m'') < n)%nat)
        by (rewrite <- Hn, Hm; cbn; lia).
      apply (IH _ Hlt io next
               (with_pendingJobs ((next, job') :: m'')
                  (with_currentJob None s3))
               s' (finished ++ [jobId])%list
               (JSMap.keys m'') eq_refl Hf).
      + cbn. by rewrite D3, C3.
      + done.
      + cbn. rewrite Hm in Htruthy. cbn in Htruthy.
        by inversion Htruthy.
      + cbn. rewrite D4, C4, Henq. rewrite <- Hm'. cbn.
        by rewrite <- app_assoc.
      + cbn. by rewrite D5, C5, Hst. }
  destruct fl as [t| |e]; cbn [settle] in Hrun.
  - injection Hrun as <-. exists finished. sys_simpl.
    rewrite C2, C4, Henq, Hkeys. split; [done|].
    split; [by rewrite <- Hkeys|].
    rewrite job_tasks_app, C3, Htasks. cbn [job_tasks app].
    rewrite (try_begin_suspend _ _ _ _ _ _ Hb).
    rewrite C1, C5, Hst. split; [done|]. split; [|done].
    unfold JSMap.first_key. by rewrite Hkeys.
  - by apply (Hfinal s2 (same_control_refl s2)).
  - apply (Hfinal (catch_block jobId e s2)); [|done].
    apply same_control_emit.
Qed.

(** Enqueueing the jobs of a poll response. *)
Lemma enqueue_effects (jobs : list Job) : forall s finished,
  truthy_ids jobs ->
  hist_enqueued s = (finished ++ JSMap.keys (pendingJobs s))%list ->
  Forall (fun k => JS.truthy k = true) (JSMap.keys (pendingJobs s)) ->
  let s' := fold_left enqueue jobs s in
  hist_enqueued s' = (finished ++ JSMap.keys (pendingJobs s'))%list /\
  Forall (fun k => JS.truthy k = true) (JSMap.keys (pendingJobs s')) /\
  currentJob s' = currentJob s /\ tasks s' = tasks s /\
  hist_started s' = hist_started s /\
  (forall k, JSMap.first_key (pendingJobs s) = Some k ->
             JSMap.first_key (pendingJobs s') = Some k) /\
  (jobs <> [] -> pendingJobs s' <> []).
Proof.
  induction jobs as [|job jobs IH]; intros s finished Hids Henq Htr.
  { cbn. by repeat split. }
  inversion Hids as [|? ? Hid Hids']; subst. cbn [fold_left].
  assert (Hstep :
    hist_enqueued (enqueue s job)
      = (finished ++ JSMap.keys (pendingJobs (enqueue s job)))%list /\
    Forall (fun k => JS.truthy k = true)
      (JSMap.keys (pendingJobs (enqueue s job))) /\
    currentJob (enqueue s job) = currentJob s /\
    tasks (enqueue s job) = tasks s /\
    hist_started (enqueue s job) = hist_started s /\
    pendingJobs (enqueue s job)
      = JSMap.set (job_id job) job (pendingJobs s)).
  { unfold enqueue.
    destruct (JSMap.has (job_id job) (pendingJobs s)) eqn:Hhas;
      cbn [negb]; cbv iota; sys_simpl; rewrite keys_set, Hhas.
    - by repeat split.
    - rewrite Henq, app_assoc. repeat split; try done.
      apply Forall_app. split; [done|]. by constructor. }
  destruct Hstep as (E1 & E2 & E3 & E4 & E5 & E6).
  destruct (IH (enqueue s job) finished Hids' E1 E2)
    as (F1 & F2 & F3 & F4 & F5 & F6 & F7).
  cbv zeta. split_and!; try congruence.
  - intros k Hk. apply F6. rewrite E6. by apply first_key_set.
  - intros _. destruct jobs as [|job' jobs'].
    + cbn. rewrite E6. apply set_nonempty.
    + by apply F7.
Qed.

(** Every turn of the event loop keeps the pipeline serialized, as long
    as the job ids that arrive are truthy. *)
Lemma step_serialized (s s' : Sys) (l : Label) :
  serialized s -> label_ok l -> step s l = Some s' -> serialized s'.
Proof.
  intros (finished & Henq & Htr & Hinv) Hok Hstep.
  destruct l as [|n r io|n r io|b|name|dt|n|w]; cbn [step] in Hstep.
  - (* a poll timer fires *)
    injection Hstep as <-. unfold poll_begin.
    destruct (negb (connected s)); [by exists finished|].
    destruct (JS.truthy_opt (currentJob s)); [by exists finished|].
    exists finished. cbn. rewrite job_tasks_app. cbn.
    by rewrite app_nil_r.
  - (* a poll response arrives *)
    destruct (tasks s !! n) as [[|t]|] eqn:Hn; try done.
    pose proof (job_tasks_delete_poll _ _ Hn) as Hjt.
    unfold poll_resume in Hstep.
    destruct r as [e|jobs].
    { injection Hstep as <-. exists finished. cbn. by rewrite Hjt. }
    destruct jobs as [|job jobs].
    { injection Hstep as <-. exists finished. cbn. by rewrite Hjt. }
    cbn [label_ok] in Hok.
    set (s1 := with_jobsFetchedToday _ _) in Hstep.
    destruct (enqueue_effects (job :: jobs) s1 finished Hok)
      as (F1 & F2 & F3 & F4 & F5 & F6 & F7); [done|done|].
    cbv zeta in F1, F2, F3, F4, F5, F6, F7.
    set (s2 := fold_left enqueue (job :: jobs) s1) in *.
    change (currentJob s2 = currentJob s) in F3.
    change (tasks s2 = delete n (tasks s)) in F4.
    change (hist_started s2 = hist_started s) in F5.
    change (forall k, JSMap.first_key (pendingJobs s) = Some k ->
                      JSMap.first_key (pendingJobs s2) = Some k) in F6.
    destruct (job_tasks (tasks s)) as [|t [|t' ts]] eqn:Hts; [| |done].
    + (* nothing mid-pipeline: the oldest job starts *)
      destruct Hinv as (Hcur & Hpend & Hst).
      rewrite F3, Hcur in Hstep. cbn [JS.truthy_opt negb andb] in Hstep.
      destruct (pendingJobs s2) as [|[first job1] m] eqn:Hp2;
        [by destruct F7|].
      cbn [JSMap.size List.length Nat.ltb Nat.leb JSMap.first_key
           JSMap.keys map fst head] in Hstep.
      apply (processJob_serialized _ io first s2 s' finished
               (JSMap.keys m) eq_refl Hstep).
      * by rewrite F4, Hjt.
      * by rewrite Hp2.
      * by rewrite Hp2.
      * exact F1.
      * by rewrite F5.
    + (* a job is mid-pipeline: the new jobs wait *)
      destruct Hinv as (Hcur & Hfirst & Hst).
      assert (Htruthy : JS.truthy (jt_id t) = true).
      { destruct (pendingJobs s) as [|[k v] m]; [done|].
        cbn in Hfirst. injection Hfirst as ->. cbn in Htr.
        by inversion Htr. }
      rewrite F3, Hcur in Hstep. cbn [JS.truthy_opt] in Hstep.
      rewrite Htruthy in Hstep. cbn [negb andb] in Hstep.
      injection Hstep as <-. exists finished.
      split; [done|]. split; [done|].
      rewrite F4, Hjt, F3, F5. split; [done|]. split; [|done].
      by apply F6.
  - (* an awaited pipeline stage settles *)
    destruct (tasks s !! n) as [[|t]|] eqn:Hn; try done.
    destruct (job_tasks_delete_job _ _ _ Hn) as (l1 & l2 & Hjt & Hjd).
    destruct (job_tasks (tasks s)) as [|t0 [|t' ts]] eqn:Hts; [| |done].
    { by destruct l1. }
    assert (l1 = [] /\ l2 = [] /\ t0 = t) as (-> & -> & ->).
    { destruct l1 as [|? [|? ?]]; cbn in Hjt; [|by destruct l2|done].
      injection Hjt as -> <-. done. }
    destruct Hinv as (Hcur & Hfirst & Hst).
    destruct (try_resume t r _) as [[s1 fl]|] eqn:Hres; [|done].
    pose proof (try_resume_control _ _ _ _ _ Hres) as
      (C1 & C2 & C3 & C4 & C5 & _). cbn in C1, C2, C3, C4, C5.
    destruct (pendingJobs s) as [|[k job] m] eqn:Hp; [done|].
    cbn in Hfirst. injection Hfirst as ->.
    assert (Hfinal : forall s3, same_control s1 s3 ->
              finally_block (processJob io) (jt_id t) s3 = Some s' ->
              serialized s').
    { intros s3 (D1 & D2 & D3 & D4 & D5 & _) Hf. unfold finally_block in Hf.
      cbn [pendingJobs with_pendingJobs with_currentJob] in Hf.
      rewrite D2, C2, delete_head in Hf.
      destruct m as [|[next job'] m''].
      - cbn in Hf. injection Hf as <-. exists (finished ++ [jt_id t])%list.
        cbn. rewrite D3, C3, Hjd, D4, C4, Henq, D5, C5, Hst.
        cbn. by rewrite app_nil_r.
      - cbn [JSMap.size List.length Nat.ltb Nat.leb JSMap.first_key
             JSMap.keys map fst head] in Hf.
        apply (processJob_serialized _ io next
                 (with_pendingJobs ((next, job') :: m'')
                    (with_currentJob None s3))
                 s' (finished ++ [jt_id t])%list (JSMap.keys m'')
                 eq_refl Hf).
        + cbn. by rewrite D3, C3, Hjd.
        + done.
        + cbn. cbn in Htr. by inversion Htr.
        + cbn. rewrite D4, C4, Henq. cbn. by rewrite <- app_assoc.
        + cbn. by rewrite D5, C5, Hst. }
    destruct fl as [t'| |e]; cbn [settle] in Hstep.
    + injection Hstep as <-. exists finished. cbn.
      rewrite C2, C4, Henq. split; [done|]. split; [done|].
      rewrite job_tasks_app, C3, Hjd. cbn.
      rewrite (try_resume_suspend _ _ _ _ _ Hres).
      by rewrite C1, C5, Hst, Hcur.
    + by apply (Hfinal s1 (same_control_refl s1)).
    + apply (Hfinal (catch_block (jt_id t) e s1)); [|done].
      apply same_control_emit.
  - injection Hstep as <-. by exists finished.
  - injection Hstep as <-. by exists finished.
  - destruct (0 <=? dt); [|done]. injection Hstep as <-. by exists finished.
  - destruct (timers s !! n) as [t|]; [|done].
    destruct (due t <=? now s); [|done].
    injection Hstep as <-. by exists finished.
  - injection Hstep as <-. by exists finished.
Qed.

Lemma run_serialized (ls : list Label) : forall s s',
  serialized s -> Forall label_ok ls -> run s ls = Some s' -> serialized s'.
Proof.
  induction ls as [|l ls IH]; intros s s' Hs Hok Hrun; cbn in Hrun.
  - by injection Hrun as <-.
  - inversion Hok; subst.
    destruct (step s l) as [s1|] eqn:Hstep; [|done].
    eapply IH; [|done|exact Hrun]. by eapply step_serialized.
Qed.

Lemma init_serialized : serialized init_sys.
Proof. by exists []. Qed.

(** X1.  The pipeline discipline of the executor, for job ids that are
    truthy values: in every state the agent can reach, at most one job is
    mid-pipeline, it is the current job and the oldest key of the pending
    map, and jobs have entered the pipeline in exactly the order in which
    their keys entered the map. *)
Theorem one_job_at_a_time_fifo (ls : list Label) (s : Sys) :
  Forall label_ok ls ->
  run init_sys ls = Some s ->
  (List.length (job_tasks (tasks s)) <= 1)%nat /\
  (forall t, In t (job_tasks (tasks s)) ->
     currentJob s = Some (jt_id t) /\
     JSMap.first_key (pendingJobs s) = Some (jt_id t)) /\
  (job_tasks (tasks s) = [] -> currentJob s = None /\ pendingJobs s = []) /\
  (exists waiting, hist_enqueued s = (hist_started s ++ waiting)%list).
Proof.
  intros Hok Hrun.
  destruct (run_serialized ls init_sys s init_serialized Hok Hrun)
    as (finished & Henq & Htr & Hinv).
  destruct (job_tasks (tasks s)) as [|t [|t' ts]] eqn:Hts; [| |done].
  - destruct Hinv as (Hc & Hp & Hst). split_and!; [cbn; lia|done|done|].
    exists (JSMap.keys (pendingJobs s)). by rewrite Henq, Hst.
  - destruct Hinv as (Hc & Hf & Hst). split_and!; [cbn; lia| |done|].
    + intros t0 [<-|[]]. done.
    + destruct (pendingJobs s) as [|[k v] m]; [done|].
      cbn in Hf. injection Hf as ->. exists (JSMap.keys m).
      rewrite Henq, Hst. cbn. by rewrite <- app_assoc.
Qed.

End Serialization.

(* ===================================================================== *)
(** * What a job leaves behind                                            *)
(* ===================================================================== *)

Section Effects.
Context `{Platform}.

Lemma extends_refl s : extends s s.
Proof.
  unfold extends. split_and!; try done.
  - by exists []; rewrite app_nil_r.
  - by exists []; rewrite app_nil_r.
Qed.

Lemma extends_trans s1 s2 s3 : extends s1 s2 -> extends s2 s3 -> extends s1 s3.
Proof.
  intros (A1 & A2 & A3 & (e1 & A4) & (h1 & A5))
         (B1 & B2 & B3 & (e2 & B4) & (h2 & B5)).
  unfold extends. split_and!; try congruence.
  - set_solver.
  - exists (e1 ++ e2)%list. by rewrite B4, A4, app_assoc.
  - exists (h1 ++ h2)%list. by rewrite B5, A5, app_assoc.
Qed.

Lemma extends_emit ev s : extends s (emit_if_connected ev s).
Proof.
  unfold emit_if_connected. destruct (connected s); [|apply extends_refl].
  unfold extends. sys_simpl. split_and!; try done.
  - by exists [ev].
  - by exists []; rewrite app_nil_r.
Qed.

Lemma emit_timers ev s : timers (emit_if_connected ev s) = timers s.
Proof. unfold emit_if_connected. by destruct (connected s). Qed.

Lemma emit_fs ev s : fs (emit_if_connected ev s) = fs s.
Proof. unfold emit_if_connected. by destruct (connected s). Qed.

Lemma emit_emitted ev s :
  emitted (emit_if_connected ev s)
  = (emitted s ++ (if connected s then [ev] else []))%list.
Proof.
  unfold emit_if_connected. destruct (connected s); [done|].
  by rewrite app_nil_r.
Qed.

Lemma try_begin_extends io jobId job s s' fl :
  try_begin io jobId job s = (s', fl) ->
  extends s s' /\ timers s' = timers s.
Proof.
  unfold try_begin. destruct (io _); [intros [= <- <-]; split;
    [apply extends_refl|done]|].
  set (s1 := with_fs _ s).
  assert (E1 : extends s s1).
  { unfold extends, s1, writeFile. sys_simpl. split_and!; try done.
    - set_solver.
    - by exists []; rewrite app_nil_r.
    - by exists []; rewrite app_nil_r. }
  pose proof (extends_emit (job_received jobId) s1) as E2.
  pose proof (extends_trans _ _ _ E1 E2) as E.
  pose proof (emit_timers (job_received jobId) s1) as T.
  destruct (getFileType _); intros [= <- <-]; (split; [|exact T]);
    try exact E;
    destruct E as (A1 & A2 & A3 & A4 & A5); unfold extends; sys_simpl;
    by split_and!.
Qed.

(** The job processor: the clock, the socket and the timers are left
    alone, files, events and history only grow, and the job that was
    looked up is the first to be started. *)
Lemma processJob_effects (n : nat) : forall io jobId s s',
  JSMap.size (pendingJobs s) = n ->
  processJob io jobId s = Some s' ->
  extends s s' /\ timers s' = timers s /\
  (forall job, JSMap.get jobId (pendingJobs s) = Some job ->
     exists hs, hist_started s' = (hist_started s ++ jobId :: hs)%list).
Proof.
  induction n as [n IH] using lt_wf_ind.
  intros io jobId s s' Hn Hrun.
  rewrite processJob_unfold in Hrun.
  destruct (JSMap.get jobId (pendingJobs s)) as [job|] eqn:Hget.
  2:{ injection Hrun as <-. split; [apply extends_refl|]. by split. }
  cbv zeta in Hrun.
  set (s1 := with_hist_started _ _) in Hrun.
  destruct (try_begin io jobId job s1) as [s2 fl] eqn:Hb.
  pose proof (try_begin_control _ _ _ _ _ _ Hb) as
    (C1 & C2 & C3 & C4 & C5 & _).
  destruct (try_begin_extends _ _ _ _ _ _ Hb) as (E12 & T12).
  assert (E01 : extends s s1).
  { unfold extends, s1. sys_simpl. split_and!; try done.
    - by exists []; rewrite app_nil_r.
    - by exists [jobId]. }
  assert (H1 : hist_started s2 = (hist_started s ++ [jobId])%list)
    by exact C5.
  assert (T01 : timers s1 = timers s) by done.
  assert (P01 : pendingJobs s1 = pendingJobs s) by done.
  assert (Hfinal : forall s3, extends s2 s3 -> timers s3 = timers s2 ->
            pendingJobs s3 = pendingJobs s2 ->
            hist_started s3 = hist_started s2 ->
            finally_block (processJob io) jobId s3 = Some s' ->
            extends s s' /\ timers s' = timers s /\
            exists hs, hist_started s' = (hist_started s ++ jobId :: hs)%list).
  { intros s3 E23 T23 P23 H23 Hf. unfold finally_block in Hf.
    set (s4 := with_pendingJobs _ _) in Hf.
    assert (E34 : extends s3 s4).
    { unfold extends, s4. sys_simpl. split_and!; try done.
      - by exists []; rewrite app_nil_r.
      - by exists []; rewrite app_nil_r. }
    assert (E04 : extends s s4) by eauto using extends_trans.
    assert (T04 : timers s4 = timers s) by (unfold s4; sys_simpl; congruence).
    assert (H04 : hist_started s4 = (hist_started s ++ [jobId])%list)
      by (unfold s4; sys_simpl; congruence).
    assert (Hsz : S (JSMap.size (pendingJobs s4)) = n).
    { unfold s4. sys_simpl. rewrite P23, C2, P01.
      rewrite <- Hn. by eapply size_delete. }
    destruct (0 <? JSMap.size (pendingJobs s4))%nat.
    2:{ injection Hf as <-. split; [done|]. split; [done|].
        exists []. exact H04. }
    destruct (JSMap.first_key (pendingJobs s4)) as [next|].
    2:{ injection Hf as <-. split; [done|]. split; [done|].
        exists []. exact H04. }
    destruct (IH (JSMap.size (pendingJobs s4)) ltac:(lia) io next s4 s'
                eq_refl Hf) as (E4 & T4 & _).
    split; [eauto using extends_trans|]. split; [congruence|].
    destruct E4 as (_ & _ & _ & _ & (hs & Hhs)).
    exists hs. by rewrite Hhs, H04, <- app_assoc. }
  destruct fl as [t| |e]; cbn [settle] in Hrun.
  - injection Hrun as <-.
    assert (E2 : extends s2 (with_tasks (tasks s2 ++ [T_job t]) s2)).
    { unfold extends. sys_simpl. split_and!; try done.
      - by exists []; rewrite app_nil_r.
      - by exists []; rewrite app_nil_r. }
    split; [eauto using extends_trans|]. split; [by sys_simpl|].
    intros _ _. exists []. sys_simpl. exact H1.
  - destruct (Hfinal s2 (extends_refl s2) eq_refl eq_refl eq_refl Hrun)
      as (A & B & C).
    split; [done|]. split; [done|]. by intros _ _.
  - destruct (Hfinal (catch_block jobId e s2)
                (extends_emit _ _) (emit_timers _ _) (emit_pending _ _)
                (proj1 (proj2 (proj2 (proj2 (proj2
                   (same_control_emit _ s2)))))) Hrun)
      as (A & B & C).
    split; [done|]. split; [done|]. by intros _ _.
Qed.

End Effects.

(* ===================================================================== *)
(** * Errors stop at the job boundary                                     *)
(* ===================================================================== *)

Section Boundary.
Context `{Platform}.

(** The [finally] block: the job leaves the queue and the next pending
    job, if any, is started. *)
Lemma finally_block_spec io jobId s :
  exists s',
    finally_block (processJob io) jobId s = Some s' /\
    extends s s' /\ timers s' = timers s /\
    (forall next job rest,
       JSMap.delete jobId (pendingJobs s) = (next, job) :: rest ->
       exists later, hist_started s' = (hist_started s ++ next :: later)%list)
    /\ (JSMap.delete jobId (pendingJobs s) = [] ->
        currentJob s' = None /\ pendingJobs s' = [] /\ tasks s' = tasks s).
Proof.
  unfold finally_block. set (s4 := with_pendingJobs _ _).
  assert (E : extends s s4).
  { unfold extends, s4. sys_simpl. split_and!; try done.
    - by exists []; rewrite app_nil_r.
    - by exists []; rewrite app_nil_r. }
  assert (P4 : pendingJobs s4 = JSMap.delete jobId (pendingJobs s)) by done.
  rewrite P4.
  destruct (JSMap.delete jobId (pendingJobs s)) as [|[next job] rest] eqn:Hd.
  - exists s4. cbn. split; [done|]. split; [done|]. split; [done|].
    split; [done|]. intros _. unfold s4. sys_simpl. by rewrite Hd.
  - cbn [JSMap.size List.length Nat.ltb Nat.leb JSMap.first_key JSMap.keys
         map fst head].
    destruct (processJob_returns io next s4) as (s' & Hs'). exists s'.
    destruct (processJob_effects _ io next s4 s' eq_refl Hs')
      as (E4 & T4 & Hh).
    split; [done|]. split; [eauto using extends_trans|].
    split; [by rewrite T4|]. split; [|done].
    intros next' job' rest' [= <- <- <-].
    destruct (Hh job) as (hs & Hhs); [rewrite P4; apply get_head|].
    exists hs. exact Hhs.
Qed.

Lemma settle_rejected s n t e io :
  tasks s !! n = Some (T_job t) ->
  step s (L_settle n (Rejected e) io)
  = finally_block (processJob io) (jt_id t)
      (catch_block (jt_id t) e (with_tasks (delete n (tasks s)) s)).
Proof. intros Hn. cbn [step]. by rewrite Hn. Qed.

(** C8.  The job processor always returns a next state, whatever the
    pipeline does.  When an awaited stage of a job rejects with an error,
    the turn of the event loop completes, the event
    [print_complete {success: false, error}] for that job is emitted (if
    the socket is connected), the job leaves the pending map, and the
    next pending job, if there is one, becomes the current job and starts
    its pipeline; the same holds when the first stretch of the pipeline
    throws (a failed write, an unsupported file type). *)
Theorem pipeline_errors_contained :
  (forall io jobId s, exists s', processJob io jobId s = Some s') /\
  (forall s n t e io,
     tasks s !! n = Some (T_job t) ->
     exists s',
       step s (L_settle n (Rejected e) io) = Some s' /\
       (exists later,
          emitted s'
          = (emitted s ++ failure_event (connected s) (jt_id t) e
               ++ later)%list) /\
       (forall next job rest,
          JSMap.delete (jt_id t) (pendingJobs s) = (next, job) :: rest ->
          exists later,
            hist_started s' = (hist_started s ++ next :: later)%list) /\
       (JSMap.delete (jt_id t) (pendingJobs s) = [] ->
          currentJob s' = None /\ pendingJobs s' = [] /\
          tasks s' = delete n (tasks s))) /\
  (forall io jobId job s s1 e,
     JSMap.get jobId (pendingJobs s) = Some job ->
     try_begin io jobId job
       (with_hist_started (hist_started s ++ [jobId])%list
          (with_currentJob (Some jobId) s)) = (s1, Throw e) ->
     exists s',
       processJob io jobId s = Some s' /\
       (exists later,
          emitted s'
          = (emitted s1 ++ failure_event (connected s) jobId e
               ++ later)%list) /\
       (forall next job' rest,
          JSMap.delete jobId (pendingJobs s) = (next, job') :: rest ->
          exists later,
            hist_started s'
            = (hist_started s ++ jobId :: next :: later)%list)).
Proof.
  split; [apply processJob_returns|]. split.
  - intros s n t e io Hn. rewrite (settle_rejected s n t e io Hn).
    set (s0 := with_tasks (delete n (tasks s)) s).
    destruct (finally_block_spec io (jt_id t) (catch_block (jt_id t) e s0))
      as (s' & Hs' & (_ & _ & _ & (evs & Hev) & _) & _ & Hnext & Hlast).
    exists s'. split; [done|]. unfold catch_block in *.
    rewrite emit_emitted in Hev. rewrite emit_pending in Hnext, Hlast.
    destruct (same_control_emit (print_complete_failed (jt_id t) (message e))
                s0) as (_ & _ & C3 & _ & C5 & _).
    rewrite C5 in Hnext. rewrite C3 in Hlast. split_and!.
    + exists evs. rewrite Hev. unfold failure_event, s0. sys_simpl.
      by rewrite <- app_assoc.
    + exact Hnext.
    + exact Hlast.
  - intros io jobId job s s1 e Hget Hb.
    destruct (processJob_returns io jobId s) as (s' & Hs'). exists s'.
    split; [done|]. rewrite processJob_unfold, Hget in Hs'.
    cbv zeta in Hs'. rewrite Hb in Hs'. cbn [settle] in Hs'.
    pose proof (try_begin_control _ _ _ _ _ _ Hb) as
      (_ & C2 & _ & _ & C5 & C6 & _).
    destruct (finally_block_spec io jobId (catch_block jobId e s1))
      as (s'' & Hs'' & (_ & _ & _ & (evs & Hev) & _) & _ & Hnext & _).
    rewrite Hs' in Hs''. injection Hs'' as <-. unfold catch_block in *.
    rewrite emit_emitted in Hev. rewrite emit_pending in Hnext.
    destruct (same_control_emit (print_complete_failed jobId (message e))
                s1) as (_ & _ & _ & _ & D5 & _).
    rewrite D5, C5 in Hnext. rewrite C2 in Hnext. split.
    + exists evs. rewrite Hev. unfold failure_event. rewrite C6.
      sys_simpl. by rewrite <- app_assoc.
    + intros next job' rest Hd. destruct (Hnext next job' rest Hd) as (l & Hl).
      exists l. rewrite Hl. sys_simpl. by rewrite <- app_assoc.
Qed.

End Boundary.

(** The scenario of the design document: the conversion of [j2] fails;
    [j3], of an unsupported type, fails at once; [j1] starts. *)
Lemma pipeline_errors_contained_witness :
  (exists s',
     @step laptop busy_agent (L_settle 0 (Rejected libreoffice_failed) io_ok)
     = Some s' /\
     (exists later,
        emitted s'
        = (emitted busy_agent
             ++ failure_event (connected busy_agent) "j2" libreoffice_failed
             ++ later)%list) /\
     (forall next job rest,
        JSMap.delete "j2" (pendingJobs busy_agent) = (next, job) :: rest ->
        exists later,
          hist_started s' = (hist_started busy_agent ++ next :: later)%list) /\
     (JSMap.delete "j2" (pendingJobs busy_agent) = [] ->
        currentJob s' = None /\ pendingJobs s' = [] /\
        tasks s' = delete 0%nat (tasks busy_agent))) /\
  (exists s',
     @processJob laptop io_ok "j3"
       (with_pendingJobs [("j3", sample_job "j3" "photo.gif")] init_sys)
     = Some s').
Proof.
  destruct (@pipeline_errors_contained laptop) as (Hret & Hsettle & _).
  split.
  - apply (Hsettle busy_agent 0%nat converting_j2). by vm_compute.
  - apply Hret.
Defined.

Example failing_jobs_do_not_block :
  option_map observe
    (@run laptop init_sys
       [L_socket true; L_tick; L_poll_response 0 (PollJobs three_jobs) io_ok;
        L_settle 0 (Rejected libreoffice_failed) io_ok])
  = Some (Some "j1", ["j1"], ["j1"],
          [job_received "j2";
           print_complete_failed "j2"
             "LibreOffice conversion failed: soffice: not found";
           job_received "j3";
           print_complete_failed "j3" "Unsupported file type: unknown";
           job_received "j1"],
          []).
Proof. by vm_compute. Qed.

(* ===================================================================== *)
(** * Cleanup of the backing files                                        *)
(* ===================================================================== *)

Section Cleanup.
Context `{Platform}.




(** A failed job deletes nothing and schedules nothing. *)
Lemma failure_schedules_no_cleanup s n t e io s' :
  tasks s !! n = Some (T_job t) ->
  step s (L_settle n (Rejected e) io) = Some s' ->
  timers s' = timers s /\ fs s ⊆ fs s'.
Proof.
  intros Hn. rewrite (settle_rejected s n t e io Hn).
  set (s0 := with_tasks (delete n (tasks s)) s).
  destruct (finally_block_spec io (jt_id t) (catch_block (jt_id t) e s0))
    as (s'' & Hs'' & (_ & _ & Hfs & _) & Ht & _).
  rewrite Hs''. intros [= <-]. unfold catch_block in *.
  rewrite emit_timers in Ht. rewrite emit_fs in Hfs. done.
Qed.

Lemma enqueue_all_fs (jobs : list Job) : forall s,
  fs (fold_left enqueue jobs s) = fs s.
Proof.
  induction jobs as [|job jobs IH]; intros s; [done|].
  cbn [fold_left]. rewrite IH. unfold enqueue.
  by destruct (negb (JSMap.has (job_id job) (pendingJobs s))).
Qed.

Lemma try_resume_fs t r s s' fl :
  try_resume t r s = Some (s', fl) -> fs s' = fs s.
Proof.
  unfold try_resume, try_print, try_complete.
  destruct r as [v|e]; [|by intros [= <- <-]].
  destruct (jt_await t), v; intros [= <- <-]; sys_simpl;
    by rewrite emit_fs.
Qed.

(** X2.  Nothing but a due cleanup timer (or the world outside the agent)
    ever removes a file: every other turn of the event loop leaves all
    existing files in place. *)
Lemma only_due_timers_delete s l s' :
  step s l = Some s' ->
  (forall n, l <> L_timer n) -> (forall w, l <> L_env w) ->
  fs s ⊆ fs s'.
Proof.
  intros Hstep Htimer Henv.
  destruct l as [|n r io|n r io|b|name|dt|n|w]; cbn [step] in Hstep.
  - injection Hstep as <-. unfold poll_begin.
    destruct (negb (connected s)); [done|].
    by destruct (JS.truthy_opt (currentJob s)).
  - destruct (tasks s !! n) as [[|t]|]; try done.
    unfold poll_resume in Hstep.
    destruct r as [e|[|job jobs]]; try by injection Hstep as <-.
    set (s2 := fold_left enqueue (job :: jobs) _) in Hstep.
    assert (F2 : fs s2 = fs s) by (unfold s2; by rewrite enqueue_all_fs).
    destruct (_ && _); [|injection Hstep as <-; by rewrite F2].
    destruct (JSMap.first_key (pendingJobs s2)) as [first|];
      [|injection Hstep as <-; by rewrite F2].
    destruct (processJob_effects _ io first s2 s' eq_refl Hstep)
      as ((_ & _ & Hfs & _) & _).
    by rewrite <- F2.
  - destruct (tasks s !! n) as [[|t]|]; try done.
    destruct (try_resume t r _) as [[s1 fl]|] eqn:Hres; [|done].
    apply try_resume_fs in Hres as F1. sys_simpl.
    destruct fl as [t'| |e]; cbn [settle] in Hstep.
    + injection Hstep as <-. sys_simpl. by rewrite F1.
    + destruct (finally_block_spec io (jt_id t) s1)
        as (s'' & Hs'' & (_ & _ & Hfs & _) & _).
      rewrite Hs'' in Hstep. injection Hstep as <-. by rewrite <- F1.
    + destruct (finally_block_spec io (jt_id t) (catch_block (jt_id t) e s1))
        as (s'' & Hs'' & (_ & _ & Hfs & _) & _).
      rewrite Hs'' in Hstep. injection Hstep as <-.
      unfold catch_block in Hfs. rewrite emit_fs in Hfs. by rewrite <- F1.
  - by injection Hstep as <-.
  - by injection Hstep as <-.
  - destruct (0 <=? dt); [|done]. by injection Hstep as <-.
  - by destruct (Htimer n).
  - by destruct (Henv w).
Qed.

End Cleanup.

(** C3 (the code departs from the claim).  The job [j3], of the
    unsupported type [.gif], fails as soon as it is started: the failure
    is reported, the job leaves the queue, and its working file is still
    in the scratch directory with no cleanup scheduled for it. *)
Theorem failed_job_keeps_its_files :
  exists s,
    @run laptop init_sys
      [L_socket true; L_tick; L_poll_response 0 (PollJobs [gif_job]) io_ok]
    = Some s /\
    emitted s = [job_received "j3";
                 print_complete_failed "j3" "Unsupported file type: unknown"]
    /\ currentJob s = None /\ pendingJobs s = [] /\ tasks s = [] /\
    "print-queue/j3_photo.gif" ∈ fs s /\
    timers s = [].
Proof.
  eexists. split; [by vm_compute|]. split_and!; by vm_compute.
Qed.

Example successful_job_cleans_up_after_delay :
  option_map (fun s => (observe s, bool_decide ("print-queue/j1_report.pdf" ∈ fs s)))
    (@run laptop init_sys
       [L_socket true; L_tick; L_poll_response 0 (PollJobs [pdf_job]) io_ok;
        L_settle 0 (Resolved (VPages 1)) io_ok;
        L_settle 0 (printed (Some 1)) io_ok])
  = Some ((None, [], [],
           [job_received "j1"; print_started "j1";
            print_complete_ok "j1" (Some 1)],
           [mkTimer 5000 "print-queue/j1_report.pdf"
              "print-queue/j1_report.pdf"]), true)
  /\ @run laptop init_sys
       [L_socket true; L_tick; L_poll_response 0 (PollJobs [pdf_job]) io_ok;
        L_settle 0 (Resolved (VPages 1)) io_ok;
        L_settle 0 (printed (Some 1)) io_ok;
        L_advance 4999; L_timer 0] = None
  /\ option_map (fun s => bool_decide ("print-queue/j1_report.pdf" ∈ fs s))
       (@run laptop init_sys
          [L_socket true; L_tick; L_poll_response 0 (PollJobs [pdf_job]) io_ok;
           L_settle 0 (Resolved (VPages 1)) io_ok;
           L_settle 0 (printed (Some 1)) io_ok;
           L_advance 5000; L_timer 0])
     = Some false.
Proof. split_and!; by vm_compute. Qed.

(* ===================================================================== *)
(** * PDF verification                                                    *)
(* ===================================================================== *)

Section Verify.
Context `{Platform}.









End Verify.



(** The discipline at work: the response of an earlier poll brings [j5]
    while [j4] is printing; [j5] waits. *)
Lemma one_job_at_a_time_fifo_witness :
  exists s,
    @run laptop init_sys
      [L_socket true; L_tick; L_tick;
       L_poll_response 0 (PollJobs [sample_job "j4" "a.pdf"]) io_ok;
       L_settle 1 (Resolved (VPages 1)) io_ok;
       L_poll_response 0 (PollJobs [sample_job "j5" "b.pdf"]) io_ok]
    = Some s /\
    (List.length (job_tasks (tasks s)) <= 1)%nat /\
    (forall t, In t (job_tasks (tasks s)) ->
       currentJob s = Some (jt_id t) /\
       JSMap.first_key (pendingJobs s) = Some (jt_id t)) /\
    (job_tasks (tasks s) = [] -> currentJob s = None /\ pendingJobs s = []) /\
    (exists waiting, hist_enqueued s = (hist_started s ++ waiting)%list).
Proof.
  eexists. split; [by vm_compute|].
  apply (@one_job_at_a_time_fifo laptop
           [L_socket true; L_tick; L_tick;
            L_poll_response 0 (PollJobs [sample_job "j4" "a.pdf"]) io_ok;
            L_settle 1 (Resolved (VPages 1)) io_ok;
            L_poll_response 0 (PollJobs [sample_job "j5" "b.pdf"]) io_ok]).
  - repeat first
      [ apply Forall_nil_2
      | apply Forall_cons_2;
        [cbn [label_ok]; try exact I; repeat constructor|] ].
  - by vm_compute.
Defined.

Example second_job_waits :
  option_map observe
    (@run laptop init_sys
       [L_socket true; L_tick;
        L_poll_response 0
          (PollJobs [sample_job "j4" "a.pdf"; sample_job "j5" "b.pdf"]) io_ok;
        L_settle 0 (Resolved (VPages 1)) io_ok])
  = Some (Some "j4", ["j4"; "j5"], ["j4"],
          [job_received "j4"; print_started "j4"], [])
  /\ option_map observe
    (@run laptop init_sys
       [L_socket true; L_tick;
        L_poll_response 0
          (PollJobs [sample_job "j4" "a.pdf"; sample_job "j5" "b.pdf"]) io_ok;
        L_settle 0 (Resolved (VPages 1)) io_ok;
        L_settle 0 (printed (Some 1)) io_ok])
  = Some (Some "j5", ["j5"], ["j5"],
          [job_received "j4"; print_started "j4";
           print_complete_ok "j4" (Some 1); job_received "j5"],
          [mkTimer 5000 "print-queue/j4_a.pdf" "print-queue/j4_a.pdf"]).
Proof. split; by vm_compute. Qed.

(** C2 (the code departs from the claim).  A job whose id is the empty
    string is a falsy current-job pointer: the poll guard
    [if (state.currentJob)] lets a second poll through while the job is
    being verified, and the job is started a second time; when its first
    activation completes, [j2] is started although the second activation
    is still mid-pipeline. *)
Theorem falsy_job_id_runs_two_jobs :
  option_map observe (@run laptop init_sys overlapping_polls)
  = Some (Some EmptyString, [EmptyString; "j2"],
          [EmptyString; EmptyString],
          [job_received EmptyString; job_received EmptyString], [])
  /\ option_map observe
       (@run laptop init_sys
          (overlapping_polls
             ++ [L_settle 0 (Resolved (VPages 1)) io_ok;
                 L_settle 1 (printed (Some 1)) io_ok]))
     = Some (Some "j2", ["j2"], [EmptyString; "j2"],
             [job_received EmptyString; job_received EmptyString;
              print_started EmptyString;
              print_complete_ok EmptyString (Some 1); job_received "j2"],
             [mkTimer 5000 "print-queue/_a.pdf" "print-queue/_a.pdf"]).
Proof. split; by vm_compute. Qed.
(* ===================================================================== *)
(** * Directory and base name of a path                                   *)
(* ===================================================================== *)

Lemma chars_of_app3 (a b : string) (c : ascii) :
  list_ascii_of_string (a ++ String c b) =
  (list_ascii_of_string a ++ c :: list_ascii_of_string b)%list.
Proof. by rewrite chars_app. Qed.

Lemma rev_app_cons {A} (l1 l2 : list A) (x : A) :
  rev (l1 ++ x :: l2) = (rev l2 ++ x :: rev l1)%list.
Proof. rewrite rev_app_distr. cbn [rev]. by rewrite <- app_assoc. Qed.

(** A run of characters that are not separators, scanned by [dirname]. *)
Lemma dirname_scan_run (run : list ascii) : forall rest i m,
  Forall (fun c => c <> "/"%char) run ->
  Posix.dirname_scan (run ++ rest) i m =
  Posix.dirname_scan rest (i - Z.of_nat (List.length run))
    (match run with [] => m | _ => false end).
Proof.
  induction run as [|c run IH]; intros rest i m Hall.
  { cbn. f_equal. lia. }
  inversion Hall as [|? ? Hc Hrun]; subst.
  cbn [app Posix.dirname_scan].
  destruct (Ascii.eqb_spec c "/"); [done|].
  rewrite IH by done. f_equal; [cbn [List.length]; lia|].
  by destruct run.
Qed.

(** [dirname] of [dir/name]. *)
Lemma dirname_dir_name (dir name : string) (c : ascii) :
  last_char dir = Some c -> c <> "/"%char ->
  name <> EmptyString -> no_slash name ->
  Posix.dirname (dir ++ "/" ++ name) = dir.
Proof.
  intros Hlast Hc Hne Hname.
  destruct dir as [|c0 dir']; [done|].
  cbn [append Posix.dirname].
  change (dir' ++ String "/" name) with (dir' ++ String "/" name).
  rewrite chars_of_app3, rev_app_cons.
  rewrite dirname_scan_run by (by apply List.Forall_rev).
  assert (Hnil : rev (list_ascii_of_string name) <> []).
  { destruct name; [done|]. cbn. by destruct (rev _). }
  destruct (rev (list_ascii_of_string name)) as [|r0 rn] eqn:Ern; [done|].
  cbn [Posix.dirname_scan]. change (Ascii.eqb "/" "/") with true.
  cbn [negb]. cbv iota.
  assert (Hlen : List.length (r0 :: rn) = String.length name).
  { rewrite <- Ern, length_rev. apply chars_length. }
  rewrite Hlen. cbn [String.length]. rewrite length_app_s.
  cbn [String.length].
  set (e := Z.of_nat (S (String.length dir' + S (String.length name))) - 1
            - Z.of_nat (String.length name)).
  assert (He : e = Z.of_nat (S (String.length dir'))) by lia.
  assert (E1 : (e =? -1) = false) by lia. rewrite E1.
  assert (E2 : (Ascii.eqb c0 "/" && (e =? 1))%bool = false).
  { destruct (Ascii.eqb_spec c0 "/") as [->|]; [|done]. cbn [andb].
    destruct dir' as [|c1 dir'']; [|cbn in He; lia].
    cbn in Hlast. congruence. }
  rewrite E2, He, Nat2Z.id. unfold JS.slice. cbn [JS.drop].
  replace (S (String.length dir') - 0)%nat
    with (String.length (String c0 dir')) by (cbn; lia).
  apply (take_app_s (String c0 dir') (String "/" name)).
Qed.

Lemma get_chars (s : string) : forall n : nat,
  String.get n s = nth_error (list_ascii_of_string s) n.
Proof. induction s as [|c s IH]; intros [|n]; cbn; auto. Qed.

Lemma code_at_split (suffix : string) (pre post : list ascii) (c : ascii) :
  list_ascii_of_string suffix = (pre ++ c :: post)%list ->
  Posix.code_at suffix (Z.of_nat (List.length pre)) c = true.
Proof.
  intros Hs. unfold Posix.code_at. rewrite Nat2Z.id, get_chars, Hs.
  rewrite nth_error_app2 by lia. rewrite Nat.sub_diag. cbn.
  apply Ascii.eqb_refl.
Qed.

(** Once the suffix has been matched, or has failed to match, the rest
    of the component leaves the state alone. *)
Lemma base_char_settled suffix c i st :
  Posix.firstNonSlashEnd st <> -1 -> Posix.extIdx st < 0 ->
  Posix.base_char suffix c i st = st.
Proof.
  intros Hf He. unfold Posix.base_char.
  assert (E1 : (Posix.firstNonSlashEnd st =? -1) = false) by lia.
  assert (E2 : (0 <=? Posix.extIdx st) = false) by lia.
  by rewrite E1, E2.
Qed.

Lemma basename_scan_settled suffix (run : list ascii) : forall rest i st,
  Forall (fun c => c <> "/"%char) run ->
  Posix.firstNonSlashEnd st <> -1 -> Posix.extIdx st < 0 ->
  Posix.basename_scan suffix (run ++ rest) i st =
  Posix.basename_scan suffix rest (i - Z.of_nat (List.length run)) st.
Proof.
  induction run as [|c run IH]; intros rest i st Hall Hf He.
  { cbn. f_equal. lia. }
  inversion Hall as [|? ? Hc Hrun]; subst.
  cbn [app Posix.basename_scan].
  destruct (Ascii.eqb_spec c "/"); [done|].
  rewrite base_char_settled by done. rewrite IH by done.
  f_equal. cbn [List.length]. lia.
Qed.

(** The suffix is matched from its last character backwards; when its
    first character has been matched the end of the base name is
    marked. *)
Lemma basename_scan_suffix suffix (e2 : list ascii) :
  forall (e1 e3 rest : list ascii) i st,
  list_ascii_of_string suffix = (e1 ++ e2 ++ e3)%list ->
  Forall (fun c => c <> "/"%char) e2 ->
  Posix.extIdx st = Z.of_nat (List.length e1 + List.length e2) - 1 ->
  Posix.firstNonSlashEnd st <> -1 ->
  Posix.basename_scan suffix (rev e2 ++ rest) i st =
  Posix.basename_scan suffix rest (i - Z.of_nat (List.length e2))
    (Posix.mkBaseScan (Posix.b_start st)
       (match e1, e2 with
        | [], _ :: _ => i - Z.of_nat (List.length e2) + 1
        | _, _ => Posix.b_end st
        end)
       (Posix.b_matchedSlash st)
       (Z.of_nat (List.length e1) - 1)
       (Posix.firstNonSlashEnd st)).
Proof.
  induction e2 as [|c e2 IH] using rev_ind;
    intros e1 e3 rest i st Hs Hall Hidx Hf.
  { cbn [rev app List.length]. destruct st as [a b m x f]. cbn in *.
    subst x. replace (i - Z.of_nat 0) with i by lia.
    replace (Z.of_nat (List.length e1 + 0) - 1)
      with (Z.of_nat (List.length e1) - 1) by lia.
    by destruct e1. }
  apply Forall_app in Hall as [Hall Hc].
  inversion Hc as [|? ? Hc' _]; subst.
  rewrite rev_app_distr. cbn [rev app Posix.basename_scan].
  destruct (Ascii.eqb_spec c "/"); [done|].
  rewrite length_app in *. cbn [List.length] in *.
  assert (Hcode : Posix.code_at suffix (Posix.extIdx st) c = true).
  { rewrite Hidx.
    replace (Z.of_nat (List.length e1 + (List.length e2 + 1)) - 1)
      with (Z.of_nat (List.length (e1 ++ e2))) by (rewrite length_app; lia).
    apply (code_at_split suffix (e1 ++ e2) e3).
    rewrite Hs. by rewrite <- !app_assoc. }
  unfold Posix.base_char.
  assert (E1 : (Posix.firstNonSlashEnd st =? -1) = false) by lia.
  assert (E2 : (0 <=? Posix.extIdx st) = true) by lia.
  rewrite E1, E2, Hcode.
  destruct (Z.eqb_spec (Posix.extIdx st - 1) (-1)) as [Hz|Hnz].
  - (* the first character of the suffix *)
    assert (e1 = [] /\ e2 = []) as [-> ->].
    { split; [destruct e1|destruct e2]; cbn in *; try done; lia. }
    cbn [rev app List.length Nat.add]. f_equal; try lia.
    f_equal; cbn in *; lia.
  - rewrite (IH e1 (c :: e3) rest (i - 1)); cbn [Posix.extIdx
      Posix.firstNonSlashEnd Posix.b_start Posix.b_end Posix.b_matchedSlash].
    + f_equal; try lia. f_equal.
      destruct e1 as [|a e1]; [|done].
      destruct e2 as [|b e2]; [cbn in *; lia|].
      cbn [app List.length]. lia.
    + rewrite Hs. by rewrite <- !app_assoc.
    + done.
    + lia.
    + done.
Qed.

(** [basename] of [dir/stem.x] with the suffix [.x]. *)
Lemma basename_stem (dir stem x : string) :
  stem <> EmptyString -> no_slash stem ->
  x <> EmptyString -> Forall ext_body_char (list_ascii_of_string x) ->
  Posix.basename (dir ++ "/" ++ stem ++ "." ++ x) ("." ++ x) = stem.
Proof.
  intros Hstem Hns Hx Hbody. unfold Posix.basename.
  set (path := dir ++ "/" ++ stem ++ "." ++ x).
  assert (Hlen : String.length path
                 = (String.length dir + 1 + String.length stem + 1
                    + String.length x)%nat).
  { unfold path. rewrite !length_app_s. cbn [String.length append]. lia. }
  assert (Hstem_len : (0 < String.length stem)%nat)
    by (destruct stem; [done|cbn; lia]).
  assert (C1 : (0 <? String.length ("." ++ x))%nat = true) by done.
  assert (C2 : (String.length ("." ++ x) <=? String.length path)%nat = true).
  { apply Nat.leb_le. rewrite Hlen. cbn [append String.length]. lia. }
  assert (C3 : String.eqb ("." ++ x) path = false).
  { apply String.eqb_neq. intros E. apply (f_equal String.length) in E.
    rewrite Hlen in E. cbn [append String.length] in E. lia. }
  rewrite C1, C2, C3. cbn [andb].
  rewrite chars_length, Hlen.
  set (D := list_ascii_of_string dir).
  set (S_ := list_ascii_of_string stem).
  set (X := list_ascii_of_string x).
  assert (Hchars : list_ascii_of_string path = (D ++ "/"%char :: S_ ++ "."%char :: X)%list).
  { unfold path. cbn [append]. rewrite chars_of_app3.
    by rewrite chars_of_app3. }
  rewrite Hchars, rev_app_cons, rev_app_cons, <- app_assoc. cbn [app].
  assert (HXne : X <> []) by (unfold X; by destruct x).
  destruct (rev X) as [|xl rX] eqn:ErX.
  { apply (f_equal (@rev _)) in ErX. by rewrite rev_involutive in ErX. }
  assert (HX : X = (rev rX ++ [xl])%list).
  { apply (f_equal (@rev _)) in ErX. by rewrite rev_involutive in ErX. }
  assert (HXlen : String.length x = S (List.length rX)).
  { rewrite <- chars_length. fold X.
    rewrite HX, length_app, length_rev. cbn. lia. }
  assert (HrX : Forall (fun c => c <> "/"%char) (xl :: rX)).
  { rewrite <- ErX. apply List.Forall_rev.
    eapply Forall_impl; [exact Hbody|]. by intros c [_ ?]. }
  inversion HrX as [|? ? Hxl HrX']; subst.
  cbn [app Posix.basename_scan].
  destruct (Ascii.eqb_spec xl "/"); [done|].
  set (len := Z.of_nat (String.length dir + 1 + String.length stem + 1
                        + String.length x)).
  set (st0 := Posix.base_char ("." ++ x) xl (len - 1)
                (Posix.base_init ("." ++ x))).
  assert (Hsuffix : list_ascii_of_string ("." ++ x)
                    = ([] ++ ("."%char :: rev rX) ++ [xl])%list).
  { cbn [append list_ascii_of_string app]. fold X. by rewrite HX. }
  assert (Est0 : st0 = Posix.mkBaseScan 0 (-1) false
                         (Z.of_nat (List.length rX)) len).
  { unfold st0, Posix.base_char, Posix.base_init.
    cbn [Posix.firstNonSlashEnd Posix.extIdx Posix.b_start Posix.b_end
         Posix.b_matchedSlash].
    change (-1 =? -1) with true. cbv iota.
    cbn [Posix.firstNonSlashEnd Posix.extIdx Posix.b_start Posix.b_end
         Posix.b_matchedSlash].
    cbn [append String.length]. rewrite HXlen.
    assert (E1 : (0 <=? Z.of_nat (S (S (List.length rX))) - 1) = true)
      by (apply Z.leb_le; lia).
    rewrite E1.
    assert (Hcode : Posix.code_at (String "." x)
                      (Z.of_nat (S (S (List.length rX))) - 1) xl = true).
    { replace (Z.of_nat (S (S (List.length rX))) - 1)
        with (Z.of_nat (List.length ("."%char :: rev rX)))
        by (cbn [List.length]; rewrite length_rev; lia).
      apply (code_at_split (String "." x) ("."%char :: rev rX) []).
      exact Hsuffix. }
    rewrite Hcode.
    assert (E2 : (Z.of_nat (S (S (List.length rX))) - 1 - 1 =? -1) = false)
      by (apply Z.eqb_neq; lia).
    rewrite E2. f_equal; lia. }
  change (rX ++ "."%char :: rev S_ ++ "/"%char :: rev D)%list
    with (rX ++ ["."%char] ++ rev S_ ++ "/"%char :: rev D)%list.
  rewrite app_assoc.
  replace (rX ++ ["."%char])%list with (rev ("."%char :: rev rX))
    by (cbn [rev]; by rewrite rev_involutive).
  rewrite (basename_scan_suffix ("." ++ x) ("."%char :: rev rX) [] [xl]);
    [|exact Hsuffix
     |constructor; [done|by apply List.Forall_rev]
     |rewrite Est0; cbn [Posix.extIdx List.length]; rewrite length_rev; lia
     |rewrite Est0; cbn [Posix.firstNonSlashEnd]; lia].
  rewrite basename_scan_settled;
    [|apply List.Forall_rev, Hns
     |rewrite Est0; cbn [Posix.firstNonSlashEnd]; lia
     |cbn [Posix.extIdx List.length]; lia].
  cbn [Posix.basename_scan]. change (Ascii.eqb "/" "/") with true.
  rewrite Est0.
  cbn [Posix.b_matchedSlash Posix.b_start Posix.b_end Posix.extIdx
       Posix.firstNonSlashEnd negb List.length]. cbv iota.
  cbn [Posix.b_matchedSlash Posix.b_start Posix.b_end Posix.extIdx
       Posix.firstNonSlashEnd].
  rewrite !length_rev. unfold S_ at 1 2. rewrite chars_length.
  set (start := len - 1 - 1 - Z.of_nat (S (List.length rX))
                - Z.of_nat (String.length stem) + 1).
  set (end_ := len - 1 - 1 - Z.of_nat (S (List.length rX)) + 1).
  assert (Hstart : start = Z.of_nat (String.length dir + 1)) by lia.
  assert (Hend : end_ = Z.of_nat (String.length dir + 1 + String.length stem))
    by lia.
  assert (E1 : (start =? end_) = false) by lia.
  assert (E2 : (end_ =? -1) = false) by lia.
  rewrite E1, E2, Hstart, Hend, !Nat2Z.id. unfold JS.slice.
  unfold path.
  replace (dir ++ "/" ++ stem ++ "." ++ x)
    with ((dir ++ "/") ++ stem ++ "." ++ x) by (by rewrite app_assoc_s).
  replace (String.length dir + 1)%nat with (String.length (dir ++ "/"))
    by (rewrite length_app_s; done).
  rewrite drop_app_s.
  replace (String.length (dir ++ "/") + String.length stem
           - String.length (dir ++ "/"))%nat
    with (String.length stem) by lia.
  apply take_app_s.
Qed.
(* ===================================================================== *)
(** * Document conversion                                                 *)
(* ===================================================================== *)

Lemma last_char_app (a b : string) :
  b <> EmptyString -> last_char (a ++ b) = last_char b.
Proof.
  intros Hb. unfold last_char. rewrite chars_app.
  destruct (list_ascii_of_string b) as [|c l] eqn:E using rev_ind.
  - by destruct b.
  - by rewrite app_assoc, !last_snoc.
Qed.

Lemma last_char_no_slash (s : string) :
  s <> EmptyString -> no_slash s ->
  exists c, last_char s = Some c /\ c <> "/"%char.
Proof.
  intros Hs Hns. unfold last_char, no_slash in *.
  destruct (list_ascii_of_string s) as [|c l _] eqn:E using rev_ind.
  - by destruct s.
  - exists c. rewrite last_snoc. split; [done|].
    apply Forall_app in Hns as [_ Hc]. by inversion Hc.
Qed.

(** The three path computations of the converter on [dir/stem.x]. *)
Lemma document_paths (dir stem x : string) (c : ascii) :
  last_char dir = Some c -> c <> "/"%char ->
  stem <> EmptyString -> no_slash stem ->
  x <> EmptyString -> Forall ext_body_char (list_ascii_of_string x) ->
  let inputPath := dir ++ "/" ++ stem ++ "." ++ x in
  Path.extname inputPath = "." ++ x /\
  Posix.dirname inputPath = dir /\
  Posix.basename inputPath ("." ++ x) = stem.
Proof.
  intros Hlast Hc Hstem Hns Hx Hbody inputPath. split_and!.
  - destruct (last_char_no_slash stem Hstem Hns) as (cs & Hcs & Hne).
    unfold inputPath.
    replace (dir ++ "/" ++ stem ++ "." ++ x)
      with ((dir ++ "/" ++ stem) ++ "." ++ x)
      by (by rewrite !app_assoc_s).
    apply (extname_stem_ext _ x cs); try done.
    replace (dir ++ "/" ++ stem) with ((dir ++ "/") ++ stem)
      by (by rewrite app_assoc_s).
    by rewrite last_char_app.
  - apply (dirname_dir_name dir _ c); try done.
    + by destruct stem.
    + unfold no_slash in *. rewrite chars_app. apply Forall_app.
      split; [done|]. cbn. constructor; [done|].
      eapply Forall_impl; [exact Hbody|]. by intros a [_ ?].
  - by apply basename_stem.
Qed.

Section DocumentFacts.
Context `{Platform}.

(** X9.  Document conversion of [dir/stem.x] runs LibreOffice with
    [dir] as the output directory and trusts only the output file: it
    resolves to [path.join(dir, stem.pdf)] exactly when the command
    ended without error and that file exists afterwards; a command that
    ended without error but left no such file is a failure; a failing
    command is a failure that carries the command's error output, or the
    error message when there is none.  Every failure is a conversion
    error of the document kind. *)
Theorem convertDocumentToPDF_output (dir stem x : string) (c : ascii)
  (w : FS) :
  last_char dir = Some c -> c <> "/"%char ->
  stem <> EmptyString -> no_slash stem ->
  x <> EmptyString -> Forall ext_body_char (list_ascii_of_string x) ->
  let inputPath := dir ++ "/" ++ stem ++ "." ++ x in
  let out := path_join dir (stem ++ ".pdf") in
  let r := exec (libreoffice_cmd dir inputPath) w in
  (error r.1 = None -> existsSync out r.2 = true ->
     convertDocumentToPDF inputPath w = (Resolved out, r.2)) /\
  (error r.1 = None -> existsSync out r.2 = false ->
     convertDocumentToPDF inputPath w
     = (Rejected (ConversionError "PDF output file not created" "document"),
        r.2)) /\
  (forall e, error r.1 = Some e ->
     convertDocumentToPDF inputPath w
     = (Rejected (ConversionError
          ("LibreOffice conversion failed: "
           ++ (if JS.truthy (stderr r.1) then stderr r.1 else message e))
          "document"), r.2)) /\
  (forall res w',
     convertDocumentToPDF inputPath w = (Resolved res, w') ->
     res = out /\ w' = r.2 /\ error r.1 = None /\ existsSync out w' = true).
Proof.
  intros Hlast Hc Hstem Hns Hx Hbody inputPath out r.
  destruct (document_paths dir stem x c Hlast Hc Hstem Hns Hx Hbody)
    as (Eext & Edir & Ebase).
  fold inputPath in Eext, Edir, Ebase.
  assert (Hrun : convertDocumentToPDF inputPath w =
            match error r.1 with
            | Some e =>
                (Rejected (ConversionError
                   ("LibreOffice conversion failed: "
                    ++ (if JS.truthy (stderr r.1) then stderr r.1
                        else message e)) "document"), r.2)
            | None =>
                if existsSync out r.2 then (Resolved out, r.2)
                else (Rejected (ConversionError "PDF output file not created"
                                  "document"), r.2)
            end).
  { unfold convertDocumentToPDF. rewrite Eext, Edir, Ebase.
    fold out. fold r. by destruct r as [r0 w0]. }
  rewrite Hrun. split_and!.
  - by intros -> ->.
  - by intros -> ->.
  - by intros e ->.
  - intros res w'. destruct (error r.1); [done|].
    destruct (existsSync out r.2) eqn:Hex; [|done].
    intros [= <- <-]. done.
Qed.

End DocumentFacts.

(** An upload [notes.docx] converted on an office machine. *)
Lemma convertDocumentToPDF_output_witness :
  @convertDocumentToPDF (office_machine "print-queue/j2_notes.pdf")
    "print-queue/j2_notes.docx" {[ "print-queue/j2_notes.docx" ]}
  = (Resolved "print-queue/j2_notes.pdf",
     {[ "print-queue/j2_notes.pdf" ]} ∪ {[ "print-queue/j2_notes.docx" ]}).
Proof.
  assert (Hns : no_slash "j2_notes") by (repeat constructor; done).
  assert (Hbody : Forall ext_body_char (list_ascii_of_string "docx"))
    by (repeat constructor; done).
  destruct (@convertDocumentToPDF_output
              (office_machine "print-queue/j2_notes.pdf")
              "print-queue" "j2_notes" "docx" "e"%char
              {[ "print-queue/j2_notes.docx" ]}
              eq_refl ltac:(done) ltac:(done) Hns ltac:(done) Hbody)
    as (Hok & _).
  apply Hok; by vm_compute.
Defined.
(* ===================================================================== *)
(** * Printer resolution: the parsed fields                               *)
(* ===================================================================== *)

Lemma match_printer_here_nonempty (s name : string) :
  match_printer_here s = Some name -> name <> EmptyString.
Proof.
  unfold match_printer_here.
  destruct (JS.startsWith s "printer"); [|done].
  destruct (JS.drop 7 s) as [|c rest]; [done|].
  destruct (JS.is_space c); [|done].
  destruct (non_space_run (JS.trimStart rest)); [done|].
  by intros [= <-].
Qed.

Lemma match_printer_nonempty (line name : string) :
  match_printer line = Some name -> name <> EmptyString.
Proof.
  induction line as [|c line IH]; cbn [match_printer].
  - destruct (match_printer_here EmptyString) eqn:E; [|done].
    intros [= <-]. by eapply match_printer_here_nonempty.
  - destruct (match_printer_here (String c line)) eqn:E.
    + intros [= <-]. by eapply match_printer_here_nonempty.
    + exact IH.
Qed.

(** Every printer the [forEach] collects has a name. *)
Lemma scan_lines_named (ls : list string) : forall d av,
  Forall (fun n => n <> EmptyString) av ->
  Forall (fun n => n <> EmptyString) (fold_left scan_line ls (d, av)).2.
Proof.
  induction ls as [|l ls IH]; intros d av Hav; [done|].
  cbn [fold_left]. unfold scan_line at 2.
  destruct (JS.startsWith l "system default destination:"); [by apply IH|].
  destruct (JS.startsWith l "printer "); [|by apply IH].
  destruct (match_printer l) as [name|] eqn:E; [|by apply IH].
  apply IH. apply Forall_app. split; [done|]. constructor; [|done].
  by eapply match_printer_nonempty.
Qed.

Lemma classify_status_detail (output : string) :
  detail (classify_status output) <> Some "no_printer_configured".
Proof.
  unfold classify_status.
  repeat (match goal with
          | |- context [if ?b then _ else _] => destruct b
          end; try done).
Qed.

Section DetectMore.
Context `{Platform}.

Lemma detectPrinter_auto_named (w : FS) (d : string) :
  detectPrinter "auto" w = Resolved d -> d <> EmptyString.
Proof.
  unfold detectPrinter. cbn [String.eqb Ascii.eqb Bool.eqb negb].
  destruct (exec "lpstat -p -d" w) as [r w'].
  destruct (error r); [done|].
  pose proof (scan_lines_named (JS.split LF (stdout r)) None []
                ltac:(constructor)) as Hnamed.
  destruct (fold_left scan_line _ _) as [dflt av]. cbn [snd] in Hnamed.
  destruct dflt as [[|c0 d0]|]; cbn [JS.truthy_opt JS.truthy].
  - destruct av as [|a av]; [done|]. intros [= <-]. by inversion Hnamed.
  - by intros [= <-].
  - destruct av as [|a av]; [done|]. intros [= <-]. by inversion Hnamed.
Qed.

Lemma detectPrinter_configured_named (env : option string) (w : FS)
  (d : string) :
  detectPrinter (configured_printer env) w = Resolved d -> d <> EmptyString.
Proof.
  unfold configured_printer.
  destruct env as [[|c name]|]; cbn [JS.truthy];
    try apply detectPrinter_auto_named.
  unfold detectPrinter at 1.
  destruct (String.eqb_spec (String c name) "auto") as [->|Hne];
    cbn [negb].
  - apply detectPrinter_auto_named.
  - by intros [= <-].
Qed.

(** X10.  In automatic mode the default destination is the text between
    the first and the second colon of the line
    [system default destination: ...], trimmed: when that text is not
    blank, it is the printer that is resolved, so a destination whose
    name holds a colon is cut at the colon. *)
Theorem detectPrinter_default_cut_at_colon (w : FS) (ls : list string)
  (field tail : string) :
  error (exec "lpstat -p -d" w).1 = None ->
  stdout (exec "lpstat -p -d" w).1 = lines ls ->
  Forall one_line ls ->
  Forall (fun c => c <> ":"%char) (list_ascii_of_string field) ->
  JS.trim field <> EmptyString ->
  In ("system default destination:" ++ field ++ ":" ++ tail) ls ->
  (forall l, In l ls -> is_default_line l = true ->
     l = "system default destination:" ++ field ++ ":" ++ tail) ->
  detectPrinter "auto" w = Resolved (JS.trim field).
Proof.
  intros He Hout Hls Hfield Hne Hin Huniq.
  rewrite detectPrinter_parsed by done. rewrite Hout.
  rewrite split_lines; [|done|by destruct ls]. cbv zeta.
  rewrite (scan_lines_default_seen ls (JS.trim field)).
  - by destruct (JS.trim field).
  - apply Forall_forall. intros l Hl Hdl.
    rewrite (Huniq l) by (by apply list_elem_of_In || done).
    by rewrite default_field_cut.
  - apply Exists_exists.
    exists ("system default destination:" ++ field ++ ":" ++ tail).
    split; [by apply list_elem_of_In|done].
Qed.

(** X11.  A detection that succeeds, called as the connect handler
    calls it, never yields an empty printer name: the name passes the
    truthiness tests of its users, so the health check of the detected
    printer queries the spooler and never answers
    [no_printer_configured]. *)
Theorem detectPrinter_name_usable (env : option string) (w w' : FS)
  (d : string) (h : PrinterHealth) :
  detectPrinter (configured_printer env) w = Resolved d ->
  checkPrinterStatus (Some d) w' = Resolved h ->
  d <> EmptyString /\ or_unknown (Some d) = d /\
  detail h <> Some "no_printer_configured".
Proof.
  intros Hd Hh. apply detectPrinter_configured_named in Hd.
  split; [done|]. split; [by destruct d|].
  unfold checkPrinterStatus in Hh. destruct d as [|c d]; [done|].
  destruct (exec _ w') as [r w2].
  destruct (_ && _); injection Hh as <-; [done|].
  apply classify_status_detail.
Qed.

End DetectMore.

(** A spooler whose default destination is named [Office:2]. *)
Lemma detectPrinter_default_cut_at_colon_witness :
  @detectPrinter
     (spooler_says (lines ["printer Office:2 is idle.  enabled since Mon";
                           "system default destination: Office:2"]))
     "auto" ∅ = Resolved "Office".
Proof.
  apply (@detectPrinter_default_cut_at_colon
           (spooler_says (lines ["printer Office:2 is idle.  enabled since Mon";
                                 "system default destination: Office:2"]))
           ∅ ["printer Office:2 is idle.  enabled since Mon";
              "system default destination: Office:2"] " Office" "2").
  - reflexivity.
  - reflexivity.
  - repeat constructor; by vm_compute.
  - repeat constructor; by vm_compute.
  - by vm_compute.
  - right. left. reflexivity.
  - intros l Hl Hd. cbn in Hl.
    destruct Hl as [<-|[<-|[]]]; by vm_compute in Hd.
Defined.

(** The printer detected on a machine with one printer, and its health. *)
Lemma detectPrinter_name_usable_witness :
  "Canon_TS" <> EmptyString /\ or_unknown (Some "Canon_TS") = "Canon_TS" /\
  detail (mkHealth healthy None) <> Some "no_printer_configured".
Proof.
  apply (@detectPrinter_name_usable
           (spooler_says "printer Canon_TS is idle.  enabled since Mon")
           None ∅ ∅ "Canon_TS" (mkHealth healthy None)); by vm_compute.
Defined.

(* ===================================================================== *)
(** * The socket client                                                   *)
(* ===================================================================== *)

Lemma status_eqb_eq (a b : HealthStatus) : status_eqb a b = true <-> a = b.
Proof. destruct a, b; cbn; split; congruence. Qed.

Section SocketFacts.
Context `{Platform}.

(** X12.  Every connect ends with exactly one registration, whether
    the printer detection succeeds or not.  After a successful detection
    the agent registers the detected printer and remembers it; after a
    failed one it keeps the printer it knew before and registers that
    one, or [unknown] when it knew none, and the failure is only logged.
    The registered printer name is never empty, and the connect handler
    touches nothing of the job state but the printer name. *)
Theorem connect_registers (kioskId hostname : string) (env : option string)
  (w : FS) (c : Client) :
  let c' := on_connect kioskId hostname env w c in
  (exists name,
     sent c' = (sent c ++ [register kioskId hostname name])%list /\
     name <> EmptyString) /\
  (forall d,
     detectPrinter (configured_printer env) w = Resolved d ->
     printerName (state c') = Some d /\
     sent c' = (sent c ++ [register kioskId hostname d])%list /\
     warned c' = warned c) /\
  (forall e,
     detectPrinter (configured_printer env) w = Rejected e ->
     printerName (state c') = printerName (state c) /\
     sent c'
     = (sent c ++ [register kioskId hostname
                     (or_unknown (printerName (state c)))])%list /\
     warned c'
     = (warned c ++ [("Could not detect printer: " ++ message e)%string])%list)
  /\ currentJob (state c') = currentJob (state c)
  /\ pendingJobs (state c') = pendingJobs (state c)
  /\ tasks (state c') = tasks (state c)
  /\ emitted (state c') = emitted (state c)
  /\ fs (state c') = fs (state c)
  /\ timers (state c') = timers (state c).
Proof.
  intros c'. unfold c', on_connect, connect_resume.
  destruct (detectPrinter (configured_printer env) w) as [d|e] eqn:Hd;
    cbn [state sent warned]; sys_simpl.
  - apply detectPrinter_configured_named in Hd.
    assert (Hu : or_unknown (Some d) = d) by (by destruct d).
    rewrite Hu. split_and!; try done.
    + by exists d.
    + by intros d' [= <-].
  - split_and!; try done.
    + eexists. split; [done|].
      unfold or_unknown. destruct (printerName (state c)) as [[|a n]|]; done.
    + by intros e' [= <-].
Qed.

(** X13.  A heartbeat is started only while the socket is up: a firing
    on a disconnected socket returns at once, without a status check.  A
    firing on a connected socket awaits the status check of the printer
    known at that moment; the check never fails, and when it settles the
    callback emits exactly one heartbeat on the client as it is by then,
    whether or not the socket is still up.  That heartbeat carries the
    health that the check computed and the printer name, job state and
    counters read after the check; it says [ready] whenever a printer
    name is set at that moment, whatever the health is.  The status is
    logged only when it differs from the status of the previous
    heartbeat. *)
Theorem heartbeat_reports (kioskId : string) (uptime memory : Z) (w : FS)
  (c : Client) :
  (connected (state c) = false -> heartbeat_tick w c = None) /\
  (connected (state c) = true ->
     exists h,
       heartbeat_tick w c = Some (Resolved h) /\
       checkPrinterStatus (printerName (state c)) w = Resolved h /\
       forall c1 : Client,
       exists c',
         heartbeat_resume kioskId uptime memory (Resolved h) c1 = Some c' /\
         state c' = state c1 /\
         sent c'
         = (sent c1
              ++ [heartbeat kioskId uptime
                    (if JS.truthy_opt (printerName (state c1))
                     then "ready" else "no_printer")
                    (status h) (detail h)
                    (currentJob (state c1))
                    (JSMap.size (pendingJobs (state c1)))
                    memory (pollCount (state c1))
                    (jobsFetchedToday (state c1))
                    (conversionsToday (state c1))
                    (lastPollTime (state c1))])%list /\
         lastPrinterStatus c' = status h /\
         status_log c'
         = (status_log c1
              ++ (if status_eqb (status h) (lastPrinterStatus c1) then []
                  else [h]))%list /\
         warned c' = warned c1) /\
  (forall (pn : option string) (w0 : FS) (c0 : Client),
     exists c',
       heartbeat_resume kioskId uptime memory (checkPrinterStatus pn w0) c0
       = Some c').
Proof.
  assert (Hres : forall pn w0, exists h, checkPrinterStatus pn w0 = Resolved h).
  { intros pn w0. unfold checkPrinterStatus.
    destruct pn as [[|a n]|]; eauto.
    destruct (exec _ w0) as [r w1]. destruct (_ && _); eauto. }
  split_and!.
  - intros Hc. unfold heartbeat_tick. by rewrite Hc.
  - intros Hc. unfold heartbeat_tick. rewrite Hc. cbn [negb].
    destruct (Hres (printerName (state c)) w) as (h & Hh).
    rewrite Hh. exists h. split; [done|]. split; [done|].
    intros c1. cbn [heartbeat_resume]. eexists. split; [done|].
    cbn [state sent lastPrinterStatus status_log warned].
    split; [done|]. split; [done|].
    destruct (status_eqb (status h) (lastPrinterStatus c1)) eqn:E;
      cbn [negb].
    + apply status_eqb_eq in E. split; [done|]. by rewrite app_nil_r.
    + done.
  - intros pn w0 c0. destruct (Hres pn w0) as (h & ->). cbn. eauto.
Qed.

(** X14.  The handlers of the socket client leave the job queue alone:
    a connect, a ping, a heartbeat (the part of its callback that runs
    once the status check has settled, whatever the check returned; the
    part before it changes nothing) or a daily reset changes neither the
    current job, nor the pending map, nor the suspended activations, nor
    the files and timers; so they preserve the one-job-at-a-time
    discipline of the job handler.  The daily reset clears the three
    counters at 00:00 and only then. *)
Theorem socket_client_keeps_queue (kioskId hostname : string)
  (env : option string) (uptime memory hours minutes : Z) (w : FS)
  (r : Settled PrinterHealth) (c c' : Client) :
  c' = on_connect kioskId hostname env w c \/
  c' = on_ping uptime c \/
  heartbeat_resume kioskId uptime memory r c = Some c' \/
  c' = daily_reset hours minutes c ->
  currentJob (state c') = currentJob (state c) /\
  pendingJobs (state c') = pendingJobs (state c) /\
  tasks (state c') = tasks (state c) /\
  fs (state c') = fs (state c) /\
  timers (state c') = timers (state c) /\
  emitted (state c') = emitted (state c) /\
  (serialized (state c) -> serialized (state c')) /\
  (c' = daily_reset hours minutes c ->
     if ((hours =? 0) && (minutes =? 0))%bool
     then pollCount (state c') = 0 /\ jobsFetchedToday (state c') = 0 /\
          conversionsToday (state c') = 0
     else c' = c).
Proof.
  intros Hc'.
  assert (Hframe :
    currentJob (state c') = currentJob (state c) /\
    pendingJobs (state c') = pendingJobs (state c) /\
    tasks (state c') = tasks (state c) /\
    fs (state c') = fs (state c) /\
    timers (state c') = timers (state c) /\
    emitted (state c') = emitted (state c) /\
    hist_enqueued (state c') = hist_enqueued (state c) /\
    hist_started (state c') = hist_started (state c)).
  { destruct Hc' as [->|[->|[Hb| ->]]].
    - unfold on_connect, connect_resume.
      by destruct (detectPrinter _ _).
    - done.
    - unfold heartbeat_resume in Hb.
      destruct r; [|done]. by injection Hb as <-.
    - unfold daily_reset. by destruct (_ && _). }
  destruct Hframe as (F1 & F2 & F3 & F4 & F5 & F6 & F7 & F8).
  split_and!; try done.
  - intros (finished & Henq & Htr & Hinv). exists finished.
    by rewrite F1, F2, F3, F7, F8.
  - intros ->. unfold daily_reset. by destruct (_ && _).
Qed.

End SocketFacts.

(** A reconnect on a machine whose spooler has gone away: the printer
    detected earlier is registered again. *)
Lemma socket_client_keeps_queue_witness :
  let c := @on_connect (spooler_says
                          "printer Canon_TS is idle.  enabled since Mon")
             "kiosk_pi" "pi" None ∅ init_client in
  let c' := @on_connect spooler_down "kiosk_pi" "pi" None ∅ c in
  pendingJobs (state c') = pendingJobs (state c) /\
  sent c' = [register "kiosk_pi" "pi" "Canon_TS";
             register "kiosk_pi" "pi" "Canon_TS"].
Proof.
  intros c c'.
  destruct (@socket_client_keeps_queue spooler_down "kiosk_pi" "pi" None
              0 0 0 0 ∅ (Rejected (PlainError "lpstat")) c c'
              ltac:(by left))
    as (_ & Hp & _).
  split; [exact Hp|by vm_compute].
Defined.

(** The first connect on a machine with one printer. *)
Lemma connect_registers_witness :
  sent (@on_connect
          (spooler_says "printer Canon_TS is idle.  enabled since Mon")
          "kiosk_pi" "pi" None ∅ init_client)
  = [register "kiosk_pi" "pi" "Canon_TS"].
Proof.
  destruct (@connect_registers
              (spooler_says "printer Canon_TS is idle.  enabled since Mon")
              "kiosk_pi" "pi" None ∅ init_client)
    as (_ & Hdetected & _).
  destruct (Hdetected "Canon_TS" ltac:(by vm_compute)) as (_ & Hsent & _).
  exact Hsent.
Defined.

(** A heartbeat whose status check finds an open cover and settles after
    the socket has dropped: it is emitted all the same. *)
Lemma heartbeat_reports_witness :
  let P := spooler_says "printer HP_LaserJet is idle.  Cover Open." in
  let dropped :=
    {| state := with_connected false (state online_client);
       sent := []; lastPrinterStatus := unknown; status_log := [];
       warned := [] |} in
  exists h c',
    @heartbeat_tick P ∅ online_client = Some (Resolved h) /\
    heartbeat_resume "kiosk_pi" 60 40 (Resolved h) dropped = Some c' /\
    connected (state c') = false /\
    sent c' = [heartbeat "kiosk_pi" 60 "ready" error_ (Some "cover-open")
                 None 0 40 0 0 0 None] /\
    lastPrinterStatus c' = error_.
Proof.
  intros P dropped.
  destruct (@heartbeat_reports P "kiosk_pi" 60 40 ∅ online_client)
    as (_ & Hup & _).
  destruct (Hup eq_refl) as (h & Htick & Hh & Hlater).
  destruct (Hlater dropped) as (c' & Hres & Hst & Hsent & Hlast & _).
  exists h, c'. split; [exact Htick|]. split; [exact Hres|].
  split; [by rewrite Hst|].
  vm_compute in Hh. injection Hh as <-.
  split; [exact Hsent|exact Hlast].
Defined.
(* ===================================================================== *)
(** * The job handler: files, print outcome, queue                        *)
(* ===================================================================== *)

(** The failure of [j2] in the busy agent removes no file. *)
Lemma only_due_timers_delete_witness :
  fs busy_agent
  ⊆ fs (default init_sys
          (@step laptop busy_agent
             (L_settle 0 (Rejected libreoffice_failed) io_ok))).
Proof.
  apply (@only_due_timers_delete laptop busy_agent
           (L_settle 0 (Rejected libreoffice_failed) io_ok)).
  - by vm_compute.
  - done.
  - done.
Defined.

Section MapLaws.
Context {V : Type}.
Implicit Types (m : list (string * V)) (k : string) (v : V).

(** Looking up after [set]. *)
Lemma get_set k k' v m :
  JSMap.get k (JSMap.set k' v m)
  = if String.eqb k k' then Some v else JSMap.get k m.
Proof.
  induction m as [|[k0 v0] m IH]; cbn [JSMap.set JSMap.get].
  - done.
  - destruct (String.eqb_spec k' k0) as [->|Hne]; cbn [JSMap.get].
    + by destruct (String.eqb k k0).
    + rewrite IH. destruct (String.eqb_spec k k0) as [->|Hne2]; [|done].
      destruct (String.eqb_spec k0 k'); [congruence|done].
Qed.

End MapLaws.

Section JobsMore.
Context `{Platform}.

Lemma enqueue_pending s job :
  pendingJobs (enqueue s job)
  = JSMap.set (job_id job) job (pendingJobs s).
Proof.
  unfold enqueue. by destruct (negb (JSMap.has (job_id job) (pendingJobs s))).
Qed.

Lemma enqueue_frame s job :
  tasks (enqueue s job) = tasks s /\ emitted (enqueue s job) = emitted s /\
  currentJob (enqueue s job) = currentJob s /\
  hist_started (enqueue s job) = hist_started s /\
  jobsFetchedToday (enqueue s job) = jobsFetchedToday s /\
  connected (enqueue s job) = connected s.
Proof.
  unfold enqueue. by destruct (negb (JSMap.has (job_id job) (pendingJobs s))).
Qed.

Lemma enqueue_all_frame (jobs : list Job) : forall s,
  let s' := fold_left enqueue jobs s in
  tasks s' = tasks s /\ emitted s' = emitted s /\
  currentJob s' = currentJob s /\ hist_started s' = hist_started s /\
  jobsFetchedToday s' = jobsFetchedToday s /\ connected s' = connected s.
Proof.
  induction jobs as [|job jobs IH]; intros s; [done|].
  cbn [fold_left]. cbv zeta.
  destruct (IH (enqueue s job)) as (A1 & A2 & A3 & A4 & A5 & A6).
  destruct (enqueue_frame s job) as (B1 & B2 & B3 & B4 & B5 & B6).
  split_and!; congruence.
Qed.

(** The loop [for (const job of jobs) state.pendingJobs.set(job.job_id,
    job)]. *)
Lemma enqueue_all_queue (jobs : list Job) : forall s,
  let s' := fold_left enqueue jobs s in
  JSMap.keys (pendingJobs s')
  = (JSMap.keys (pendingJobs s)
       ++ new_ids (JSMap.keys (pendingJobs s)) jobs)%list /\
  (forall k, JSMap.get k (pendingJobs s')
             = match last_with_id k jobs with
               | Some job => Some job
               | None => JSMap.get k (pendingJobs s)
               end).
Proof.
  induction jobs as [|job jobs IH]; intros s.
  { cbn. by rewrite app_nil_r. }
  cbn [fold_left]. cbv zeta.
  destruct (IH (enqueue s job)) as (Hk & Hg).
  rewrite enqueue_pending in Hk, Hg. split.
  - rewrite Hk, keys_set. cbn [new_ids].
    destruct (JSMap.has (job_id job) (pendingJobs s)) eqn:Hhas.
    + apply has_In in Hhas. rewrite bool_decide_eq_true_2; [done|].
      by apply list_elem_of_In.
    + rewrite bool_decide_eq_false_2; [by rewrite <- app_assoc|].
      intros Hin. apply list_elem_of_In, has_In in Hin. congruence.
  - intros k. rewrite Hg, get_set. cbn [last_with_id].
    destruct (last_with_id k jobs); [done|].
    by destruct (String.eqb k (job_id job)).
Qed.


(** X5.  What the agent reports about the print.  When the [lp]
    command ends without error, the success event carries the page count
    that came with the job from the cloud and the cleanup is scheduled;
    when it fails, the failure event carries "Print command failed: "
    followed by the error output of the command, or by the error message
    when there is no error output, and no cleanup is scheduled. *)
Theorem print_outcome_reported s n t io (pn : option string) (w : FS) :
  tasks s !! n = Some (T_job t) -> jt_await t = AwPrintDocument ->
  let lp := (exec ("lp -d " ++ default "null" pn ++ " " ++ DQUOTE
                   ++ jt_final t ++ DQUOTE) w).1 in
  let r := (printDocument pn (jt_final t) (pages (jt_job t)) w).1 in
  exists s',
    step s (L_settle n (print_settled r) io) = Some s' /\
    match error lp with
    | None =>
        (exists later,
           emitted s'
           = (emitted s
                ++ (if connected s
                    then [print_complete_ok (jt_id t) (pages (jt_job t))]
                    else []) ++ later)%list) /\
        timers s' = (timers s ++ [mkTimer (now s + 5000) (jt_final t)
                                    (jt_original t)])%list
    | Some e =>
        (exists later,
           emitted s'
           = (emitted s
                ++ (if connected s
                    then [print_complete_failed (jt_id t)
                            ("Print command failed: "
                             ++ (if JS.truthy (stderr lp) then stderr lp
                                 else message e))]
                    else []) ++ later)%list) /\
        timers s' = timers s
    end.
Proof.
  intros Hn Haw lp r.
  assert (Hr : r = match error lp with
                   | Some e =>
                       Rejected (PrinterError
                         ("Print command failed: " ++ stderr_or_message lp e)
                         pn)
                   | None => Resolved (mkPrintResult true (pages (jt_job t)))
                   end).
  { unfold r, lp, printDocument. destruct (exec _ w) as [r0 w0].
    cbn [fst]. by destruct (error r0). }
  set (s0 := with_tasks (delete n (tasks s)) s).
  destruct (error lp) as [e|] eqn:Hlp; rewrite Hr; cbn [print_settled].
  - rewrite (settle_rejected s n t _ io Hn). fold s0.
    destruct (finally_block_spec io (jt_id t)
                (catch_block (jt_id t)
                   (PrinterError
                      ("Print command failed: " ++ stderr_or_message lp e) pn)
                   s0))
      as (s' & Hs' & (_ & _ & _ & (evs & Hev) & _) & Ht & _).
    exists s'. split; [done|]. unfold catch_block in *.
    rewrite emit_emitted in Hev. rewrite emit_timers in Ht.
    split; [|exact Ht]. exists evs. rewrite Hev. unfold s0. sys_simpl.
    cbn [message]. unfold stderr_or_message. by rewrite <- app_assoc.
  - cbn [step]. rewrite Hn. unfold try_resume, try_complete. rewrite Haw.
    cbn [settle]. fold s0.
    set (s1 := emit_if_connected _ s0).
    set (s2 := with_timers _ s1).
    destruct (finally_block_spec io (jt_id t) s2)
      as (s' & Hs' & (_ & _ & _ & (evs & Hev) & _) & Ht & _).
    exists s'. split; [done|]. split.
    + exists evs. rewrite Hev. unfold s2, s1. sys_simpl.
      rewrite emit_emitted. unfold s0. sys_simpl. cbn [pr_pages].
      by rewrite <- app_assoc.
    + rewrite Ht. unfold s2, s1. sys_simpl. rewrite emit_timers.
      cbn [pr_pages].
      destruct (same_control_emit
                  (print_complete_ok (jt_id t) (pages (jt_job t))) s0)
        as (_ & _ & _ & _ & _ & _ & -> & _).
      done.
Qed.

(** X6.  A poll response that arrives while a job is in progress only
    fills the queue: the ids that are not pending yet are appended in
    the order of the response, an id that is already pending keeps its
    place, each id holds the last job the response carries for it, the
    counter of fetched jobs grows by the length of the response, and no
    pipeline is started. *)
Theorem poll_response_queue s n jobs io s' :
  tasks s !! n = Some T_poll ->
  JS.truthy_opt (currentJob s) = true ->
  step s (L_poll_response n (PollJobs jobs) io) = Some s' ->
  JSMap.keys (pendingJobs s')
  = (JSMap.keys (pendingJobs s)
       ++ new_ids (JSMap.keys (pendingJobs s)) jobs)%list /\
  (forall k, JSMap.get k (pendingJobs s')
             = match last_with_id k jobs with
               | Some job => Some job
               | None => JSMap.get k (pendingJobs s)
               end) /\
  jobsFetchedToday s' = jobsFetchedToday s + Z.of_nat (List.length jobs) /\
  tasks s' = delete n (tasks s) /\ emitted s' = emitted s /\
  currentJob s' = currentJob s /\ hist_started s' = hist_started s.
Proof.
  intros Hn Hcur. cbn [step]. rewrite Hn. unfold poll_resume.
  destruct jobs as [|job jobs].
  { intros [= <-]. sys_simpl. cbn. rewrite app_nil_r.
    split_and!; try done. lia. }
  set (s1 := with_jobsFetchedToday _ _).
  destruct (enqueue_all_frame (job :: jobs) s1) as (F1 & F2 & F3 & F4 & F5 & _).
  destruct (enqueue_all_queue (job :: jobs) s1) as (Q1 & Q2).
  cbv zeta in *.
  set (s2 := fold_left enqueue (job :: jobs) s1) in *.
  assert (Hc2 : JS.truthy_opt (currentJob s2) = true) by (by rewrite F3).
  rewrite Hc2. cbn [negb andb]. intros [= <-].
  split_and!; try done.
Qed.

(** X7.  The agent keeps no record of the jobs it has finished: when
    nothing is in progress and nothing is queued, a job that arrives is
    started at once, whatever the history; so a job that is delivered
    again after it has finished is run again.  It is either
    mid-pipeline afterwards, or it has failed at once and the failure
    has been reported. *)
Theorem redelivered_job_runs_again s n job io s' :
  tasks s !! n = Some T_poll -> idle s ->
  step s (L_poll_response n (PollJobs [job]) io) = Some s' ->
  hist_started s' = (hist_started s ++ [job_id job])%list /\
  (In (job_id job) (hist_started s) -> ~ NoDup (hist_started s')) /\
  ((exists t, tasks s' = (delete n (tasks s) ++ [T_job t])%list /\
              jt_id t = job_id job /\ jt_job t = job /\
              currentJob s' = Some (job_id job)) \/
   (exists e, tasks s' = delete n (tasks s) /\
              currentJob s' = None /\ pendingJobs s' = [] /\
              exists before,
                emitted s'
                = (before ++ failure_event (connected s) (job_id job) e)%list)).
Proof.
  intros Hn [Hcur Hpend]. cbn [step]. rewrite Hn. unfold poll_resume.
  set (s1 := with_jobsFetchedToday _ _).
  cbn [fold_left].
  assert (Hq : pendingJobs (enqueue s1 job) = [(job_id job, job)]).
  { rewrite enqueue_pending. unfold s1. sys_simpl. by rewrite Hpend. }
  destruct (enqueue_frame s1 job) as (F1 & F2 & F3 & F4 & F5 & F6).
  set (s2 := enqueue s1 job) in *.
  assert (Hc2 : JS.truthy_opt (currentJob s2) = false) by (by rewrite F3).
  rewrite Hc2, Hq. cbn [negb andb JSMap.size List.length Nat.ltb Nat.leb
    JSMap.first_key JSMap.keys map fst head].
  rewrite processJob_unfold, Hq, get_head. cbv zeta.
  set (s3 := with_hist_started _ _).
  destruct (try_begin io (job_id job) job s3) as [s4 fl] eqn:Hb.
  pose proof (try_begin_control _ _ _ _ _ _ Hb) as
    (C1 & C2 & C3 & C4 & C5 & C6 & _).
  pose proof (try_begin_flow _ _ _ _ _ _ Hb) as Hfl.
  assert (H3 : hist_started s4 = (hist_started s ++ [job_id job])%list).
  { rewrite C5. unfold s3. sys_simpl. by rewrite F4. }
  assert (Hdup : forall s'', hist_started s''
                   = (hist_started s ++ [job_id job])%list ->
                 In (job_id job) (hist_started s) ->
                 ~ NoDup (hist_started s'')).
  { intros s'' -> Hin Hnd. apply NoDup_app in Hnd as (_ & Hdis & _).
    apply (Hdis (job_id job)); [by apply list_elem_of_In|].
    by apply list_elem_of_here. }
  destruct fl as [t| |e]; [|done|]; cbn [settle].
  - intros [= <-]. sys_simpl. split; [done|]. split; [by apply Hdup|].
    left. exists t. rewrite C3. unfold s3. sys_simpl. rewrite F1.
    split; [done|]. split; [by eapply try_begin_suspend|].
    split; [|by rewrite C1].
    revert Hb. unfold try_begin. destruct (io _); [done|].
    destruct (getFileType _); by intros [= _ <-].
  - unfold finally_block, catch_block. sys_simpl.
    rewrite emit_pending, C2. unfold s3. sys_simpl. rewrite Hq, delete_head.
    cbn [JSMap.size List.length Nat.ltb Nat.leb]. intros [= <-]. sys_simpl.
    destruct (same_control_emit
                (print_complete_failed (job_id job) (message e)) s4)
      as (_ & _ & D3 & _ & D5 & D6 & _).
    split; [by rewrite D5|]. split; [apply Hdup; by rewrite D5|].
    right. exists e. rewrite D3, C3. unfold s3. sys_simpl.
    split; [done|]. split; [done|]. split; [done|].
    exists (emitted s4). rewrite emit_emitted. unfold failure_event.
    rewrite C6. unfold s3. sys_simpl. by rewrite F6.
Qed.

End JobsMore.


(** The printer of [j1] is out of reach. *)
Lemma print_outcome_reported_witness :
  exists s',
    @step lp_fails printing_j1
      (L_settle 0
         (print_settled
            (@printDocument lp_fails (Some "HP_LaserJet")
               (jt_final print_task) (pages (jt_job print_task)) ∅).1)
         io_ok) = Some s' /\
    (exists later,
       emitted s'
       = (emitted printing_j1
            ++ (if connected printing_j1
                then [print_complete_failed (jt_id print_task)
                        "Print command failed: lp: The printer or class does not exist."]
                else []) ++ later)%list) /\
    timers s' = timers printing_j1.
Proof.
  exact (@print_outcome_reported lp_fails printing_j1 0%nat print_task io_ok
           (Some "HP_LaserJet") ∅ ltac:(by vm_compute) eq_refl).
Defined.

(** The late response brings [j5], a new payload for the running [j4],
    and [j5] once more. *)
Lemma poll_response_queue_witness :
  let s' := default init_sys
              (@step laptop second_poll_in_flight
                 (L_poll_response 0 (PollJobs late_response) io_ok)) in
  JSMap.keys (pendingJobs s') = ["j4"; "j5"] /\
  JSMap.get "j4" (pendingJobs s') = Some (sample_job "j4" "a2.pdf") /\
  JSMap.get "j5" (pendingJobs s') = Some (sample_job "j5" "c.pdf") /\
  tasks s' = delete 0%nat (tasks second_poll_in_flight).
Proof.
  intros s'.
  destruct (@poll_response_queue laptop second_poll_in_flight 0%nat
              late_response io_ok s'
              ltac:(by vm_compute) ltac:(by vm_compute) ltac:(by vm_compute))
    as (Hk & Hg & _ & Ht & _).
  split; [rewrite Hk; by vm_compute|].
  split; [rewrite Hg; by vm_compute|].
  split; [rewrite Hg; by vm_compute|exact Ht].
Defined.

(** The second response brings [j1] again after it has been printed. *)
Lemma redelivered_job_runs_again_witness :
  let s' := default init_sys
              (@step laptop finished_j1
                 (L_poll_response 0 (PollJobs [pdf_job]) io_ok)) in
  hist_started s' = ["j1"; "j1"] /\ ~ NoDup (hist_started s').
Proof.
  intros s'.
  destruct (@redelivered_job_runs_again laptop finished_j1 0%nat pdf_job
              io_ok s'
              ltac:(by vm_compute) ltac:(by vm_compute) ltac:(by vm_compute))
    as (Hh & Hdup & _).
  split; [rewrite Hh; by vm_compute|].
  apply Hdup. vm_compute. by left.
Defined.

(* ===================================================================== *)
(** * Every finished job has reported                                     *)
(* ===================================================================== *)

Section Reported.
Context `{Platform}.

Lemma completions_app (a b : list Event) :
  completions (a ++ b) = (completions a ++ completions b)%list.
Proof. unfold completions. apply omap_app. Qed.

Lemma completions_one (ev : Event) :
  completions [ev]
  = match completion_id ev with Some id => [id] | None => [] end.
Proof. unfold completions. cbn. by destruct (completion_id ev). Qed.

Lemma emit_completions ev s :
  connected s = true ->
  completions (emitted (emit_if_connected ev s))
  = (completions (emitted s)
       ++ match completion_id ev with Some id => [id] | None => [] end)%list.
Proof.
  intros Hc. by rewrite emit_emitted, Hc, completions_app, completions_one.
Qed.

Lemma emit_quiet ev s :
  completion_id ev = None ->
  completions (emitted (emit_if_connected ev s)) = completions (emitted s).
Proof.
  intros Hq. rewrite emit_emitted, completions_app.
  destruct (connected s); [|by rewrite app_nil_r].
  by rewrite completions_one, Hq, app_nil_r.
Qed.

Lemma try_begin_completions io jobId job s s' fl :
  try_begin io jobId job s = (s', fl) ->
  completions (emitted s') = completions (emitted s).
Proof.
  unfold try_begin. destruct (io _); [by intros [= <- <-]|].
  destruct (getFileType _); intros [= <- <-]; sys_simpl;
    by rewrite emit_quiet.
Qed.

Lemma try_resume_completions t r s s' fl :
  try_resume t r s = Some (s', fl) -> connected s = true ->
  completions (emitted s')
  = (completions (emitted s)
       ++ match fl with Return => [jt_id t] | _ => [] end)%list.
Proof.
  unfold try_resume, try_print, try_complete. intros Hr Hc.
  destruct r as [v|e]; [|injection Hr as <- <-; by rewrite app_nil_r].
  destruct (jt_await t), v; try done; injection Hr as <- <-; sys_simpl;
    rewrite ?emit_quiet by done; rewrite ?app_nil_r; try done.
  by rewrite emit_completions.
Qed.

(** The job processor, started while nothing is mid-pipeline: every job
    it starts and finishes reports, and the job it leaves mid-pipeline
    is the last one it started. *)
Lemma processJob_reported (n : nat) : forall io jobId s s',
  JSMap.size (pendingJobs s) = n ->
  processJob io jobId s = Some s' ->
  connected s = true -> job_tasks (tasks s) = [] ->
  exists hs,
    hist_started s' = (hist_started s ++ hs)%list /\
    (completions (emitted s') ++ map jt_id (job_tasks (tasks s')))%list
    = (completions (emitted s) ++ hs)%list.
Proof.
  induction n as [n IH] using lt_wf_ind.
  intros io jobId s s' Hn Hrun Hconn Htasks.
  rewrite processJob_unfold in Hrun.
  destruct (JSMap.get jobId (pendingJobs s)) as [job|] eqn:Hget.
  2:{ injection Hrun as <-. exists []. rewrite Htasks. cbn.
      by rewrite !app_nil_r. }
  cbv zeta in Hrun.
  set (s1 := with_hist_started _ _) in Hrun.
  destruct (try_begin io jobId job s1) as [s2 fl] eqn:Hb.
  pose proof (try_begin_control _ _ _ _ _ _ Hb) as
    (C1 & C2 & C3 & C4 & C5 & C6 & _).
  pose proof (try_begin_completions _ _ _ _ _ _ Hb) as Hcomp.
  pose proof (try_begin_flow _ _ _ _ _ _ Hb) as Hfl.
  unfold s1 in C2, C3, C5, C6, Hcomp. sys_simpl.
  destruct fl as [t| |e]; [|done|]; cbn [settle] in Hrun.
  - injection Hrun as <-. exists [jobId]. sys_simpl.
    split; [done|]. rewrite job_tasks_app, C3, Htasks, Hcomp. cbn.
    by rewrite (try_begin_suspend _ _ _ _ _ _ Hb).
  - unfold finally_block, catch_block in Hrun.
    set (s3 := emit_if_connected _ s2) in Hrun.
    assert (Hc3 : completions (emitted s3)
                  = (completions (emitted s) ++ [jobId])%list).
    { unfold s3. rewrite emit_completions by congruence. cbn. by rewrite Hcomp. }
    destruct (same_control_emit
                (print_complete_failed jobId (message e)) s2)
      as (_ & D2 & D3 & _ & D5 & D6 & _).
    fold s3 in D2, D3, D5, D6.
    set (s4 := with_pendingJobs _ _) in Hrun.
    assert (Hsz : S (JSMap.size (pendingJobs s4)) = n).
    { unfold s4. sys_simpl. rewrite D2, C2, <- Hn. by eapply size_delete. }
    assert (Hdone : s' = s4 ->
              exists hs,
                hist_started s' = (hist_started s ++ hs)%list /\
                (completions (emitted s')
                   ++ map jt_id (job_tasks (tasks s')))%list
                = (completions (emitted s) ++ hs)%list).
    { intros ->. exists [jobId]. unfold s4. sys_simpl.
      rewrite D5, C5, D3, C3, Htasks, Hc3. cbn. by rewrite app_nil_r. }
    destruct (0 <? JSMap.size (pendingJobs s4))%nat;
      [|injection Hrun as <-; by apply Hdone].
    destruct (JSMap.first_key (pendingJobs s4)) as [next|];
      [|injection Hrun as <-; by apply Hdone].
    destruct (IH (JSMap.size (pendingJobs s4)) ltac:(lia) io next s4 s'
                eq_refl Hrun) as (hs & Hh & Hr).
    + unfold s4. sys_simpl. congruence.
    + unfold s4. sys_simpl. by rewrite D3, C3.
    + exists (jobId :: hs). split.
      * rewrite Hh. unfold s4. sys_simpl. rewrite D5, C5.
        by rewrite <- app_assoc.
      * rewrite Hr. unfold s4. sys_simpl. rewrite Hc3.
        by rewrite <- app_assoc.
Qed.

Lemma finally_reported io jobId s s' :
  finally_block (processJob io) jobId s = Some s' ->
  connected s = true -> job_tasks (tasks s) = [] ->
  connected s' = true /\
  exists hs,
    hist_started s' = (hist_started s ++ hs)%list /\
    (completions (emitted s') ++ map jt_id (job_tasks (tasks s')))%list
    = (completions (emitted s) ++ hs)%list.
Proof.
  intros Hf Hconn Htasks.
  destruct (finally_block_spec io jobId s)
    as (s'' & Hs'' & (_ & Hc & _) & _).
  rewrite Hf in Hs''. injection Hs'' as <-.
  split; [congruence|].
  unfold finally_block in Hf. set (s4 := with_pendingJobs _ _) in Hf.
  assert (Hdone : s' = s4 ->
            exists hs,
              hist_started s' = (hist_started s ++ hs)%list /\
              (completions (emitted s')
                 ++ map jt_id (job_tasks (tasks s')))%list
              = (completions (emitted s) ++ hs)%list).
  { intros ->. exists []. unfold s4. sys_simpl. rewrite Htasks. cbn.
    by rewrite !app_nil_r. }
  destruct (0 <? JSMap.size (pendingJobs s4))%nat;
    [|injection Hf as <-; by apply Hdone].
  destruct (JSMap.first_key (pendingJobs s4)) as [next|];
    [|injection Hf as <-; by apply Hdone].
  apply (processJob_reported _ io next s4 s' eq_refl Hf); by unfold s4.
Qed.

(** What the serialization invariant says about the jobs in flight. *)
Lemma serialized_cases s :
  serialized s ->
  job_tasks (tasks s) = [] \/
  exists t, job_tasks (tasks s) = [t] /\
            JS.truthy_opt (currentJob s) = true.
Proof.
  intros (finished & Henq & Htr & Hinv).
  destruct (job_tasks (tasks s)) as [|t [|t' ts]]; [by left| |done].
  right. exists t. split; [done|].
  destruct Hinv as (Hcur & Hfirst & _). rewrite Hcur. cbn [JS.truthy_opt].
  destruct (pendingJobs s) as [|[k v] m]; [done|].
  cbn in Hfirst. injection Hfirst as ->. cbn in Htr. by inversion Htr.
Qed.

Lemma step_reported s l s' :
  serialized s -> label_ok l -> stays_online l ->
  connected s = true -> reported s ->
  step s l = Some s' ->
  reported s' /\ connected s' = true.
Proof.
  intros Hser Hok Hon Hconn Hrep Hstep. unfold reported in *.
  destruct l as [|n r io|n r io|b|name|dt|n|w]; cbn [step] in Hstep.
  - injection Hstep as <-. unfold poll_begin. rewrite Hconn. cbn [negb].
    destruct (JS.truthy_opt (currentJob s)); [done|]. sys_simpl.
    rewrite job_tasks_app. cbn. by rewrite app_nil_r.
  - destruct (tasks s !! n) as [[|t]|] eqn:Hn; try done.
    pose proof (job_tasks_delete_poll _ _ Hn) as Hjt.
    unfold poll_resume in Hstep.
    destruct r as [e|[|job jobs]];
      try (injection Hstep as <-; sys_simpl; by rewrite Hjt).
    set (s1 := with_jobsFetchedToday _ _) in Hstep.
    destruct (enqueue_all_frame (job :: jobs) s1)
      as (F1 & F2 & F3 & F4 & _ & F6).
    cbv zeta in F1, F2, F3, F4, F6.
    set (s2 := fold_left enqueue (job :: jobs) s1) in *.
    unfold s1 in F1, F2, F3, F4, F6. sys_simpl.
    assert (Hrep2 : (completions (emitted s2)
                       ++ map jt_id (job_tasks (tasks s2)))%list
                    = hist_started s2)
      by (by rewrite F1, F2, F4, Hjt).
    destruct (negb (JS.truthy_opt (currentJob s2))) eqn:Hcur;
      cbn [andb] in Hstep; [|injection Hstep as <-; split; [done|congruence]].
    destruct (0 <? JSMap.size (pendingJobs s2))%nat;
      [|injection Hstep as <-; split; [done|congruence]].
    destruct (JSMap.first_key (pendingJobs s2)) as [first|];
      [|injection Hstep as <-; split; [done|congruence]].
    assert (Hidle : job_tasks (tasks s2) = []).
    { rewrite F1, Hjt. destruct (serialized_cases s Hser) as [E|(t & _ & Ht)];
        [done|]. rewrite F3, Ht in Hcur. done. }
    destruct (processJob_effects _ io first s2 s' eq_refl Hstep)
      as ((_ & Hc & _) & _).
    split; [|congruence].
    destruct (processJob_reported _ io first s2 s' eq_refl Hstep)
      as (hs & Hh & Hr); [congruence|done|].
    rewrite Hr, Hh. rewrite Hidle in Hrep2. cbn [map] in Hrep2.
    rewrite app_nil_r in Hrep2. by rewrite Hrep2.
  - destruct (tasks s !! n) as [[|t]|] eqn:Hn; try done.
    destruct (job_tasks_delete_job _ _ _ Hn) as (l1 & l2 & Hjt & Hjd).
    assert (l1 = [] /\ l2 = []) as [-> ->].
    { destruct (serialized_cases s Hser) as [E|(t0 & E & _)];
        rewrite E in Hjt.
      - by destruct l1.
      - destruct l1 as [|? [|? ?]]; cbn in Hjt; [|by destruct l2|done].
        by injection Hjt as _ <-. }
    cbn [app] in Hjt, Hjd. rewrite Hjt in Hrep. cbn in Hrep.
    set (s0 := with_tasks (delete n (tasks s)) s) in Hstep.
    destruct (try_resume t r s0) as [[s1 fl]|] eqn:Hres; [|done].
    pose proof (try_resume_control _ _ _ _ _ Hres) as
      (_ & _ & C3 & _ & C5 & C6 & _).
    pose proof (try_resume_completions _ _ _ _ _ Hres Hconn) as Hcomp.
    unfold s0 in C3, C5, C6, Hcomp. sys_simpl.
    destruct fl as [t'| |e]; cbn [settle] in Hstep.
    + injection Hstep as <-. sys_simpl. split; [|congruence].
      rewrite job_tasks_app, C3, Hjd, Hcomp, C5. cbn.
      rewrite (try_resume_suspend _ _ _ _ _ Hres). by rewrite app_nil_r.
    + destruct (finally_reported io (jt_id t) s1 s' Hstep)
        as (Hc' & hs & Hh & Hr); [congruence|by rewrite C3|].
      split; [|done]. rewrite Hr, Hh, Hcomp, C5. by rewrite Hrep.
    + unfold catch_block in Hstep.
      set (s3 := emit_if_connected _ s1) in Hstep.
      destruct (same_control_emit
                  (print_complete_failed (jt_id t) (message e)) s1)
        as (_ & _ & D3 & _ & D5 & D6 & _).
      fold s3 in D3, D5, D6.
      destruct (finally_reported io (jt_id t) s3 s' Hstep)
        as (Hc' & hs & Hh & Hr); [congruence|by rewrite D3, C3|].
      split; [|done]. rewrite Hr, Hh, D5, C5. unfold s3.
      rewrite emit_completions by congruence. cbn.
      rewrite Hcomp, app_nil_r. by rewrite Hrep.
  - cbn in Hon. subst b. by injection Hstep as <-.
  - by injection Hstep as <-.
  - destruct (0 <=? dt); [|done]. by injection Hstep as <-.
  - destruct (timers s !! n) as [t|]; [|done].
    destruct (due t <=? now s); [|done]. by injection Hstep as <-.
  - by injection Hstep as <-.
Qed.

Lemma run_reported (ls : list Label) : forall s s',
  serialized s -> connected s = true -> reported s ->
  Forall label_ok ls -> Forall stays_online ls ->
  run s ls = Some s' -> reported s' /\ serialized s'.
Proof.
  induction ls as [|l ls IH]; intros s s' Hser Hc Hrep Hok Hon Hrun;
    cbn in Hrun.
  - by injection Hrun as <-.
  - inversion Hok; subst. inversion Hon; subst.
    destruct (step s l) as [s1|] eqn:Hstep; [|done].
    destruct (step_reported s l s1) as (Hrep1 & Hc1); try done.
    apply (IH s1); try done. by eapply step_serialized.
Qed.

(** X4.  While the socket stays connected and the job ids that arrive
    are truthy values, every activation of the job processor that has
    ended has sent exactly one [print_complete] event, success or
    failure, and the events were sent in the order in which the jobs
    were started; the one job that may be mid-pipeline is the last one
    started and has not sent its event yet. *)
Theorem finished_jobs_reported (ls : list Label) (s : Sys) :
  Forall label_ok ls -> Forall stays_online ls ->
  run (with_connected true init_sys) ls = Some s ->
  (completions (emitted s) ++ map jt_id (job_tasks (tasks s)))%list
  = hist_started s /\
  (List.length (job_tasks (tasks s)) <= 1)%nat.
Proof.
  intros Hok Hon Hrun.
  destruct (run_reported ls (with_connected true init_sys) s) as (Hrep & Hser);
    try done.
  - by exists [].
  - split; [exact Hrep|].
    destruct (serialized_cases s Hser) as [->|(t & -> & _)]; cbn; lia.
Qed.

End Reported.

(** Three jobs arrive together; the conversion of [j2] fails, [j3] is
    of an unsupported type, [j1] is printed. *)
Lemma finished_jobs_reported_witness :
  exists s,
    @run laptop (with_connected true init_sys)
      [L_tick; L_poll_response 0 (PollJobs three_jobs) io_ok;
       L_settle 0 (Rejected libreoffice_failed) io_ok;
       L_settle 0 (Resolved (VPages 1)) io_ok;
       L_settle 0 (printed (Some 1)) io_ok] = Some s /\
    completions (emitted s) = ["j2"; "j3"; "j1"] /\
    (completions (emitted s) ++ map jt_id (job_tasks (tasks s)))%list
    = hist_started s /\
    (List.length (job_tasks (tasks s)) <= 1)%nat.
Proof.
  eexists. split; [by vm_compute|]. split; [by vm_compute|].
  apply (@finished_jobs_reported laptop
           [L_tick; L_poll_response 0 (PollJobs three_jobs) io_ok;
            L_settle 0 (Rejected libreoffice_failed) io_ok;
            L_settle 0 (Resolved (VPages 1)) io_ok;
            L_settle 0 (printed (Some 1)) io_ok]).
  - repeat first
      [ apply Forall_nil_2
      | apply Forall_cons_2;
        [cbn [label_ok]; try exact I; repeat constructor|] ].
  - repeat first
      [ apply Forall_nil_2 | apply Forall_cons_2; [exact I|] ].
  - by vm_compute.
Defined.

(* ===================================================================== *)
(** * Cleanups are scheduled for the jobs that succeed, and for no other  *)
(* ===================================================================== *)

Section CleanupCount.
Context `{Platform}.

Lemma successes_app (a b : list Event) :
  successes (a ++ b) = (successes a ++ successes b)%list.
Proof. unfold successes. apply omap_app. Qed.

Lemma emit_successes ev s :
  successes (emitted (emit_if_connected ev s))
  = (successes (emitted s)
       ++ if connected s
          then match success_id ev with Some id => [id] | None => [] end
          else [])%list.
Proof.
  rewrite emit_emitted, successes_app. f_equal.
  destruct (connected s); [|done].
  unfold successes. cbn. by destruct (success_id ev).
Qed.

Lemma emit_no_success ev s :
  success_id ev = None ->
  successes (emitted (emit_if_connected ev s)) = successes (emitted s).
Proof.
  intros Hq. rewrite emit_successes, Hq.
  destruct (connected s); by rewrite app_nil_r.
Qed.

Lemma try_begin_successes io jobId job s s' fl :
  try_begin io jobId job s = (s', fl) ->
  successes (emitted s') = successes (emitted s).
Proof.
  unfold try_begin. destruct (io _); [by intros [= <- <-]|].
  destruct (getFileType _); intros [= <- <-]; sys_simpl;
    by rewrite emit_no_success.
Qed.

(** Starting jobs from the queue reports no success: a success is only
    reported when an awaited print resolves. *)
Lemma processJob_successes (n : nat) : forall io jobId s s',
  JSMap.size (pendingJobs s) = n ->
  processJob io jobId s = Some s' ->
  successes (emitted s') = successes (emitted s).
Proof.
  induction n as [n IH] using lt_wf_ind.
  intros io jobId s s' Hn Hrun.
  rewrite processJob_unfold in Hrun.
  destruct (JSMap.get jobId (pendingJobs s)) as [job|] eqn:Hget;
    [|by injection Hrun as <-].
  cbv zeta in Hrun.
  set (s1 := with_hist_started _ _) in Hrun.
  destruct (try_begin io jobId job s1) as [s2 fl] eqn:Hb.
  pose proof (try_begin_control _ _ _ _ _ _ Hb) as (_ & C2 & _).
  pose proof (try_begin_successes _ _ _ _ _ _ Hb) as Hs.
  pose proof (try_begin_flow _ _ _ _ _ _ Hb) as Hfl.
  unfold s1 in C2, Hs. sys_simpl.
  destruct fl as [t| |e]; [|done|]; cbn [settle] in Hrun.
  - by injection Hrun as <-.
  - unfold finally_block, catch_block in Hrun.
    set (s3 := emit_if_connected _ s2) in Hrun.
    assert (H3 : successes (emitted s3) = successes (emitted s))
      by (unfold s3; by rewrite emit_no_success).
    set (s4 := with_pendingJobs _ _) in Hrun.
    assert (Hsz : S (JSMap.size (pendingJobs s4)) = n).
    { unfold s4, s3. sys_simpl. rewrite emit_pending, C2, <- Hn.
      by eapply size_delete. }
    destruct (0 <? JSMap.size (pendingJobs s4))%nat;
      [|by injection Hrun as <-].
    destruct (JSMap.first_key (pendingJobs s4)) as [next|];
      [|by injection Hrun as <-].
    rewrite (IH (JSMap.size (pendingJobs s4)) ltac:(lia) io next s4 s'
               eq_refl Hrun).
    exact H3.
Qed.

Lemma finally_successes io jobId s s' :
  finally_block (processJob io) jobId s = Some s' ->
  successes (emitted s') = successes (emitted s) /\
  timers s' = timers s /\ connected s' = connected s.
Proof.
  intros Hf.
  destruct (finally_block_spec io jobId s)
    as (s'' & Hs'' & (_ & Hc & _) & Ht & _).
  rewrite Hf in Hs''. injection Hs'' as <-.
  split; [|done].
  unfold finally_block in Hf. set (s4 := with_pendingJobs _ _) in Hf.
  destruct (0 <? JSMap.size (pendingJobs s4))%nat;
    [|by injection Hf as <-].
  destruct (JSMap.first_key (pendingJobs s4)) as [next|];
    [|by injection Hf as <-].
  by rewrite (processJob_successes _ io next s4 s' eq_refl Hf).
Qed.

Lemma enqueue_all_timers (jobs : list Job) : forall s,
  timers (fold_left enqueue jobs s) = timers s.
Proof.
  induction jobs as [|job jobs IH]; intros s; [done|].
  cbn [fold_left]. rewrite IH. unfold enqueue.
  by destruct (negb (JSMap.has (job_id job) (pendingJobs s))).
Qed.

(** One turn of the event loop, while the socket is up: a success event
    and a cleanup timer are created together, a timer that fires is
    removed, and nothing else changes either. *)
Lemma step_cleanup_count s l s' :
  connected s = true -> stays_online l -> step s l = Some s' ->
  connected s' = true /\
  (List.length (timers s') + fired [l]
   + List.length (successes (emitted s)))%nat
  = (List.length (successes (emitted s')) + List.length (timers s))%nat.
Proof.
  intros Hconn Hon Hstep.
  destruct l as [|n r io|n r io|b|name|dt|n|w]; cbn [step fired] in *.
  - injection Hstep as <-. unfold poll_begin. rewrite Hconn. cbn [negb].
    destruct (JS.truthy_opt (currentJob s)); sys_simpl; split; try done; lia.
  - destruct (tasks s !! n) as [[|t]|]; try done.
    unfold poll_resume in Hstep.
    destruct r as [e|[|job jobs]];
      try (injection Hstep as <-; sys_simpl; split; [done|lia]).
    set (s1 := with_jobsFetchedToday _ _) in Hstep.
    destruct (enqueue_all_frame (job :: jobs) s1) as (_ & F2 & _ & _ & _ & F6).
    pose proof (enqueue_all_timers (job :: jobs) s1) as F7.
    cbv zeta in F2, F6.
    set (s2 := fold_left enqueue (job :: jobs) s1) in *.
    unfold s1 in F2, F6, F7. sys_simpl.
    destruct (_ && _);
      [|injection Hstep as <-; rewrite F2, F6, F7; split; [done|lia]].
    destruct (JSMap.first_key (pendingJobs s2)) as [first|];
      [|injection Hstep as <-; rewrite F2, F6, F7; split; [done|lia]].
    destruct (processJob_effects _ io first s2 s' eq_refl Hstep)
      as ((_ & Hc & _) & Ht & _).
    rewrite (processJob_successes _ io first s2 s' eq_refl Hstep).
    rewrite Hc, Ht, F2, F6, F7. split; [done|lia].
  - destruct (tasks s !! n) as [[|t]|]; try done.
    set (s0 := with_tasks (delete n (tasks s)) s) in Hstep.
    destruct (try_resume t r s0) as [[s1 fl]|] eqn:Hres; [|done].
    unfold try_resume, try_print, try_complete in Hres.
    destruct r as [v|e].
    + destruct (jt_await t), v; try done; injection Hres as <- <-;
        cbn [settle] in Hstep.
      1-3: injection Hstep as <-; sys_simpl;
        rewrite emit_no_success by done; rewrite emit_timers;
        destruct (same_control_emit (print_started (jt_id t)) s0)
          as (_ & _ & _ & _ & _ & -> & _);
        unfold s0; sys_simpl; split; [done|lia].
      destruct (finally_successes _ _ _ _ Hstep) as (-> & -> & ->).
      sys_simpl. rewrite emit_successes, emit_timers.
      destruct (same_control_emit
                  (print_complete_ok (jt_id t) (pr_pages r)) s0)
        as (_ & _ & _ & _ & _ & -> & _).
      unfold s0. sys_simpl. rewrite Hconn. cbn [success_id].
      rewrite !length_app. cbn [List.length]. split; [done|lia].
    + injection Hres as <- <-. cbn [settle] in Hstep.
      destruct (finally_successes _ _ _ _ Hstep) as (-> & -> & ->).
      unfold catch_block. rewrite emit_no_success by done.
      rewrite emit_timers.
      destruct (same_control_emit
                  (print_complete_failed (jt_id t) (message e)) s0)
        as (_ & _ & _ & _ & _ & -> & _).
      unfold s0. sys_simpl. split; [done|lia].
  - cbn in Hon. subst b. injection Hstep as <-. sys_simpl. split; [done|lia].
  - injection Hstep as <-. sys_simpl. split; [done|lia].
  - destruct (0 <=? dt); [|done]. injection Hstep as <-. sys_simpl.
    split; [done|lia].
  - destruct (timers s !! n) as [t|] eqn:Hn; [|done].
    destruct (due t <=? now s); [|done]. injection Hstep as <-. sys_simpl.
    split; [done|].
    assert (Hlt : (n < List.length (timers s))%nat)
      by (by eapply lookup_lt_Some).
    pose proof (length_delete (timers s) n ltac:(eauto)) as Hd. lia.
  - injection Hstep as <-. sys_simpl. split; [done|lia].
Qed.

Lemma run_cleanup_count (ls : list Label) : forall s s',
  connected s = true -> Forall stays_online ls -> run s ls = Some s' ->
  (List.length (timers s') + fired ls
   + List.length (successes (emitted s)))%nat
  = (List.length (successes (emitted s')) + List.length (timers s))%nat.
Proof.
  induction ls as [|l ls IH]; intros s s' Hc Hon Hrun; cbn [run] in Hrun.
  - injection Hrun as <-. cbn. lia.
  - inversion Hon; subst.
    destruct (step s l) as [s1|] eqn:Hstep; [|done].
    destruct (step_cleanup_count s l s1 Hc ltac:(done) Hstep) as (Hc1 & E1).
    pose proof (IH s1 s' Hc1 ltac:(done) Hrun) as E2.
    assert (Hf : fired (l :: ls) = (fired [l] + fired ls)%nat)
      by (by destruct l).
    lia.
Qed.

(** X8.  While the socket stays connected, a cleanup is scheduled for
    the jobs whose print succeeded and for no other: in every state the
    agent can reach, the cleanup timers that are pending, together with
    those that have fired, are as many as the success events that have
    been sent.  A job that fails never gets a cleanup. *)
Theorem cleanup_scheduled_iff_succeeded (ls : list Label) (s : Sys) :
  Forall stays_online ls ->
  run (with_connected true init_sys) ls = Some s ->
  (List.length (timers s) + fired ls)%nat
  = List.length (successes (emitted s)).
Proof.
  intros Hon Hrun.
  pose proof (run_cleanup_count ls (with_connected true init_sys) s
                eq_refl Hon Hrun) as E.
  cbn in E. lia.
Qed.

End CleanupCount.

(** Of three jobs, two fail and one is printed: one cleanup is scheduled,
    and it fires five seconds later. *)
Lemma cleanup_scheduled_iff_succeeded_witness :
  exists s,
    @run laptop (with_connected true init_sys)
      [L_tick; L_poll_response 0 (PollJobs three_jobs) io_ok;
       L_settle 0 (Rejected libreoffice_failed) io_ok;
       L_settle 0 (Resolved (VPages 1)) io_ok;
       L_settle 0 (printed (Some 1)) io_ok;
       L_advance 5000; L_timer 0] = Some s /\
    successes (emitted s) = ["j1"] /\ timers s = [] /\
    (List.length (timers s) + 1)%nat = List.length (successes (emitted s)).
Proof.
  eexists. split; [by vm_compute|]. split; [by vm_compute|].
  split; [by vm_compute|].
  apply (@cleanup_scheduled_iff_succeeded laptop
           [L_tick; L_poll_response 0 (PollJobs three_jobs) io_ok;
            L_settle 0 (Rejected libreoffice_failed) io_ok;
            L_settle 0 (Resolved (VPages 1)) io_ok;
            L_settle 0 (printed (Some 1)) io_ok;
            L_advance 5000; L_timer 0]).
  - repeat first
      [ apply Forall_nil_2 | apply Forall_cons_2; [exact I|] ].
  - by vm_compute.
Defined.

(* ===================================================================== *)
(** * The answers of the health check                                     *)
(* ===================================================================== *)

Section Vocabulary.
Context `{Platform}.

(** X15.  The health check answers from a closed vocabulary of nine
    status/detail pairs.  A healthy answer is the only one without a
    detail; an error always names one of the five faults; and without a
    printer name the spooler is not asked: the answer is
    [no_printer_configured] whatever the machine would say. *)
Theorem checkPrinterStatus_vocabulary (printerName : option string)
  (w : FS) (h : PrinterHealth) :
  checkPrinterStatus printerName w = Resolved h ->
  In h health_answers /\
  (status h = healthy <-> detail h = None) /\
  (status h = error_ ->
     In (detail h) [Some "media-empty"; Some "toner-empty";
                    Some "cover-open"; Some "stopped"; Some "offline"]) /\
  (JS.truthy_opt printerName = false <->
     detail h = Some "no_printer_configured").
Proof.
  intros Hh.
  assert (Hc : forall output,
            In (classify_status output) health_answers /\
            detail (classify_status output) <> Some "no_printer_configured").
  { intros output. split; [|apply classify_status_detail].
    unfold classify_status, health_answers.
    repeat (match goal with
            | |- context [if ?b then _ else _] => destruct b
            end; try (cbn; tauto)). }
  assert (Hin : In h health_answers /\
                (JS.truthy_opt printerName = false <->
                 detail h = Some "no_printer_configured")).
  { unfold checkPrinterStatus in Hh.
    destruct printerName as [[|c name]|]; try (injection Hh as <-);
      cbn [JS.truthy_opt JS.truthy detail];
      try (split; [cbn; tauto|done]).
    destruct (exec _ w) as [r w'].
    destruct (_ && _); injection Hh as <-.
    - split; [cbn; tauto|]. split; done.
    - destruct (Hc (JS.toLowerCase (stdout r))) as (Hi & Hd).
      split; [done|]. split; done. }
  destruct Hin as (Hin & Hnone). split; [done|].
  split_and!; [| |done].
  - unfold health_answers in Hin. cbn in Hin.
    repeat (destruct Hin as [<-|Hin]; [cbn; split; congruence|]). done.
  - unfold health_answers in Hin. cbn in Hin.
    repeat (destruct Hin as [<-|Hin]; [cbn; intros; try congruence; tauto|]).
    done.
Qed.

End Vocabulary.

(** A printer that reports an open cover while idle. *)
Lemma checkPrinterStatus_vocabulary_witness :
  In (mkHealth error_ (Some "cover-open")) health_answers /\
  (error_ = healthy <-> Some "cover-open" = @None string) /\
  (error_ = error_ ->
     In (Some "cover-open")
        [Some "media-empty"; Some "toner-empty"; Some "cover-open";
         Some "stopped"; Some "offline"]) /\
  (JS.truthy_opt (Some "HP_LaserJet") = false <->
     Some "cover-open" = Some "no_printer_configured").
Proof.
  apply (@checkPrinterStatus_vocabulary
           (spooler_says "printer HP_LaserJet is idle.  Cover Open.")
           (Some "HP_LaserJet") ∅ (mkHealth error_ (Some "cover-open"))).
  by vm_compute.
Defined.

(* ===================================================================== *)
(** * The poll counters                                                   *)
(* ===================================================================== *)

Section Counters.
Context `{Platform}.

Lemma polls_in_flight_app (ts1 ts2 : list Task) :
  polls_in_flight (ts1 ++ ts2) = polls_in_flight ts1 + polls_in_flight ts2.
Proof.
  induction ts1 as [|[|t] ts1 IH]; cbn [app polls_in_flight]; lia.
Qed.

Lemma polls_in_flight_delete (ts : list Task) : forall (n : nat) (t : Task),
  ts !! n = Some t ->
  polls_in_flight (delete n ts)
  = polls_in_flight ts - match t with T_poll => 1 | T_job _ => 0 end.
Proof.
  induction ts as [|t0 ts IH]; intros [|n] t Hn; try done.
  - cbn in Hn. injection Hn as ->. cbn. destruct t; lia.
  - cbn in Hn. change (delete (S n) (t0 :: ts)) with (t0 :: delete n ts).
    destruct t0; cbn [polls_in_flight]; rewrite (IH n t Hn); lia.
Qed.

Lemma emit_counters ev s :
  pollCount (emit_if_connected ev s) = pollCount s /\
  jobsFetchedToday (emit_if_connected ev s) = jobsFetchedToday s.
Proof. unfold emit_if_connected. by destruct (connected s). Qed.

Lemma try_begin_counters io jobId job s s' fl :
  try_begin io jobId job s = (s', fl) ->
  pollCount s' = pollCount s /\ jobsFetchedToday s' = jobsFetchedToday s.
Proof.
  unfold try_begin. destruct (io _); [by intros [= <- <-]|].
  set (s1 := with_fs _ s).
  destruct (emit_counters (job_received jobId) s1) as (E1 & E2).
  destruct (getFileType _); intros [= <- <-]; sys_simpl; by rewrite E1, E2.
Qed.

Lemma try_resume_counters t r s s' fl :
  try_resume t r s = Some (s', fl) ->
  pollCount s' = pollCount s /\ jobsFetchedToday s' = jobsFetchedToday s.
Proof.
  unfold try_resume, try_print, try_complete.
  destruct r as [v|e]; [|by intros [= <- <-]].
  destruct (jt_await t), v; intros [= <- <-]; sys_simpl;
    apply emit_counters.
Qed.

(** The job processor counts nothing and answers no poll. *)
Lemma processJob_counters (n : nat) : forall io jobId s s',
  JSMap.size (pendingJobs s) = n ->
  processJob io jobId s = Some s' ->
  pollCount s' = pollCount s /\ jobsFetchedToday s' = jobsFetchedToday s /\
  polls_in_flight (tasks s') = polls_in_flight (tasks s).
Proof.
  induction n as [n IH] using lt_wf_ind.
  intros io jobId s s' Hn Hrun.
  rewrite processJob_unfold in Hrun.
  destruct (JSMap.get jobId (pendingJobs s)) as [job|] eqn:Hget;
    [|by injection Hrun as <-].
  cbv zeta in Hrun.
  set (s1 := with_hist_started _ _) in Hrun.
  destruct (try_begin io jobId job s1) as [s2 fl] eqn:Hb.
  pose proof (try_begin_control _ _ _ _ _ _ Hb) as (_ & C2 & C3 & _).
  destruct (try_begin_counters _ _ _ _ _ _ Hb) as (P2 & J2).
  pose proof (try_begin_flow _ _ _ _ _ _ Hb) as Hfl.
  unfold s1 in C2, C3, P2, J2. sys_simpl.
  destruct fl as [t| |e]; [|done|]; cbn [settle] in Hrun.
  - injection Hrun as <-. sys_simpl. rewrite polls_in_flight_app, C3. cbn.
    split_and!; [done|done|lia].
  - unfold finally_block, catch_block in Hrun.
    set (s3 := emit_if_connected _ s2) in Hrun.
    destruct (emit_counters (print_complete_failed jobId (message e)) s2)
      as (P3 & J3).
    destruct (same_control_emit (print_complete_failed jobId (message e)) s2)
      as (_ & D2 & D3 & _).
    fold s3 in P3, J3, D2, D3.
    set (s4 := with_pendingJobs _ _) in Hrun.
    assert (Hsz : S (JSMap.size (pendingJobs s4)) = n).
    { unfold s4. sys_simpl. rewrite D2, C2, <- Hn. by eapply size_delete. }
    assert (H4 : pollCount s4 = pollCount s /\
                 jobsFetchedToday s4 = jobsFetchedToday s /\
                 polls_in_flight (tasks s4) = polls_in_flight (tasks s)).
    { unfold s4. sys_simpl. rewrite D3, C3. split_and!; congruence. }
    destruct (0 <? JSMap.size (pendingJobs s4))%nat;
      [|by injection Hrun as <-].
    destruct (JSMap.first_key (pendingJobs s4)) as [next|];
      [|by injection Hrun as <-].
    destruct (IH (JSMap.size (pendingJobs s4)) ltac:(lia) io next s4 s'
                eq_refl Hrun) as (A & B & C).
    destruct H4 as (A4 & B4 & C4). split_and!; congruence.
Qed.

Lemma finally_counters io jobId s s' :
  finally_block (processJob io) jobId s = Some s' ->
  pollCount s' = pollCount s /\ jobsFetchedToday s' = jobsFetchedToday s /\
  polls_in_flight (tasks s') = polls_in_flight (tasks s).
Proof.
  unfold finally_block. set (s4 := with_pendingJobs _ _). intros Hf.
  destruct (0 <? JSMap.size (pendingJobs s4))%nat;
    [|by injection Hf as <-].
  destruct (JSMap.first_key (pendingJobs s4)) as [next|];
    [|by injection Hf as <-].
  apply (processJob_counters _ io next s4 s' eq_refl Hf).
Qed.

Lemma enqueue_all_counters (jobs : list Job) : forall s,
  pollCount (fold_left enqueue jobs s) = pollCount s.
Proof.
  induction jobs as [|job jobs IH]; intros s; [done|].
  cbn [fold_left]. rewrite IH. unfold enqueue.
  by destruct (negb (JSMap.has (job_id job) (pendingJobs s))).
Qed.

Lemma step_counters s l s' :
  step s l = Some s' ->
  jobsFetchedToday s' = jobsFetchedToday s + fetched [l] /\
  pollCount s' - polls_in_flight (tasks s')
  = pollCount s - polls_in_flight (tasks s) + answered [l].
Proof.
  intros Hstep.
  destruct l as [|n r io|n r io|b|name|dt|n|w];
    cbn [step fetched answered] in *.
  - injection Hstep as <-. unfold poll_begin.
    destruct (negb (connected s)); [split; lia|].
    destruct (JS.truthy_opt (currentJob s)); [split; lia|].
    sys_simpl. rewrite polls_in_flight_app. cbn. split; lia.
  - destruct (tasks s !! n) as [[|t]|] eqn:Hn; try done.
    pose proof (polls_in_flight_delete _ _ _ Hn) as Hd. cbn in Hd.
    unfold poll_resume in Hstep.
    destruct r as [e|[|job jobs]];
      try (injection Hstep as <-; sys_simpl; cbn; split; lia).
    set (s1 := with_jobsFetchedToday _ _) in Hstep.
    destruct (enqueue_all_frame (job :: jobs) s1) as (F1 & _ & _ & _ & F5 & _).
    pose proof (enqueue_all_counters (job :: jobs) s1) as F8.
    cbv zeta in F1, F5.
    set (s2 := fold_left enqueue (job :: jobs) s1) in *.
    unfold s1 in F1, F5, F8. sys_simpl.
    assert (H2 : jobsFetchedToday s2
                 = jobsFetchedToday s + Z.of_nat (List.length (job :: jobs))
                 /\ pollCount s2 - polls_in_flight (tasks s2)
                    = pollCount s - polls_in_flight (tasks s) + 1).
    { rewrite F1, F5, F8. split; lia. }
    destruct (_ && _); [|injection Hstep as <-; split; lia].
    destruct (JSMap.first_key (pendingJobs s2)) as [first|];
      [|injection Hstep as <-; split; lia].
    destruct (processJob_counters _ io first s2 s' eq_refl Hstep)
      as (A & B & C).
    split; lia.
  - destruct (tasks s !! n) as [[|t]|] eqn:Hn; try done.
    pose proof (polls_in_flight_delete _ _ _ Hn) as Hd. cbn in Hd.
    set (s0 := with_tasks (delete n (tasks s)) s) in Hstep.
    destruct (try_resume t r s0) as [[s1 fl]|] eqn:Hres; [|done].
    destruct (try_resume_counters _ _ _ _ _ Hres) as (P1 & J1).
    pose proof (try_resume_control _ _ _ _ _ Hres) as (_ & _ & C3 & _).
    unfold s0 in P1, J1, C3. sys_simpl.
    destruct fl as [t'| |e]; cbn [settle] in Hstep.
    + injection Hstep as <-. sys_simpl.
      rewrite polls_in_flight_app, C3. cbn. split; lia.
    + destruct (finally_counters _ _ _ _ Hstep) as (A & B & C).
      rewrite C3 in C. split; lia.
    + destruct (finally_counters _ _ _ _ Hstep) as (A & B & C).
      unfold catch_block in A, B, C.
      destruct (emit_counters
                  (print_complete_failed (jt_id t) (message e)) s1)
        as (P3 & J3).
      destruct (same_control_emit
                  (print_complete_failed (jt_id t) (message e)) s1)
        as (_ & _ & D3 & _).
      rewrite D3, C3 in C. split; lia.
  - injection Hstep as <-. sys_simpl. split; lia.
  - injection Hstep as <-. sys_simpl. split; lia.
  - destruct (0 <=? dt); [|done]. injection Hstep as <-. sys_simpl.
    split; lia.
  - destruct (timers s !! n) as [t|]; [|done].
    destruct (due t <=? now s); [|done]. injection Hstep as <-. sys_simpl.
    split; lia.
  - injection Hstep as <-. sys_simpl. split; lia.
Qed.

Lemma run_counters (ls : list Label) : forall s s',
  run s ls = Some s' ->
  jobsFetchedToday s' = jobsFetchedToday s + fetched ls /\
  pollCount s' - polls_in_flight (tasks s')
  = pollCount s - polls_in_flight (tasks s) + answered ls.
Proof.
  induction ls as [|l ls IH]; intros s s' Hrun; cbn [run] in Hrun.
  - injection Hrun as <-. cbn. split; lia.
  - destruct (step s l) as [s1|] eqn:Hstep; [|done].
    destruct (step_counters s l s1 Hstep) as (A1 & B1).
    destruct (IH s1 s' Hrun) as (A2 & B2).
    assert (Hf : fetched (l :: ls) = fetched [l] + fetched ls).
    { destruct l as [|n [e|jobs] io| | | | | |]; cbn; lia. }
    assert (Ha : answered (l :: ls) = answered [l] + answered ls).
    { destruct l; cbn; lia. }
    split; lia.
Qed.

(** X16.  What the two poll counters of the agent count, between two
    daily resets.  The counter of fetched jobs is the total length of the
    poll responses received: a job that is delivered again is counted
    again, whether or not it is already queued.  The poll counter is the
    number of polls sent: each of them has been answered or is still in
    flight. *)
Theorem poll_counters (ls : list Label) (s : Sys) :
  run init_sys ls = Some s ->
  jobsFetchedToday s = fetched ls /\
  pollCount s = answered ls + polls_in_flight (tasks s).
Proof.
  intros Hrun. destruct (run_counters ls init_sys s Hrun) as (A & B).
  cbn in A, B. split; lia.
Qed.

End Counters.

(** Two polls; the late response carries three jobs, two of them with
    the same id, one for the job that is running. *)
Lemma poll_counters_witness :
  exists s,
    @run laptop init_sys
      [L_socket true; L_tick; L_tick;
       L_poll_response 0 (PollJobs [sample_job "j4" "a.pdf"]) io_ok;
       L_poll_response 0 (PollJobs late_response) io_ok] = Some s /\
    jobsFetchedToday s = 4 /\ pollCount s = 2 /\
    JSMap.keys (pendingJobs s) = ["j4"; "j5"].
Proof.
  eexists. split; [by vm_compute|].
  destruct (@poll_counters laptop
              [L_socket true; L_tick; L_tick;
               L_poll_response 0 (PollJobs [sample_job "j4" "a.pdf"]) io_ok;
               L_poll_response 0 (PollJobs late_response) io_ok]
              _ ltac:(by vm_compute)) as (Hf & Hp).
  split; [rewrite Hf; by vm_compute|].
  split; [rewrite Hp; by vm_compute|by vm_compute].
Defined.

(* ===================================================================== *)
(** * How a job is dispatched                                             *)
(* ===================================================================== *)

Section Dispatch.
Context `{Platform}.

(** X17.  The first stretch of a job.  The upload is written to the
    scratch directory before it is classified; when the write fails the
    job fails with the error of the write and [job_received] is not
    sent.  Otherwise [job_received] is sent and the classifier decides: a
    document waits for LibreOffice and an image for ImageMagick, both
    counted as conversions before their outcome is known; a PDF waits for
    its verification; any other file fails at once, with the message
    "Unsupported file type: unknown", and its upload stays on disk. *)
Theorem processJob_dispatch (io : IO) (jobId : string) (job : Job) (s : Sys) :
  JSMap.get jobId (pendingJobs s) = Some job ->
  let originalPath := path_join tempDir (jobId ++ "_" ++ filename job) in
  exists s',
    processJob io jobId s = Some s' /\
    match io originalPath, stage_of (getFileType (filename job)) with
    | Some e, _ =>
        exists later,
          emitted s'
          = (emitted s ++ failure_event (connected s) jobId e ++ later)%list
    | None, Some stage =>
        tasks s'
        = (tasks s ++ [T_job (mkJobTask jobId job originalPath originalPath
                                stage)])%list /\
        currentJob s' = Some jobId /\
        pendingJobs s' = pendingJobs s /\
        emitted s'
        = (emitted s ++ if connected s then [job_received jobId] else [])%list
        /\ fs s' = {[ originalPath ]} ∪ fs s /\
        conversionsToday s'
        = conversionsToday s
          + match stage with AwVerifyPDF => 0 | _ => 1 end
    | None, None =>
        originalPath ∈ fs s' /\
        exists later,
          emitted s'
          = (emitted s
               ++ (if connected s
                   then [job_received jobId;
                         print_complete_failed jobId
                           "Unsupported file type: unknown"]
                   else []) ++ later)%list
    end.
Proof.
  intros Hget originalPath.
  rewrite processJob_unfold, Hget. cbv zeta.
  set (s1 := with_hist_started _ _).
  unfold try_begin. fold originalPath.
  destruct (io originalPath) as [e|].
  - (* the write throws *)
    cbn [settle].
    destruct (finally_block_spec io jobId (catch_block jobId e s1))
      as (s' & Hs' & (_ & _ & _ & (evs & Hev) & _) & _).
    exists s'. split; [done|]. exists evs. rewrite Hev.
    unfold catch_block. rewrite emit_emitted. unfold failure_event, s1.
    sys_simpl. by rewrite <- app_assoc.
  - set (s2 := with_fs _ s1).
    set (s3 := emit_if_connected (job_received jobId) s2).
    assert (E3 : emitted s3
                 = (emitted s
                      ++ if connected s then [job_received jobId] else [])%list)
      by (unfold s3; by rewrite emit_emitted).
    assert (F3 : fs s3 = {[ originalPath ]} ∪ fs s)
      by (unfold s3; by rewrite emit_fs).
    destruct (same_control_emit (job_received jobId) s2)
      as (C1 & C2 & C3 & _ & _ & C6 & _).
    fold s3 in C1, C2, C3, C6. unfold s2, s1 in C1, C2, C3, C6. sys_simpl.
    assert (K3 : conversionsToday s3 = conversionsToday s)
      by (unfold s3, emit_if_connected; by destruct (connected s2)).
    destruct (getFileType (filename job)); cbn [stage_of settle].
    1-3: eexists; (split; [done|]); sys_simpl; rewrite ?C3, ?K3;
      split_and!; try done; lia.
    destruct (finally_block_spec io jobId
                (catch_block jobId
                   (JobError "Unsupported file type: unknown" jobId) s3))
      as (s' & Hs' & (_ & _ & Hfs & (evs & Hev) & _) & _).
    exists s'. split; [done|]. unfold catch_block in *.
    rewrite emit_fs in Hfs. rewrite emit_emitted in Hev. split.
    + apply Hfs. rewrite F3. apply elem_of_union. left.
      by apply elem_of_singleton.
    + exists evs. rewrite Hev, E3, C6. cbn [message].
      destruct (connected s); by rewrite <- !app_assoc.
Qed.

End Dispatch.

(** A GIF is written, announced, and refused. *)
Lemma processJob_dispatch_witness :
  exists s',
    @processJob laptop io_ok "j3" gif_queued = Some s' /\
    "print-queue/j3_photo.gif" ∈ fs s' /\
    exists later,
      emitted s'
      = ([job_received "j3";
          print_complete_failed "j3" "Unsupported file type: unknown"]
           ++ later)%list.
Proof.
  exact (@processJob_dispatch laptop io_ok "j3" gif_job gif_queued eq_refl).
Defined.

Section Converted.
Context `{Platform}.


End Converted.


(* ===================================================================== *)
(** * The polling loops                                                   *)
(* ===================================================================== *)

Section Polling.
Context `{Platform}.

Lemma agent_step_intervals pollInterval a ev a' :
  agent_step pollInterval a ev = Some a' ->
  List.length (intervals (pollers a'))
  = (List.length (intervals (pollers a)) + connects [ev])%nat.
Proof.
  destruct ev as [|k|k|l]; cbn [agent_step connects].
  - intros [= <-]. cbn. rewrite length_app. cbn. lia.
  - destruct (first_polls (pollers a) !! k); [|done].
    destruct (_ <=? _); [|done]. intros [= <-]. cbn. lia.
  - destruct (intervals (pollers a) !! k); [|done].
    destruct (_ <=? _); [|done]. intros [= <-]. cbn.
    rewrite length_insert. lia.
  - destruct (step (sys a) l); [|done]. intros [= <-]. cbn. lia.
Qed.

Lemma agent_run_intervals pollInterval (evs : list AgentEvent) : forall a a',
  agent_run pollInterval a evs = Some a' ->
  List.length (intervals (pollers a'))
  = (List.length (intervals (pollers a)) + connects evs)%nat.
Proof.
  induction evs as [|ev evs IH]; intros a a' Hrun; cbn [agent_run] in Hrun.
  - injection Hrun as <-. cbn. lia.
  - destruct (agent_step pollInterval a ev) as [a1|] eqn:Hstep; [|done].
    rewrite (IH a1 a' Hrun), (agent_step_intervals _ _ _ _ Hstep).
    destruct ev; cbn; lia.
Qed.

(** The intervals [i], [i+1], ... fire in turn at an agent that is
    connected and has no current job. *)
Lemma intervals_fire pollInterval (k : nat) : forall (i : nat) (a : Agent),
  0 <= pollInterval ->
  connected (sys a) = true -> JS.truthy_opt (currentJob (sys a)) = false ->
  (i + k <= List.length (intervals (pollers a)))%nat ->
  Forall (fun d => d <= now (sys a)) (drop i (intervals (pollers a))) ->
  exists a',
    agent_run pollInterval a (map A_interval (seq i k)) = Some a' /\
    polls_in_flight (tasks (sys a'))
    = polls_in_flight (tasks (sys a)) + Z.of_nat k /\
    pollCount (sys a') = pollCount (sys a) + Z.of_nat k.
Proof.
  induction k as [|k IH]; intros i a Hp Hc Hcur Hlen Hdue.
  { exists a. cbn. split; [done|]. split; lia. }
  cbn [seq map agent_run agent_step].
  destruct (intervals (pollers a) !! i) as [d|] eqn:Hi.
  2:{ apply lookup_ge_None in Hi. lia. }
  assert (Hd : d <= now (sys a)).
  { rewrite Forall_forall in Hdue. apply Hdue.
    apply (list_elem_of_lookup_2 _ 0%nat). rewrite lookup_drop.
    by rewrite Nat.add_0_r. }
  destruct (Z.leb_spec d (now (sys a))); [|lia].
  set (a1 := {| sys := poll_begin (sys a); pollers := _ |}).
  assert (Hpb : poll_begin (sys a)
                = with_tasks (tasks (sys a) ++ [T_poll])%list
                    (with_poll (pollCount (sys a) + 1) (Some (now (sys a)))
                       (sys a))).
  { unfold poll_begin. by rewrite Hc, Hcur. }
  destruct (IH (S i) a1) as (a' & Hrun & Hfl & Hcnt); try done.
  - unfold a1. cbn [sys]. by rewrite Hpb.
  - unfold a1. cbn [sys]. by rewrite Hpb.
  - unfold a1. cbn [pollers intervals]. rewrite length_insert. lia.
  - unfold a1. cbn [pollers intervals sys]. rewrite Hpb. sys_simpl.
    rewrite drop_insert_lt by lia.
    rewrite Forall_forall in Hdue. apply Forall_forall. intros x Hx.
    apply Hdue. apply list_elem_of_lookup in Hx as (j & Hj).
    rewrite lookup_drop in Hj.
    apply (list_elem_of_lookup_2 _ (S j)). rewrite lookup_drop.
    by replace (i + S j)%nat with (S i + j)%nat by lia.
  - exists a'. split; [exact Hrun|].
    unfold a1 in Hfl, Hcnt. cbn [sys] in Hfl, Hcnt.
    rewrite Hpb in Hfl, Hcnt. sys_simpl.
    rewrite polls_in_flight_app in Hfl. cbn in Hfl. split; lia.
Qed.

(** X19.  Every connect starts one more polling loop and nothing ever
    stops one: after any run of the agent, there are as many polling
    intervals as there were connect events.  The loops fire
    independently and [pollForJobs] does not look for a poll in flight: when
    the intervals are due at a connected agent without current job, each
    of them sends its own request, and the requests are in flight
    together. *)
Theorem polling_loops_accumulate (pollInterval : Z) (evs : list AgentEvent)
  (a : Agent) :
  0 <= pollInterval ->
  agent_run pollInterval init_agent evs = Some a ->
  List.length (intervals (pollers a)) = connects evs /\
  (connected (sys a) = true ->
   JS.truthy_opt (currentJob (sys a)) = false ->
   Forall (fun d => d <= now (sys a)) (intervals (pollers a)) ->
   exists a',
     agent_run pollInterval a (all_fire (connects evs)) = Some a' /\
     polls_in_flight (tasks (sys a'))
     = polls_in_flight (tasks (sys a)) + Z.of_nat (connects evs) /\
     pollCount (sys a') = pollCount (sys a) + Z.of_nat (connects evs)).
Proof.
  intros Hp Hrun.
  pose proof (agent_run_intervals pollInterval evs init_agent a Hrun) as Hn.
  cbn in Hn. split; [exact Hn|].
  intros Hc Hcur Hdue. unfold all_fire.
  apply intervals_fire; try done. rewrite Hn. lia.
Qed.

End Polling.

(** The socket connects, drops and connects again; ten seconds later
    both polling loops fire. *)
Lemma polling_loops_accumulate_witness :
  exists a a',
    @agent_run laptop 5000 init_agent
      [A_connect; A_sys (L_socket false); A_connect; A_sys (L_advance 10000)]
    = Some a /\
    List.length (intervals (pollers a)) = 2%nat /\
    @agent_run laptop 5000 a (all_fire 2) = Some a' /\
    polls_in_flight (tasks (sys a')) = 2 /\ pollCount (sys a') = 2.
Proof.
  eexists.
  destruct (@polling_loops_accumulate laptop 5000
              [A_connect; A_sys (L_socket false); A_connect;
               A_sys (L_advance 10000)]
              _ ltac:(lia) ltac:(by vm_compute)) as (Hn & Hfire).
  destruct Hfire as (a' & Hrun & Hfl & Hcnt).
  - by vm_compute.
  - by vm_compute.
  - repeat constructor; by vm_compute.
  - exists a'. split; [by vm_compute|]. split; [exact Hn|].
    split; [exact Hrun|]. split; [exact Hfl|exact Hcnt].
Defined.
